(** * Decision Memo Slack app: a shallow embedding of [index.js]

    The development follows the source file top to bottom:

    - [JsString]: JavaScript strings as sequences of UTF-16 code units and the
      string methods the handlers call ([trim], [toLowerCase], [split], ...);
    - [Json]: JavaScript values, [JSON.parse], [JSON.stringify] and string
      conversion;
    - [Store]: sessions and the global [conversations] object;
    - [Async]: a small monad of asynchronous programs ([await] on an external
      call, [try]/[catch], reads and writes of [conversations]), with a
      runner for one handler and a scheduler for handlers in flight together;
    - [App]: the handlers of [index.js] written in that monad;
    - [Flow]: events handled in sequence, and schedules;
    - [Props]: the vocabulary of the properties;
    - [Behaviour]: the vocabulary of the further properties;
    - the properties of the specification, proved on those definitions;
    - further properties of the handlers: the texts they build, what each
      handler does when a call fails, and what holds for every event and every
      interleaving.

    Calls to [console.log] and [console.error] are left out. *)

From Stdlib Require Import NArith ZArith Ascii String List Lia Bool DecimalString.
From stdpp Require Import base option list gmap.
Import ListNotations.

(** ** JavaScript strings *)

Module JsString.

(** A string is its sequence of UTF-16 code units: [length] is [.length],
    [take n] is [.substring(0, n)]. *)
Abbreviation jstring := (list N).

(** Source literals are written as Rocq strings, which hold the UTF-8 bytes of
    the file; [js] decodes them into code units. *)
Fixpoint bytes_of (s : string) : list N :=
  match s with
  | EmptyString => []
  | String c t => N_of_ascii c :: bytes_of t
  end.

Definition cont (b : N) : N := N.land b 63.

Fixpoint utf16_of_utf8 (bs : list N) : list N :=
  match bs with
  | [] => []
  | b :: t =>
      if (b <? 128)%N then b :: utf16_of_utf8 t
      else if (b <? 224)%N then
        match t with
        | b1 :: t1 =>
            (N.shiftl (N.land b 31) 6 + cont b1)%N :: utf16_of_utf8 t1
        | _ => [b]
        end
      else if (b <? 240)%N then
        match t with
        | b1 :: b2 :: t2 =>
            (N.shiftl (N.land b 15) 12 + N.shiftl (cont b1) 6 + cont b2)%N
              :: utf16_of_utf8 t2
        | _ => [b]
        end
      else
        match t with
        | b1 :: b2 :: b3 :: t3 =>
            let cp := (N.shiftl (N.land b 7) 18 + N.shiftl (cont b1) 12
                       + N.shiftl (cont b2) 6 + cont b3 - 65536)%N in
            (55296 + N.shiftr cp 10)%N :: (56320 + N.land cp 1023)%N
              :: utf16_of_utf8 t3
        | _ => [b]
        end
  end.

Definition js (s : string) : jstring := utf16_of_utf8 (bytes_of s).

(** Code units the handlers look for. *)
Definition c_quote : N := 34.      (* the double quote *)
Definition c_hash : N := 35.
Definition c_comma : N := 44.
Definition c_colon : N := 58.
Definition c_lbracket : N := 91.
Definition c_backslash : N := 92.
Definition c_rbracket : N := 93.
Definition c_newline : N := 10.

Definition dq : jstring := [c_quote].
Definition nl : jstring := [c_newline].

Definition jstring_eqb (a b : jstring) : bool := bool_decide (a = b).

(** [WhiteSpace] and [LineTerminator] of ECMAScript: what [trim] removes and
    what the class [\s] matches. *)
Definition is_space (c : N) : bool :=
  ((9 <=? c) && (c <=? 13) || (c =? 32) || (c =? 160) || (c =? 5760)
   || ((8192 <=? c) && (c <=? 8202)) || (c =? 8232) || (c =? 8233)
   || (c =? 8239) || (c =? 8287) || (c =? 12288) || (c =? 65279))%N.

Fixpoint trimStart (s : jstring) : jstring :=
  match s with
  | c :: t => if is_space c then trimStart t else s
  | [] => []
  end.

Definition trimEnd (s : jstring) : jstring := rev (trimStart (rev s)).

Definition trim (s : jstring) : jstring := trimEnd (trimStart s).

(** [toLowerCase] on the Basic Latin and Latin-1 letters. Code units above
    U+00FF are returned as they are: the Unicode case tables are not part of
    this development. The handlers compare a lowered string with the words
    stop, text, txt and plain only, and no code unit outside Basic Latin
    lowers to a letter of these words, so the comparisons are exact. *)
Definition lower_unit (c : N) : N :=
  if ((65 <=? c) && (c <=? 90))%N then (c + 32)%N
  else if ((192 <=? c) && (c <=? 222) && negb (c =? 215))%N then (c + 32)%N
  else c.

Definition toLowerCase (s : jstring) : jstring := map lower_unit s.

(** [s.startsWith(p)] *)
Fixpoint startsWith (p s : jstring) : bool :=
  match p, s with
  | [], _ => true
  | a :: p', b :: s' => (a =? b)%N && startsWith p' s'
  | _ :: _, [] => false
  end.

(** [s.includes(p)]: [p] occurs in [s] as a contiguous run. *)
Fixpoint includes (p s : jstring) : bool :=
  startsWith p s ||
  match s with
  | [] => false
  | _ :: t => includes p t
  end.

(** [s.split(sep)] for a non-empty separator. [skip] counts the code units of
    a separator occurrence that are still to be passed over; [cur] is the
    piece being read, last unit first. *)
Fixpoint split_go (sep : jstring) (skip : nat) (cur : jstring) (s : jstring)
  : list jstring :=
  match s with
  | [] => [rev cur]
  | c :: t =>
      match skip with
      | S k => split_go sep k cur t
      | O =>
          if startsWith sep s
          then rev cur :: split_go sep (length sep - 1) [] t
          else split_go sep 0 (c :: cur) t
      end
  end.

Definition split (sep s : jstring) : list jstring := split_go sep 0 [] s.

(** [pieces.join(sep)] *)
Fixpoint join (sep : jstring) (pieces : list jstring) : jstring :=
  match pieces with
  | [] => []
  | [p] => p
  | p :: rest => p ++ sep ++ join sep rest
  end.

(** [s.substring(0, n)] *)
Definition substring0 (n : nat) (s : jstring) : jstring := take n s.

End JsString.
Export JsString.

(** ** JavaScript values, [JSON.parse], [JSON.stringify] *)

Module Json.

(** A Number that JSON text can denote: [m] times two to the [e], negated
    when [negative] (a zero when [m] is zero), or an infinity. The doubles
    are the values with [m] below two to the 53 and [e] from -1074 to 971. *)
Inductive Number : Type :=
| Finite (negative : bool) (m : N) (e : Z)
| Infinity (negative : bool).

(** The values the handlers receive from HTTP bodies and from [JSON.parse].
    An object is the list of its own properties in enumeration order, each
    key once. *)
#[warnings="-register-all"]
Inductive jsval : Type :=
| JUndefined
| JNull
| JBool (b : bool)
| JNum (v : Number)
| JStr (s : jstring)
| JArr (elems : list jsval)
| JObj (props : list (jstring * jsval)).

Definition is_undefined (v : jsval) : bool :=
  match v with JUndefined => true | _ => false end.

Definition is_nullish (v : jsval) : bool :=
  match v with JUndefined | JNull => true | _ => false end.

(** [obj[k]] on the own properties. *)
Fixpoint assoc (k : jstring) (props : list (jstring * jsval)) : option jsval :=
  match props with
  | [] => None
  | (k', v) :: rest => if jstring_eqb k k' then Some v else assoc k rest
  end.

(** [obj[k] = v]: an existing key keeps its place. *)
Fixpoint assoc_set (k : jstring) (v : jsval) (props : list (jstring * jsval))
  : list (jstring * jsval) :=
  match props with
  | [] => [(k, v)]
  | (k', v') :: rest =>
      if jstring_eqb k k' then (k, v) :: rest else (k', v') :: assoc_set k v rest
  end.

(** [v.name] for a name that no built-in prototype defines ([content],
    [text]): [None] is the [TypeError] of reading a property of [undefined]
    or [null]. *)
Definition get_named (name : jstring) (v : jsval) : option jsval :=
  match v with
  | JUndefined | JNull => None
  | JObj props => Some (default JUndefined (assoc name props))
  | _ => Some JUndefined
  end.

(** [v[0]] *)
Definition get_index0 (v : jsval) : option jsval :=
  match v with
  | JUndefined | JNull => None
  | JArr (e :: _) => Some e
  | JStr (c :: _) => Some (JStr [c])
  | JObj props => Some (default JUndefined (assoc (js "0") props))
  | _ => Some JUndefined
  end.

(** *** Numbers: reading a decimal literal, printing a Number *)

Section Numbers.
Local Open Scope Z_scope.

(** [p / q] rounded to the nearest integer, ties to even. *)
Definition round_half_even (p q : Z) : Z :=
  let d := p / q in
  let r := p mod q in
  if 2 * r <? q then d
  else if q <? 2 * r then d + 1
  else if Z.even d then d else d + 1.

(** [p / (q * 2^e)] as a fraction of integers. *)
Definition scaled (p q e : Z) : Z * Z :=
  if 0 <=? e then (p, q * 2 ^ e) else (p * 2 ^ (- e), q).

(** The double nearest to [p / q], for [p] not negative and [q] positive
    (IEEE 754 binary64, round to nearest, ties to even): 53 bits of mantissa,
    the least exponent -1074, an infinity from two to the 1024 on. *)
Definition nearest (negative : bool) (p q : Z) : Number :=
  if p =? 0 then Finite negative 0 0
  else
    let e1 := Z.log2 p - Z.log2 q - 52 in
    let '(P1, Q1) := scaled p q e1 in
    let e2 := if 2 ^ 52 * Q1 <=? P1 then e1 else e1 - 1 in
    let e := Z.max e2 (-1074) in
    let '(P, Q) := scaled p q e in
    let m := round_half_even P Q in
    let '(m', e') := if m =? 2 ^ 53 then (2 ^ 52, e + 1) else (m, e) in
    if 971 <? e' then Infinity negative
    else Finite negative (Z.to_N m') (if m' =? 0 then 0 else e').

Definition digits_value (d : jstring) : Z :=
  fold_left (fun acc c => 10 * acc + (Z.of_N c - 48)) d 0.

(** The decimal digits of a natural number. *)
Definition decimal_N (n : N) : jstring :=
  js (NilZero.string_of_uint (N.to_uint n)).

Definition digits10 (n : Z) : Z := Z.of_nat (length (decimal_N (Z.to_N n))).

(** [s] times ten to the [t] as a fraction. *)
Definition times_pow10 (s t : Z) : Z * Z :=
  if 0 <=? t then (s * 10 ^ t, 1) else (s, 10 ^ (- t)).

(** The Number that the digits [d] times ten to the [x] denote. Far out of
    the range of the doubles the result is known without the power. *)
Definition literal_value (negative : bool) (d x : Z) : Number :=
  if d =? 0 then Finite negative 0 0
  else if 400 <? x + digits10 d then Infinity negative
  else if x + digits10 d <? -400 then Finite negative 0 0
  else let '(p, q) := times_pow10 d x in nearest negative p q.

Definition number_eqb (a b : Number) : bool :=
  match a, b with
  | Finite s m e, Finite s' m' e' => Bool.eqb s s' && (m =? m')%N && (e =? e')
  | Infinity s, Infinity s' => Bool.eqb s s'
  | _, _ => false
  end.

Fixpoint strip_zeros (r : jstring) : jstring :=
  match r with
  | c :: t => if (c =? 48)%N then strip_zeros t else r
  | [] => []
  end.

Definition strip_trailing_zeros (d : jstring) : jstring := rev (strip_zeros (rev d)).

(** [vn / vd] in units of ten to the [n0 - k]: the integer below or equal,
    the remainder and the divisor. *)
Definition below (vn vd n0 k : Z) : Z * Z * Z :=
  let t := n0 - k in
  let '(P, Q) := if 0 <=? t then (vn, vd * 10 ^ t) else (vn * 10 ^ (- t), vd) in
  (P / Q, P mod Q, Q).

(** [Number::toString] picks the significand with the fewest digits that
    reads back as the Number [v]; of the two decimals of [k] digits next to
    [v] the closer one, the even one on a tie. The search goes from [k]
    digits up; seventeen digits always do. *)
Fixpoint shortest (fuel : nat) (v : Number) (vn vd n0 k : Z) : Z * Z :=
  let '(lo, r, Q) := below vn vd n0 k in
  let t := n0 - k in
  let reads s := let '(p, q) := times_pow10 s t in number_eqb (nearest false p q) v in
  let closer := if 2 * r <? Q then lo else if Q <? 2 * r then lo + 1
                else if Z.even lo then lo else lo + 1 in
  match fuel with
  | O => (closer, k)
  | S f =>
      match reads lo, reads (lo + 1) with
      | true, true => (closer, k)
      | true, false => (lo, k)
      | false, true => (lo + 1, k)
      | false, false => shortest f v vn vd n0 (k + 1)
      end
  end.

Definition zeros (n : Z) : jstring := repeat 48%N (Z.to_nat n).

(** The text for the digits [d] with the decimal point after the first [n]
    of them: plain up to 21 integer digits and down to six zeros after the
    point, with an exponent beyond. *)
Definition format_digits (d : jstring) (n : Z) : jstring :=
  let k := Z.of_nat (length d) in
  if (k <=? n) && (n <=? 21) then d ++ zeros (n - k)
  else if (0 <? n) && (n <=? 21) then take (Z.to_nat n) d ++ js "." ++ drop (Z.to_nat n) d
  else if (-6 <? n) && (n <=? 0) then js "0." ++ zeros (- n) ++ d
  else
    let x := n - 1 in
    let sign := if x <? 0 then js "-" else js "+" in
    match d with
    | [c] => [c] ++ js "e" ++ sign ++ decimal_N (Z.abs_N x)
    | c :: rest => [c] ++ js "." ++ rest ++ js "e" ++ sign ++ decimal_N (Z.abs_N x)
    | [] => []
    end.

(** [String(v)] for a Number. *)
Definition Number_toString (v : Number) : jstring :=
  match v with
  | Infinity negative => (if negative then js "-" else []) ++ js "Infinity"
  | Finite negative m e =>
      if (m =? 0)%N then js "0"
      else
        let '(vn, vd) := scaled (Z.of_N m) 1 (- e) in
        let n0 := if vd <=? vn then digits10 (vn / vd) else 1 - digits10 (vd / vn) in
        let '(s, k) := shortest 16 (nearest false vn vd) vn vd n0 1 in
        let d := decimal_N (Z.to_N s) in
        let n := n0 + (Z.of_nat (length d) - k) in
        (if negative then js "-" else []) ++ format_digits (strip_trailing_zeros d) n
  end.

End Numbers.

(** [String(v)], the conversion a template literal applies: [None] is the
    [TypeError] it throws. The values here come from JSON text, so no property
    is a function: an object that has a property of its own called [toString]
    cannot be converted (the property hides [Object.prototype.toString], and
    [valueOf] returns the object); any other object gives the fixed text. An
    array joins the conversions of its elements, with nothing for [null] and
    [undefined]. *)
Fixpoint toString (v : jsval) : option jstring :=
  match v with
  | JUndefined => Some (js "undefined")
  | JNull => Some (js "null")
  | JBool true => Some (js "true")
  | JBool false => Some (js "false")
  | JNum n => Some (Number_toString n)
  | JStr s => Some s
  | JArr l =>
      join [c_comma]
        <$> mapM (fun e => if is_nullish e then Some [] else toString e) l
  | JObj props =>
      match assoc (js "toString") props with
      | Some _ => None
      | None => Some (js "[object Object]")
      end
  end.

(** *** [JSON.stringify] *)

Definition hex_digit (n : N) : N :=
  if (n <? 10)%N then (48 + n)%N else (87 + n)%N.

Definition hex4 (c : N) : jstring :=
  [hex_digit (N.shiftr c 12 mod 16); hex_digit (N.shiftr c 8 mod 16);
   hex_digit (N.shiftr c 4 mod 16); hex_digit (c mod 16)]%N.

Definition unicode_escape (c : N) : jstring := c_backslash :: 117%N :: hex4 c.

Definition is_high_surrogate (c : N) : bool := ((55296 <=? c) && (c <=? 56319))%N.
Definition is_low_surrogate (c : N) : bool := ((56320 <=? c) && (c <=? 57343))%N.

(** [QuoteJSONString] without the enclosing quotes. [paired] tells that the
    unit before was a high surrogate, so that a low surrogate here is the
    second half of a pair. *)
Fixpoint quote_units (paired : bool) (s : jstring) : jstring :=
  match s with
  | [] => []
  | c :: t =>
      (if (c =? 8)%N then [c_backslash; 98%N]
       else if (c =? 9)%N then [c_backslash; 116%N]
       else if (c =? 10)%N then [c_backslash; 110%N]
       else if (c =? 12)%N then [c_backslash; 102%N]
       else if (c =? 13)%N then [c_backslash; 114%N]
       else if (c =? c_quote)%N then [c_backslash; c_quote]
       else if (c =? c_backslash)%N then [c_backslash; c_backslash]
       else if (c <? 32)%N then unicode_escape c
       else if is_high_surrogate c then
         match t with
         | d :: _ => if is_low_surrogate d then [c] else unicode_escape c
         | [] => unicode_escape c
         end
       else if is_low_surrogate c then
         if paired then [c] else unicode_escape c
       else [c])
      ++ quote_units (is_high_surrogate c) t
  end.

Definition quote_string (s : jstring) : jstring :=
  dq ++ quote_units false s ++ dq.

(** [None] is the value [undefined] that [JSON.stringify(undefined)]
    returns. *)
Fixpoint stringify_def (v : jsval) : jstring :=
  match v with
  | JUndefined | JNull => js "null"
  | JBool true => js "true"
  | JBool false => js "false"
  | JNum (Finite negative m e) => Number_toString (Finite negative m e)
  | JNum (Infinity _) => js "null"
  | JStr s => quote_string s
  | JArr l => [c_lbracket] ++ join [c_comma] (map stringify_def l) ++ [c_rbracket]
  | JObj props =>
      [123%N] ++
      join [c_comma]
        (flat_map (fun kv =>
           let '(k, w) := kv in
           if is_undefined w then []
           else [quote_string k ++ [c_colon] ++ stringify_def w]) props)
      ++ [125%N]
  end.

Definition JSON_stringify (v : jsval) : option jstring :=
  match v with
  | JUndefined => None
  | _ => Some (stringify_def v)
  end.

(** *** [JSON.parse]

    A recursive-descent reader of the JSON grammar (ECMA-404), which is what
    [JSON.parse] accepts. *)

Inductive presult (A : Type) : Type :=
| POk (a : A) (rest : jstring)
| PErr
| PFuel.
Arguments POk {A} a rest.
Arguments PErr {A}.
Arguments PFuel {A}.

Definition is_json_ws (c : N) : bool :=
  ((c =? 32) || (c =? 9) || (c =? 10) || (c =? 13))%N.

Fixpoint skip_ws (s : jstring) : jstring :=
  match s with
  | c :: t => if is_json_ws c then skip_ws t else s
  | [] => []
  end.

Definition is_digit (c : N) : bool := ((48 <=? c) && (c <=? 57))%N.

Definition hex_value (c : N) : option N :=
  if is_digit c then Some (c - 48)%N
  else if ((97 <=? c) && (c <=? 102))%N then Some (c - 87)%N
  else if ((65 <=? c) && (c <=? 70))%N then Some (c - 55)%N
  else None.

(** The code unit a one-letter escape stands for. *)
Definition simple_escape (c : N) : option N :=
  if (c =? c_quote)%N then Some c_quote
  else if (c =? c_backslash)%N then Some c_backslash
  else if (c =? 47)%N then Some 47%N
  else if (c =? 98)%N then Some 8%N
  else if (c =? 102)%N then Some 12%N
  else if (c =? 110)%N then Some 10%N
  else if (c =? 114)%N then Some 13%N
  else if (c =? 116)%N then Some 9%N
  else None.

(** The characters of a string after its opening quote, up to the closing
    one: the decoded string and the text after it. *)
Fixpoint string_body (s : jstring) : option (jstring * jstring) :=
  match s with
  | [] => None
  | c :: t =>
      if (c =? c_quote)%N then Some ([], t)
      else if (c =? c_backslash)%N then
        match t with
        | [] => None
        | e :: t1 =>
            if (e =? 117)%N then
              match t1 with
              | h1 :: h2 :: h3 :: h4 :: t2 =>
                  match hex_value h1, hex_value h2, hex_value h3, hex_value h4 with
                  | Some a, Some b, Some c', Some d =>
                      match string_body t2 with
                      | Some (r, rest) =>
                          Some ((a * 4096 + b * 256 + c' * 16 + d)%N :: r, rest)
                      | None => None
                      end
                  | _, _, _, _ => None
                  end
              | _ => None
              end
            else
              match simple_escape e with
              | Some u =>
                  match string_body t1 with
                  | Some (r, rest) => Some (u :: r, rest)
                  | None => None
                  end
              | None => None
              end
        end
      else if (c <? 32)%N then None
      else
        match string_body t with
        | Some (r, rest) => Some (c :: r, rest)
        | None => None
        end
  end.

Fixpoint span_digits (s : jstring) : jstring * jstring :=
  match s with
  | c :: t =>
      if is_digit c then let '(d, r) := span_digits t in (c :: d, r)
      else ([], s)
  | [] => ([], [])
  end.

(** One or more digits. *)
Definition digits1 (s : jstring) : option (jstring * jstring) :=
  match span_digits s with
  | ([], _) => None
  | (d, r) => Some (d, r)
  end.

(** A JSON number: an optional minus sign, then a lone zero or a digit run
    that does not start with zero, then an optional fraction (a dot and one or
    more digits), then an optional exponent (e or E, an optional sign, one or
    more digits). The result is the numeral read and the text after it;
    [number_of_numeral] gives the Number that the numeral denotes. *)
Definition number_lit (s : jstring) : option (jstring * jstring) :=
  let '(sign, s1) :=
    match s with
    | c :: t => if (c =? 45)%N then ([c], t) else ([], s)
    | [] => ([], s)
    end in
  let int_part :=
    match s1 with
    | c :: t =>
        if (c =? 48)%N then Some ([c], t)
        else if is_digit c then Some (span_digits s1)
        else None
    | [] => None
    end in
  match int_part with
  | None => None
  | Some (i, s2) =>
      let frac :=
        match s2 with
        | c :: t =>
            if (c =? 46)%N then
              match digits1 t with
              | Some (d, r) => Some (c :: d, r)
              | None => None
              end
            else Some ([], s2)
        | [] => Some ([], s2)
        end in
      match frac with
      | None => None
      | Some (f, s3) =>
          let expo :=
            match s3 with
            | c :: t =>
                if ((c =? 101) || (c =? 69))%N then
                  let '(sg, t') :=
                    match t with
                    | g :: u =>
                        if ((g =? 43) || (g =? 45))%N then ([g], u) else ([], t)
                    | [] => ([], t)
                    end in
                  match digits1 t' with
                  | Some (d, r) => Some (c :: sg ++ d, r)
                  | None => None
                  end
                else Some ([], s3)
            | [] => Some ([], s3)
            end in
          match expo with
          | None => None
          | Some (e, s4) => Some (sign ++ i ++ f ++ e, s4)
          end
      end
  end.

Definition number_of_numeral (numeral : jstring) : Number :=
  let '(negative, s1) :=
    match numeral with
    | c :: t => if (c =? 45)%N then (true, t) else (false, numeral)
    | [] => (false, numeral)
    end in
  let '(int_digits, s2) := span_digits s1 in
  let '(frac_digits, s3) :=
    match s2 with
    | c :: t => if (c =? 46)%N then span_digits t else ([], s2)
    | [] => ([], s2)
    end in
  let exponent :=
    match s3 with
    | _ :: g :: u =>
        if (g =? 45)%N then (- digits_value u)%Z
        else if (g =? 43)%N then digits_value u
        else digits_value (g :: u)
    | _ => 0%Z
    end in
  literal_value negative (digits_value (int_digits ++ frac_digits))
    (exponent - Z.of_nat (length frac_digits)).

Definition strip_prefix (p s : jstring) : option jstring :=
  if startsWith p s then Some (drop (length p) s) else None.

(** [parse_value] reads one value after optional white space; [parse_elems]
    reads the elements of an array after its first bracket, and
    [parse_members] the members of an object after its first brace, each up
    to the closing bracket or brace. The [fuel] bounds the nesting of calls;
    [parse_fuel_enough] shows that [JSON_parse] gives enough. *)
Fixpoint parse_value (fuel : nat) (s : jstring) {struct fuel} : presult jsval :=
  match fuel with
  | O => PFuel
  | S f =>
      match skip_ws s with
      | [] => PErr
      | c :: t =>
          if (c =? c_quote)%N then
            match string_body t with
            | Some (str, rest) => POk (JStr str) rest
            | None => PErr
            end
          else if (c =? c_lbracket)%N then
            match skip_ws t with
            | d :: t' =>
                if (d =? c_rbracket)%N then POk (JArr []) t'
                else
                  match parse_elems f t with
                  | POk l rest => POk (JArr l) rest
                  | PErr => PErr
                  | PFuel => PFuel
                  end
            | [] => PErr
            end
          else if (c =? 123)%N then
            match skip_ws t with
            | d :: t' =>
                if (d =? 125)%N then POk (JObj []) t'
                else
                  match parse_members f t with
                  | POk l rest => POk (JObj l) rest
                  | PErr => PErr
                  | PFuel => PFuel
                  end
            | [] => PErr
            end
          else if (c =? 116)%N then
            match strip_prefix (js "true") (c :: t) with
            | Some rest => POk (JBool true) rest
            | None => PErr
            end
          else if (c =? 102)%N then
            match strip_prefix (js "false") (c :: t) with
            | Some rest => POk (JBool false) rest
            | None => PErr
            end
          else if (c =? 110)%N then
            match strip_prefix (js "null") (c :: t) with
            | Some rest => POk JNull rest
            | None => PErr
            end
          else
            match number_lit (c :: t) with
            | Some (n, rest) => POk (JNum (number_of_numeral n)) rest
            | None => PErr
            end
      end
  end
with parse_elems (fuel : nat) (s : jstring) {struct fuel} : presult (list jsval) :=
  match fuel with
  | O => PFuel
  | S f =>
      match parse_value f s with
      | POk v rest =>
          match skip_ws rest with
          | c :: t =>
              if (c =? c_rbracket)%N then POk [v] t
              else if (c =? c_comma)%N then
                match parse_elems f t with
                | POk l rest' => POk (v :: l) rest'
                | PErr => PErr
                | PFuel => PFuel
                end
              else PErr
          | [] => PErr
          end
      | PErr => PErr
      | PFuel => PFuel
      end
  end
with parse_members (fuel : nat) (s : jstring) {struct fuel}
  : presult (list (jstring * jsval)) :=
  match fuel with
  | O => PFuel
  | S f =>
      match skip_ws s with
      | q :: t =>
          if (q =? c_quote)%N then
            match string_body t with
            | Some (key, rest) =>
                match skip_ws rest with
                | c :: t1 =>
                    if (c =? c_colon)%N then
                      match parse_value f t1 with
                      | POk v rest1 =>
                          match skip_ws rest1 with
                          | d :: t2 =>
                              if (d =? 125)%N then POk [(key, v)] t2
                              else if (d =? c_comma)%N then
                                match parse_members f t2 with
                                | POk l rest2 => POk ((key, v) :: l) rest2
                                | PErr => PErr
                                | PFuel => PFuel
                                end
                              else PErr
                          | [] => PErr
                          end
                      | PErr => PErr
                      | PFuel => PFuel
                      end
                    else PErr
                | [] => PErr
                end
            | None => PErr
            end
          else PErr
      | [] => PErr
      end
  end.

(** An array index as a property key: the decimal digits, without a
    leading zero, of a number below two to the 32 minus one. *)
Definition array_index (k : jstring) : option N :=
  match k with
  | [] => None
  | c :: t =>
      if forallb is_digit k && (negb (c =? 48)%N || match t with [] => true | _ => false end)
         && (length k <=? 10)%nat && (Z.to_N (digits_value k) <? 4294967295)%N
      then Some (Z.to_N (digits_value k))
      else None
  end.

Fixpoint insert_index (i : N) (kv : jstring * jsval) (sorted : list (N * (jstring * jsval)))
  : list (N * (jstring * jsval)) :=
  match sorted with
  | [] => [(i, kv)]
  | (j, kv') :: rest =>
      if (i <? j)%N then (i, kv) :: sorted else (j, kv') :: insert_index i kv rest
  end.

(** The properties in enumeration order: those whose key is an array index
    first, by ascending index, then the others in the order of creation. *)
Definition enumeration_order (props : list (jstring * jsval)) : list (jstring * jsval) :=
  map snd
    (fold_right (fun kv acc =>
                   match array_index (fst kv) with
                   | Some i => insert_index i kv acc
                   | None => acc
                   end) [] props)
  ++ filter (fun kv => array_index (fst kv) = None) props.

(** Members in source order become the object's properties: a repeated key
    keeps its first place and takes the last value. *)
Fixpoint normalize (v : jsval) : jsval :=
  match v with
  | JArr l => JArr (map normalize l)
  | JObj props =>
      JObj (enumeration_order
              (fold_left (fun acc kv =>
                            let '(k, w) := kv in assoc_set k (normalize w) acc)
                 props []))
  | _ => v
  end.

(** [JSON.parse(text)]: [None] is the [SyntaxError]. *)
Definition JSON_parse (text : jstring) : option jsval :=
  match parse_value (2 * length text + 2) text with
  | POk v rest =>
      match skip_ws rest with
      | [] => Some (normalize v)
      | _ => None
      end
  | _ => None
  end.

End Json.
Export Json.

(** ** The data the handlers keep *)

Module Store.

(** [conversation.stage]: the three string constants ['started'],
    ['asking_questions'] and ['generating']. *)
Inductive Stage : Type := Started | AskingQuestions | Generating.

#[global] Instance Stage_eq_dec : EqDecision Stage.
Proof. solve_decision. Defined.

(** A Slack message as the shortcut handler reads it; [None] is a property
    that is [undefined]. *)
Record Message : Type := mkMessage {
  msg_user : option jstring;
  msg_text : option jstring;
  msg_bot_id : option jstring;
  msg_subtype : option jstring;
  msg_ts : option jstring;
  msg_thread_ts : option jstring
}.

(** An entry of [conversations]. The command handler creates the first four
    properties, the shortcut handler the three about the thread as well; the
    questions and the answer are added later. [None] is a property that is
    missing or [undefined]. *)
Record Session : Type := mkSession {
  userId : jstring;
  stage : Stage;
  context : option jstring;
  participants : jstring;
  clarifyingQuestions : option (list jsval);
  clarifyingAnswers : option jstring;
  rawMessages : option (list Message);
  originalChannel : option jstring;
  threadTs : option jstring
}.

Definition set_stage (st : Stage) (s : Session) : Session :=
  mkSession (userId s) st (context s) (participants s) (clarifyingQuestions s)
    (clarifyingAnswers s) (rawMessages s) (originalChannel s) (threadTs s).

Definition set_context (c : option jstring) (s : Session) : Session :=
  mkSession (userId s) (stage s) c (participants s) (clarifyingQuestions s)
    (clarifyingAnswers s) (rawMessages s) (originalChannel s) (threadTs s).

Definition set_questions (q : list jsval) (s : Session) : Session :=
  mkSession (userId s) (stage s) (context s) (participants s) (Some q)
    (clarifyingAnswers s) (rawMessages s) (originalChannel s) (threadTs s).

Definition set_answers (a : option jstring) (s : Session) : Session :=
  mkSession (userId s) (stage s) (context s) (participants s)
    (clarifyingQuestions s) a (rawMessages s) (originalChannel s) (threadTs s).

(** The state of the process: the session objects that were created, by
    address, and the global [conversations], which maps a channel id to the
    address of its session. A handler that holds [conversation] holds an
    address: it still reaches the object after [delete conversations[ch]].
    Channel ids are Slack ids, none of which names a property of
    [Object.prototype]. *)
Record World : Type := mkWorld {
  heap : list Session;
  conversations : gmap jstring nat
}.

Definition empty_world : World := mkWorld [] ∅.

(** The session a channel is mapped to, if any. *)
Definition session_of (w : World) (ch : jstring) : option Session :=
  l ← conversations w !! ch; heap w !! l.

(** The stage observed on a channel: [None] when it has no session. *)
Definition stage_of (w : World) (ch : jstring) : option Stage :=
  stage <$> session_of w ch.

End Store.
Export Store.

(** ** Asynchronous programs *)

Module Async.

(** A thrown value: an [Error] with its [message]; [err_data_error] is
    [error.data.error], which the Slack client sets on a platform error. *)
Record JsError : Type := mkError {
  err_message : jstring;
  err_data_error : option jstring
}.

Definition TypeError : JsError := mkError (js "TypeError") None.

(** The calls a handler awaits. *)
Inductive Call : Type :=
| Ack
| Respond (text : jstring)
| ConversationsOpen (users : jstring)
| ChatPostMessage (channel : jstring) (thread_ts : option jstring) (text : jstring)
| ConversationsReplies (channel ts : jstring)
| FilesInfo (file : jstring)
| AxiosGet (url : jstring)
| AnthropicMessages (max_tokens : N) (prompt : jstring).

(** What comes back: a rejection, or the part of the result the handler
    reads. *)
Inductive Reply : Type :=
| Rejected (e : JsError)
| Done
| Channel (id : jstring)                     (* [result.channel.id] *)
| Replies (messages : option (list Message)) (* [result.messages] *)
| FileInfo (url_private : jstring)           (* [result.file.url_private] *)
| Body (data : jsval).                       (* [response.data] *)

Inductive Prog (A : Type) : Type :=
| Ret (a : A)
| Throw (e : JsError)
| Await (c : Call) (k : Reply → Prog A)
| Get (k : World → Prog A)
| Put (w : World) (k : Prog A)
| Spawn (child : Prog unit) (k : Prog A).
Arguments Ret {A} a.
Arguments Throw {A} e.
Arguments Await {A} c k.
Arguments Get {A} k.
Arguments Put {A} w k.
Arguments Spawn {A} child k.

Fixpoint bind {A B : Type} (p : Prog A) (f : A → Prog B) : Prog B :=
  match p with
  | Ret a => f a
  | Throw e => Throw e
  | Await c k => Await c (λ r, bind (k r) f)
  | Get k => Get (λ w, bind (k w) f)
  | Put w k => Put w (bind k f)
  | Spawn c k => Spawn c (bind k f)
  end.

#[global] Instance Prog_ret : MRet Prog := @Ret.
#[global] Instance Prog_bind : MBind Prog := λ A B f p, bind p f.
#[global] Instance Prog_fmap : FMap Prog := λ A B f p, bind p (λ a, Ret (f a)).

(** [try { p } catch (e) { h e }] *)
Fixpoint try_catch {A : Type} (p : Prog A) (h : JsError → Prog A) : Prog A :=
  match p with
  | Ret a => Ret a
  | Throw e => h e
  | Await c k => Await c (λ r, try_catch (k r) h)
  | Get k => Get (λ w, try_catch (k w) h)
  | Put w k => Put w (try_catch k h)
  | Spawn c k => Spawn c (try_catch k h)
  end.

(** [await c]: the handler resumes with the result, or the rejection is
    thrown at the [await]. *)
Definition settled (r : Reply) : Prog Reply :=
  match r with
  | Rejected e => Throw e
  | _ => Ret r
  end.

Definition await (c : Call) : Prog Reply := Await c settled.

Definition get_world : Prog World := Get Ret.
Definition put_world (w : World) : Prog unit := Put w (Ret tt).

(** [conversations[ch]] *)
Definition conv_get (ch : jstring) : Prog (option nat) :=
  w ← get_world; mret (conversations w !! ch).

(** [conversations[ch] = { ... }]: a new object. *)
Definition conv_new (ch : jstring) (s : Session) : Prog nat :=
  w ← get_world;
  put_world (mkWorld (heap w ++ [s]) (<[ch := length (heap w)]> (conversations w)));;
  mret (length (heap w)).

(** [delete conversations[ch]] *)
Definition conv_delete (ch : jstring) : Prog unit :=
  w ← get_world;
  put_world (mkWorld (heap w) (delete ch (conversations w))).

(** Reading and updating the object at an address. Every address a handler
    holds was read from [conversations], so the object is there. *)
Definition obj_read (l : nat) : Prog Session :=
  w ← get_world;
  match heap w !! l with
  | Some s => mret s
  | None => Throw TypeError
  end.

Definition obj_update (l : nat) (f : Session → Session) : Prog unit :=
  w ← get_world;
  put_world (mkWorld (alter f l (heap w)) (conversations w)).

(** [conversations[ch].prop = ...]: a [TypeError] when the channel has no
    session. *)
Definition conv_update (ch : jstring) (f : Session → Session) : Prog unit :=
  o ← conv_get ch;
  match o with
  | Some l => obj_update l f
  | None => Throw TypeError
  end.

(** *** Running one handler to its end

    The environment is a sequence of replies: the [n]-th await of the run
    receives [env n]. A call that is not awaited ([Spawn]) runs to its end
    where it is made; what it throws is an unhandled rejection. *)

Inductive Result (A : Type) : Type :=
| Returned (a : A)
| Thrown (e : JsError).
Arguments Returned {A} a.
Arguments Thrown {A} e.

Record RunState : Type := mkRun {
  rs_world : World;
  rs_calls : list Call;    (* the calls made so far, oldest first *)
  rs_next : nat            (* the number of replies consumed *)
}.

Definition start (w : World) : RunState := mkRun w [] 0.

Fixpoint run {A : Type} (env : nat → Reply) (p : Prog A) (st : RunState)
  : Result A * RunState :=
  match p with
  | Ret a => (Returned a, st)
  | Throw e => (Thrown e, st)
  | Await c k =>
      run env (k (env (rs_next st)))
        (mkRun (rs_world st) (rs_calls st ++ [c]) (S (rs_next st)))
  | Get k => run env (k (rs_world st)) st
  | Put w k => run env k (mkRun w (rs_calls st) (rs_next st))
  | Spawn c k => run env k (snd (run env c st))
  end.

(** *** Handlers in flight together

    Node runs a handler until it awaits a call, and resumes it when the reply
    arrives; between two awaits nothing else runs. A task is a handler
    stopped at a call, with what it does with the reply. Events may arrive
    and replies may come back in any order. *)

Record Task : Type := mkTask {
  task_call : Call;
  task_resume : Reply → Prog unit
}.

(** The trace keeps every call with the [conversations] of the moment it
    was made. *)
Record System : Type := mkSystem {
  sys_world : World;
  sys_tasks : list Task;
  sys_trace : list (Call * gmap jstring nat)
}.

Definition boot : System := mkSystem empty_world [] [].

(** Runs [p] up to its next await: a finished or failed handler leaves no
    task; a call that is not awaited runs up to its own first await before
    the caller goes on. *)
Fixpoint settle (p : Prog unit) (s : System) : System :=
  match p with
  | Ret _ => s
  | Throw _ => s
  | Await c k =>
      mkSystem (sys_world s) (sys_tasks s ++ [mkTask c k])
        (sys_trace s ++ [(c, conversations (sys_world s))])
  | Get k => settle (k (sys_world s)) s
  | Put w k => settle k (mkSystem w (sys_tasks s) (sys_trace s))
  | Spawn c k => settle k (settle c s)
  end.

(** The reply [r] reaches the [i]-th waiting task. *)
Definition deliver (i : nat) (r : Reply) (s : System) : System :=
  match sys_tasks s !! i with
  | Some t =>
      settle (task_resume t r)
        (mkSystem (sys_world s) (delete i (sys_tasks s)) (sys_trace s))
  | None => s
  end.

End Async.
Export Async.

(** ** The handlers of [index.js] *)

Module App.

(** *** Small pieces of JavaScript *)

(** Truthiness of a string that may be [undefined]. *)
Definition truthy (o : option jstring) : bool :=
  match o with
  | Some (_ :: _) => true
  | _ => false
  end.

(** [o || d] *)
Definition or_else (o : option jstring) (d : jstring) : jstring :=
  match o with
  | Some (c :: t) => c :: t
  | _ => d
  end.

(** [a || b] where both may be [undefined]. *)
Definition or_opt (a b : option jstring) : option jstring :=
  if truthy a then a else b.

(** A string that may be [undefined] inside a template literal. *)
Definition render (o : option jstring) : jstring :=
  match o with
  | Some s => s
  | None => js "undefined"
  end.

(** A counter inside a template literal. *)
Definition decimal (n : nat) : jstring :=
  js (DecimalString.NilZero.string_of_uint (Nat.to_uint n)).

(** *** Message texts, prompts and fallback memos *)

Definition dmLink (team_id dmChannelId : jstring) : jstring :=
  js "slack://channel?team=" ++ team_id ++ js "&id=" ++ dmChannelId.

Definition msg_command_link (link : jstring) : jstring :=
  js "I'll send you a direct message to help create your Decision Memo. <" ++ link ++ js "|Click here to open our conversation>".

Definition msg_command_start : jstring :=
  js ":memo: I'll help you create a Decision Memo. *Please paste* the relevant conversation from Slack, a meeting transcript, or other notes so we can generate the memo. Include as much context as might be helpful.

*Note:* If your transcript is too long to paste into Slack, you can upload a .txt file instead. (Respond with " ++ dq ++ js "stop" ++ dq ++ js " at any time to terminate this process)".

Definition msg_command_error : jstring :=
  js "Sorry, there was an error starting the Decision Memo process. Please try again.".

Definition msg_thread_notice (user link : jstring) : jstring :=
  js "<@" ++ user ++ js "> :memo: I'm creating a Decision Memo based on this thread. <" ++ link ++ js "|Click here to open our conversation> and I'll guide you through the process.".

Definition mention (user : jstring) : jstring :=
  js "<@" ++ user ++ js ">".

Definition msg_invite (channelId : jstring) : jstring :=
  js ":warning: Thanks for using the Decision Memo tool. Before we can proceed, *I need to be added to the <#" ++ channelId ++ js "> channel so I can access thread messages.*

"
  ++ js "*To add me to the channel:*
"
  ++ js "1. Go to <#" ++ channelId ++ js ">
"
  ++ js "2. Type and send: `/invite @Decision Memo`
"
  ++ js "3. Launch the message shortcut again in your thread

".

Definition msg_thread_context (channelId : jstring) : jstring :=
  js ":memo: I'm creating a Decision Memo based on the thread in <#" ++ channelId ++ js ">. (Respond with " ++ dq ++ js "stop" ++ dq ++ js " at any time to terminate this process)".

Definition msg_thread_preview (blockquotedParent : jstring) : jstring :=
  js "I've captured the thread starting with this message:

"
  ++ blockquotedParent ++ js "

"
  ++ js "I'm analyzing the conversation to determine if I need any clarifying information...".

Definition finalQuestion : jstring :=
  js "Is there anything else I should know about this decision before proceeding?".

Definition questions_header : jstring :=
  js "*Clarifying questions‚ùì*
".

Definition questions_footer : jstring :=
  js "*Please answer each question in order.* You can number your responses for clarity. üëÄ".

Definition msg_trouble : jstring :=
  js "I had trouble generating clarifying questions, but I'll create a Decision Memo based on the information I have. This may take a moment... ‚è≥".

Definition msg_memo_error : jstring :=
  js "Sorry, I encountered an error generating the memo. Please try again or contact the administrator.".

Definition msg_single_context (channelId : jstring) : jstring :=
  js ":memo: I'm creating a Decision Memo based on a message from <#" ++ channelId ++ js ">. (Respond with " ++ dq ++ js "stop" ++ dq ++ js " at any time to terminate this process)".

Definition msg_single_preview (blockquotedText : jstring) : jstring :=
  js "I've captured the message:

"
  ++ blockquotedText ++ js "

"
  ++ js "I'm analyzing the conversation to determine if I need any clarifying information...".

Definition msg_analyzing : jstring :=
  js "I'm analyzing the conversation to determine if I need any clarifying information...".

Definition msg_shortcut_error (user : jstring) : jstring :=
  js ":warning: <@" ++ user ++ js "> Sorry, there was an error processing your Decision Memo request. Please try again.".

Definition msg_memo_intro : jstring :=
  js "‚úÖ Here's your Decision Memo that you can copy to Notion:".

Definition msg_memo_closing : jstring :=
  js "üôå Thanks for using the Decision Memo tool. Be sure to add your memo to the Decision Log and make any necessary refinements before publishing.

üîÅ Start again anytime with the `/decisionmemo` command or via the message shortcut. Please share any constructive feedback about this tool directly with @ryan.".

Definition msg_stopped : jstring :=
  js "üõë I've stopped the Decision Memo process. üîÅ Start again anytime with the `/decisionmemo` command or via the message shortcut. Please share any constructive feedback about this tool directly with @ryan.".

Definition msg_thanks_context : jstring :=
  js "Thanks for providing the context. I'm analyzing the conversation to determine if I need any clarifying information...".

Definition msg_thanks_answers : jstring :=
  js "Thanks for the information. I'm now generating your Decision Memo. This may take a moment... ‚è≥".

Definition msg_message_error : jstring :=
  js "Sorry, there was an error processing your message. Please try again.".

Definition msg_file_rejected : jstring :=
  js "I can only process text (.txt) files. Please upload a text file or paste your context directly.".

Definition truncation_note : jstring :=
  js "

[Note: File was truncated as it exceeded maximum length. Only the first portion is being processed.]".

Definition msg_thanks_file : jstring :=
  js "Thanks for uploading the file. I'm analyzing the content to determine if I need any clarifying information...".

Definition msg_missing_scope : jstring :=
  js "Sorry, I don't have permission to read files yet. The app needs to be reinstalled with the 'files:read' permission. Please paste the content directly instead or contact the administrator to update permissions.".

Definition msg_file_error : jstring :=
  js "Sorry, there was an error processing your file. Please try pasting the content directly instead.".

Definition questions_prompt (ctx participants : jstring) : jstring :=
  js "
You are a seasoned executive decision-maker at a company that values first-principles thinking, ownership, mission focus, and the courage to speak truth. You're analyzing a conversation to identify if any critical information is missing to create a comprehensive Decision Memo.

The conversation context is:
" ++ ctx ++ js "

" ++ (if bool_decide (participants = []) then [] else js "The participants are: " ++ participants) ++ js "

The Decision Memo needs to answer these five questions:
1. What is the choice you made?
2. Why make this decision? What were the factors involved?
3. What are the risks of making this decision?
4. What is the compensation / reward for taking those risks?
5. What other choices did you consider?

As an executive with strong strategic vision, apply your judgment to determine if truly essential information is missing. Ask 1-2 high-impact questions that would help you understand:

- The first-principles reasoning behind this decision (getting to the root of the problem)
- How this decision connects to broader mission objectives or long-term strategy
- The ownership perspective (who's taking responsibility, what " ++ dq ++ js "bet" ++ dq ++ js " is being placed)
- Whether alternatives were thoroughly considered from first principles
- Qualitative assessment of risks (not just listing them)
- Both direct and indirect benefits or strategic advantages

If it's not clear from the context who key participants are and what their roles are, you should ask about that, but ONLY if it's truly necessary to understand the decision context.

Do not ask questions merely for curiosity or implementation details - focus on questions that would substantially improve the strategic depth of the Decision Memo.

Format your response as a JSON array of strings, with no more than 2 SPECIFIC questions. Example:
[" ++ dq ++ js "What fundamental problem or opportunity is this decision addressing at its root?" ++ dq ++ js "]

If the conversation already provides sufficient strategic context and first-principles reasoning, return an empty array:
[]

DO NOT include a generic question like " ++ dq ++ js "Is there anything else I should know about this decision before proceeding?" ++ dq ++ js " in your response - this question will be asked separately.
".

Definition memo_prompt (ctx participants : jstring) : jstring :=
  js "
You are writing a Decision Memo as an executive who values first-principles thinking, ownership, mission alignment, and truth-speaking.

The conversation context is:
" ++ ctx ++ js "

" ++ (if bool_decide (participants = []) then [] else js "The participants are: " ++ participants) ++ js "

Create a Decision Memo that answers these five questions:
1. What is the choice you made?
2. Why make this decision? What were the factors involved?
3. What are the risks of making this decision?
4. What is the compensation / reward for taking those risks?
5. What other choices did you consider?

Begin with a concise title for the decision memo in the format:
# [Title of Decision]

For example:
# Renaming Product Indices

Then follow with these exact headings in Slack bold format (using asterisks):
*What is the choice you made?*
[Answer - be clear and concise about the decision made]

*Why make this decision? What were the factors involved?*
[Use bullet points that start with a single asterisk immediately followed by text with no space in between]

*What are the risks of making this decision?*
[Use bullet points that start with a single asterisk immediately followed by text with no space in between]

*What is the compensation / reward for taking those risks?*
[Use bullet points that start with a single asterisk immediately followed by text with no space in between]

*What other choices did you consider?*
[Use bullet points that start with a single asterisk immediately followed by text with no space in between]

IMPORTANT FORMATTING INSTRUCTIONS:
1. Each bullet point should begin with a single asterisk (*) immediately followed by text with no space in between.
2. Do not use nested formatting within bullet points - avoid using bold or other special formatting inside bullet points.
3. If you need to emphasize a point, use ALL CAPS for emphasis instead.
4. Keep all bullet points as single, continuous lines of text.

IMPORTANT STRUCTURE GUIDELINES:
1. Vary your approach to each section based on what's most relevant - some sections may need only 2-3 key points while others might require more depth.
2. Prioritize quality over quantity - it's better to have 3 insightful points than 6 superficial ones.
3. Consider the relative importance of each section for this particular decision - not all sections need equal detail.
4. For the most nuanced or complex points, consider using a brief paragraph instead of a bullet point when it would be clearer.
5. Make the memo feel organic and thoughtful rather than formulaic - avoid having exactly the same number of points in each section.

Be concise but thorough in your content. Don't fabricate information, but do connect the decision to deeper strategic thinking where the connection is clear from the context.
".

Definition fallback_memo : jstring :=
  js "# Decision Memo

*What is the choice you made?*
Based on the conversation, a decision was made but I couldn't generate a specific memo due to a technical issue.

*Why make this decision? What were the factors involved?*
*Several factors were likely considered

*What are the risks of making this decision?*
*There may be various risks associated with this decision

*What is the compensation / reward for taking those risks?*
*There are likely benefits to balance the risks

*What other choices did you consider?*
*Alternative approaches were likely evaluated

Note: There was an error connecting to the AI service. Please try again later.".

Definition clarified_memo_prompt (ctx participants clarification : jstring) : jstring :=
  js "
You are writing a Decision Memo as an executive who values first-principles thinking, ownership, mission alignment, and truth-speaking.

The conversation context is:
" ++ ctx ++ js "

" ++ (if bool_decide (participants = []) then [] else js "The participants are: " ++ participants) ++ js "

Additional clarification:
" ++ clarification ++ js "

Create a Decision Memo that answers these five questions:
1. What is the choice you made?
2. Why make this decision? What were the factors involved?
3. What are the risks of making this decision?
4. What is the compensation / reward for taking those risks?
5. What other choices were considered?

Begin with a concise title for the decision memo in the format:
# [Title of Decision]

For example:
# Renaming Product Indices

Then follow with these exact headings in Slack bold format (using asterisks):
*What is the choice you made?*
[Answer - be clear and concise about the decision made]

*Why make this decision? What were the factors involved?*
[Use bullet points that start with a single asterisk immediately followed by text with no space in between]

*What are the risks of making this decision?*
[Use bullet points that start with a single asterisk immediately followed by text with no space in between]

*What is the compensation / reward for taking those risks?*
[Use bullet points that start with a single asterisk immediately followed by text with no space in between]

*What other choices did you consider?*
[Use bullet points that start with a single asterisk immediately followed by text with no space in between]

IMPORTANT FORMATTING INSTRUCTIONS:
1. Each bullet point should begin with a single asterisk (*) immediately followed by text with no space in between.
2. Do not use nested formatting within bullet points - avoid using bold or other special formatting inside bullet points.
3. If you need to emphasize a point, use ALL CAPS for emphasis instead.
4. Keep all bullet points as single, continuous lines of text.

IMPORTANT STRUCTURE GUIDELINES:
1. Vary your approach to each section based on what's most relevant - some sections may need only 2-3 key points while others might require more depth.
2. Prioritize quality over quantity - it's better to have 3 insightful points than 6 superficial ones.
3. Consider the relative importance of each section for this particular decision - not all sections need equal detail.
4. For the most nuanced or complex points, consider using a brief paragraph instead of a bullet point when it would be clearer.
5. Make the memo feel organic and thoughtful rather than formulaic - avoid having exactly the same number of points in each section.

ADDITIONAL CONTENT INSTRUCTIONS:
1. Carefully incorporate insights from ALL the clarifying questions and answers, especially the final " ++ dq ++ js "anything else" ++ dq ++ js " question.
2. Pay special attention to any new information that was provided in response to the final question.
3. Make sure the decision memo reflects a complete understanding of the situation, including any nuances, concerns, or context added in the clarification phase.
4. Connect these additional insights to the strategic reasoning, risk assessment, and alternatives consideration.

Be concise but thorough in your content. Don't fabricate information, but do connect the decision to deeper strategic thinking where the connection is clear from the context.

DO NOT include the clarifying questions and answers in the memo.
".

Definition clarified_fallback_memo : jstring :=
  js "# Decision Memo

*What is the choice you made?*
Based on the conversation and clarification, a decision was made but I couldn't generate a specific memo due to a technical issue.

*Why make this decision? What were the factors involved?*
*Several factors were likely considered

*What are the risks of making this decision?*
*There may be various risks associated with this decision

*What is the compensation / reward for taking those risks?*
*There are likely benefits to balance the risks

*What other choices did you consider?*
*Alternative approaches were likely evaluated

Note: There was an error connecting to the AI service. Please try again later.".

(** *** Events *)

Record Command : Type := mkCommand {
  cmd_user_id : jstring;
  cmd_team_id : jstring
}.

Record Shortcut : Type := mkShortcut {
  sc_message : Message;
  sc_user : jstring;       (* [shortcut.user.id] *)
  sc_team : jstring;       (* [shortcut.team.id] *)
  sc_channel : jstring     (* [shortcut.channel.id] *)
}.

Record FileRef : Type := mkFile {
  file_id : jstring;
  file_filetype : option jstring
}.

Record DirectMessage : Type := mkDM {
  dm_channel_type : jstring;
  dm_channel : jstring;
  dm_text : option jstring;
  dm_files : option (list FileRef)
}.

(** [client.chat.postMessage({channel, text})] *)
Definition post (channel text : jstring) : Prog unit :=
  await (ChatPostMessage channel None text);; mret tt.

(** *** [generateClarifyingQuestions] *)

(** The capture group of the regular expression that [match] receives: any
    run of characters, line breaks included, as long as possible, between an
    opening and a closing bracket. The match starts at the first opening
    bracket and ends at the last closing bracket after it. *)
Fixpoint upto_last_rbracket (s : jstring) : option jstring :=
  match s with
  | [] => None
  | c :: t =>
      match upto_last_rbracket t with
      | Some r => Some (c :: r)
      | None => if (c =? c_rbracket)%N then Some [] else None
      end
  end.

Fixpoint match_brackets (s : jstring) : option jstring :=
  match s with
  | [] => None
  | c :: t => if (c =? c_lbracket)%N then upto_last_rbracket t else match_brackets t
  end.

Definition strip_start (p s : jstring) : jstring :=
  if startsWith p s then drop (length p) s else s.

Definition strip_end (p s : jstring) : jstring :=
  rev (strip_start (rev p) (rev s)).

(** The two [replace] calls and the [trim] applied to each piece: a quote at
    the start and a quote at the end are removed, then an opening bracket and
    quote at the start and a quote and closing bracket at the end, then the
    white space around. *)
Definition clean_question (q : jstring) : jstring :=
  trim (strip_end (dq ++ [c_rbracket])
          (strip_start (c_lbracket :: dq) (strip_end dq (strip_start dq q)))).

Definition non_empty (q : jstring) : bool :=
  match q with [] => false | _ => true end.

(** The [catch (parseError)] branch, for a response that is a string. *)
Definition extract_questions (messageContent : jstring) : list jstring :=
  match match_brackets messageContent with
  | Some (c :: t) =>
      take 2 (filter (λ q, non_empty q = true)
                (map clean_question (split (dq ++ [c_comma] ++ dq) (c :: t))))
  | _ => []
  end.

(** [data.content[0].text]: [None] is a [TypeError] on the way. *)
Definition text_of_body (data : jsval) : option jsval :=
  content ← get_named (js "content") data;
  first ← get_index0 content;
  get_named (js "text") first.

(** [response.data.content[0].text] *)
Definition response_text (r : Reply) : Prog jsval :=
  match r with
  | Body data =>
      match text_of_body data with
      | Some v => mret v
      | None => Throw TypeError
      end
  | _ => Throw TypeError
  end.

(** The inner [try]: [JSON.parse] converts its argument to a string first,
    and a failure of that conversion is caught like a syntax error;
    [messageContent.match] is a [TypeError] on anything but a string. *)
Definition parse_questions (messageContent : jsval) : Prog (list jsval) :=
  match toString messageContent ≫= JSON_parse with
  | Some (JArr questions) => mret (take 2 questions)
  | Some _ => mret []
  | None =>
      match messageContent with
      | JStr s => mret (JStr <$> extract_questions s)
      | _ => Throw TypeError
      end
  end.

Definition generateClarifyingQuestions (context : option jstring)
    (participants : jstring) : Prog (list jsval) :=
  try_catch
    (response ← await (AnthropicMessages 1000
                         (questions_prompt (render context) participants));
     messageContent ← response_text response;
     parse_questions messageContent)
    (λ _, mret []).

(** *** [generateDecisionMemo] and [generateDecisionMemoWithClarification] *)

Definition generateDecisionMemo (context : option jstring)
    (participants : jstring) : Prog jsval :=
  try_catch
    (response ← await (AnthropicMessages 4000
                         (memo_prompt (render context) participants));
     response_text response)
    (λ _, mret (JStr fallback_memo)).

(** A template literal whose conversions gave [o]: the [TypeError] of a
    value that cannot be converted is thrown where the literal stands. *)
Definition converted {A : Type} (o : option A) : Prog A :=
  match o with
  | Some a => mret a
  | None => Throw TypeError
  end.

(** The loop over [questions]: [answers[i]] is [undefined] past the end of
    [answers]. [None] when a question or an answer cannot be converted to a
    string. *)
Fixpoint clarification_from (i : nat) (questions answers : list jsval)
  : option jstring :=
  match questions with
  | [] => Some []
  | q :: rest =>
      question ← toString q;
      answer ← toString (default JUndefined (answers !! i));
      others ← clarification_from (S i) rest answers;
      Some (js "Question: " ++ question ++ nl ++ js "Answer: " ++ answer ++ nl ++ nl
            ++ others)
  end.

Definition clarification (questions answers : list jsval) : option jstring :=
  clarification_from 0 questions answers.

(** [questions] is [None] when the caller passes [undefined]: reading its
    [length] throws inside the [try], as does a question that cannot be
    converted. *)
Definition generateDecisionMemoWithClarification (context : option jstring)
    (participants : jstring) (questions : option (list jsval))
    (answers : list jsval) : Prog jsval :=
  try_catch
    (match questions with
     | None => Throw TypeError
     | Some qs =>
         pairs ← converted (clarification qs answers);
         response ← await (AnthropicMessages 4000
                             (clarified_memo_prompt (render context) participants
                                pairs));
         response_text response
     end)
    (λ _, mret (JStr clarified_fallback_memo)).

(** *** [processMemoAndRespond] *)

(** The first [replace] of the title: the leading [#] and the white space
    after it are removed. *)
Definition strip_heading (line : jstring) : jstring :=
  match line with
  | c :: t => if (c =? c_hash)%N then trimStart t else line
  | [] => []
  end.

(** The second [replace] of the title: a colon followed only by white space
    up to the end is removed with that white space. *)
Definition strip_colon (title : jstring) : jstring :=
  match trimStart (rev title) with
  | c :: t => if (c =? c_colon)%N then rev t else title
  | [] => title
  end.

(** The title and the content of a memo. *)
Definition split_memo (decisionMemo : jstring) : jstring * jstring :=
  match split nl decisionMemo with
  | first :: rest =>
      if startsWith (js "# ") first || startsWith (js "#") first
      then (strip_colon (strip_heading first), trim (join nl rest))
      else ([], decisionMemo)
  | [] => ([], decisionMemo)
  end.

Definition memo_text (decisionMemo : jstring) : jstring :=
  let '(memoTitle, memoContent) := split_memo decisionMemo in
  match memoTitle with
  | [] => memoContent
  | _ => js "*" ++ memoTitle ++ js "*" ++ nl ++ nl ++ memoContent
  end.

Definition processMemoAndRespond (channelId : jstring) (decisionMemo : jsval)
  : Prog unit :=
  match decisionMemo with
  | JStr memo =>
      post channelId msg_memo_intro;;
      post channelId (memo_text memo);;
      post channelId msg_memo_closing
  | _ => Throw TypeError
  end.

(** *** Asking the questions *)

(** The numbered list: one [`${i+1}) ${question}\n\n`] per question;
    [None] when a question cannot be converted to a string. *)
Fixpoint numbered (i : nat) (questions : list jsval) : option jstring :=
  match questions with
  | [] => Some []
  | q :: rest =>
      question ← toString q;
      others ← numbered (S i) rest;
      Some (decimal (S i) ++ js ") " ++ question ++ nl ++ nl ++ others)
  end.

Definition questionsMessage (questions : list jsval) : option jstring :=
  list ← numbered 0 questions;
  Some (questions_header ++ list ++ questions_footer).

(** The list stored in the session: the planner's questions and
    [finalQuestion], pushed last. *)
Definition with_final (clarifyingQuestions : list jsval) : list jsval :=
  clarifyingQuestions ++ [JStr finalQuestion].

(** The [catch] branch after a failure while asking the questions, up to the
    [delete]. [awaited] tells whether [processMemoAndRespond] is awaited: the
    message and file handlers do, the shortcut handler does not. *)
Definition memo_without_questions (awaited : bool) (channel : jstring)
    (context : Prog (option jstring)) : Prog unit :=
  post channel msg_trouble;;
  try_catch
    (ctx ← context;
     decisionMemo ← generateDecisionMemo ctx [];
     if awaited then processMemoAndRespond channel decisionMemo
     else Spawn (processMemoAndRespond channel decisionMemo) (Ret tt))
    (λ _, post channel msg_memo_error);;
  conv_delete channel.

(** *** The [/decisionmemo] command *)

Definition channel_id (r : Reply) : Prog jstring :=
  match r with
  | Channel id => mret id
  | _ => Throw TypeError
  end.

Definition command_handler (command : Command) : Prog unit :=
  await Ack;;
  try_catch
    (dmResult ← await (ConversationsOpen (cmd_user_id command));
     dmChannelId ← channel_id dmResult;
     let link := dmLink (cmd_team_id command) dmChannelId in
     await (Respond (msg_command_link link));;
     conv_new dmChannelId
       (mkSession (cmd_user_id command) Started (Some []) [] None None None None None);;
     post dmChannelId msg_command_start)
    (λ _, await (Respond msg_command_error);; mret tt).

(** *** The message shortcut *)

(** [humanMessages]: no [bot_id] and no [subtype]. *)
Definition is_human (msg : Message) : bool :=
  negb (truthy (msg_bot_id msg)) && negb (truthy (msg_subtype msg)).

Definition sender_of (msg : Message) : jstring :=
  match msg_user msg with
  | Some (c :: t) => mention (c :: t)
  | _ => js "Unknown"
  end.

(** One [`${sender}: ${msg.text}`] per message, joined by blank lines. *)
Definition transcript (messages : list Message) : jstring :=
  join (nl ++ nl)
    (map (λ msg, sender_of msg ++ js ": " ++ render (msg_text msg)) messages).

(** [text.split('\n').map(line => `>${line}`).join('\n')] *)
Definition blockquote (text : jstring) : jstring :=
  join nl (map (λ line, js ">" ++ line) (split nl text)).

(** A parent message has no [thread_ts], or one equal to its own [ts]. *)
Definition is_parent (msg : Message) : bool :=
  negb (truthy (msg_thread_ts msg))
  || match msg_thread_ts msg, msg_ts msg with
     | Some a, Some b => jstring_eqb a b
     | _, _ => false
     end.

(** [parentMessage]: the first parent of the list, else its first message;
    [None] is [undefined], for an empty list. *)
Definition parent_of (threadMessages : list Message) : option Message :=
  match List.find is_parent threadMessages with
  | Some msg => Some msg
  | None => head threadMessages
  end.

(** What the thread fetch leaves in [threadMessages], [threadContent] and
    [threadFetchFailed]. *)
Definition fetch_thread (shortcut : Shortcut)
  : Prog (list Message * jstring * bool) :=
  let message := sc_message shortcut in
  let messageText := or_else (msg_text message) [] in
  let messageUser := or_else (msg_user message) (js "Unknown") in
  let single := ([message], mention messageUser ++ js ": " ++ messageText) in
  match msg_thread_ts message with
  | Some (c :: t) =>
      try_catch
        (threadResult ← await (ConversationsReplies (sc_channel shortcut) (c :: t));
         match threadResult with
         | Replies (Some (m :: ms)) =>
             let humanMessages := List.filter is_human (m :: ms) in
             mret (humanMessages, transcript humanMessages, false)
         | _ => mret (single, false)
         end)
        (λ _, mret (single, true))
  | _ => mret (single, false)
  end.

(** The [try] that both branches of the shortcut handler run once the
    captured text was shown, with its [catch]. *)
Definition shortcut_questions (dmChannelId : jstring) (content : jstring)
  : Prog unit :=
  try_catch
    (clarifyingQuestions ← generateClarifyingQuestions (Some content) [];
     conv_update dmChannelId (set_questions (with_final clarifyingQuestions));;
     text ← converted (questionsMessage (with_final clarifyingQuestions));
     post dmChannelId text)
    (λ _, memo_without_questions false dmChannelId (mret (Some content))).

Definition shortcut_handler (shortcut : Shortcut) : Prog unit :=
  let message := sc_message shortcut in
  await Ack;;
  try_catch
    (let messageText := or_else (msg_text message) [] in
     dmResult ← await (ConversationsOpen (sc_user shortcut));
     dmChannelId ← channel_id dmResult;
     let link := dmLink (sc_team shortcut) dmChannelId in
     let threadTs := or_opt (msg_thread_ts message) (msg_ts message) in
     try_catch
       (await (ChatPostMessage (sc_channel shortcut) threadTs
                 (msg_thread_notice (sc_user shortcut) link));; mret tt)
       (λ _, mret tt);;
     fetched ← fetch_thread shortcut;
     let '(threadMessages, threadContent, threadFetchFailed) := fetched in
     conv_new dmChannelId
       (mkSession (sc_user shortcut) AskingQuestions (Some threadContent) []
          None None (Some threadMessages) (Some (sc_channel shortcut)) threadTs);;
     if truthy (msg_thread_ts message) && threadFetchFailed then
       post dmChannelId (msg_invite (sc_channel shortcut));;
       conv_delete dmChannelId
     else if truthy (msg_thread_ts message) && negb threadFetchFailed then
       post dmChannelId (msg_thread_context (sc_channel shortcut));;
       match parent_of threadMessages with
       | None => Throw TypeError
       | Some parentMessage =>
           let parentText := or_else (msg_text parentMessage) [] in
           post dmChannelId (msg_thread_preview (blockquote parentText));;
           shortcut_questions dmChannelId threadContent
       end
     else
       post dmChannelId (msg_single_context (sc_channel shortcut));;
       post dmChannelId (msg_single_preview (blockquote messageText));;
       post dmChannelId msg_analyzing;;
       shortcut_questions dmChannelId messageText)
    (λ _,
       let errorThreadTs := or_opt (msg_thread_ts message) (msg_ts message) in
       if truthy errorThreadTs then
         try_catch
           (await (ChatPostMessage (sc_channel shortcut) errorThreadTs
                     (msg_shortcut_error (sc_user shortcut)));; mret tt)
           (λ _, mret tt)
       else mret tt).

(** *** Direct messages *)

(** The content of a downloaded file: [JSON.stringify] of a body that is not
    a string, cut at [maxLength]. Reading [length] of [undefined] or [null]
    throws. *)
Definition maxLength : N := 25000.

Definition cap (fileContent : jstring) : jstring :=
  if (maxLength <? N.of_nat (length fileContent))%N
  then substring0 (N.to_nat maxLength) fileContent ++ truncation_note
  else fileContent.

Definition file_content (data : jsval) : option jstring :=
  if is_nullish data then None
  else match data with
       | JStr s => Some (cap s)
       | _ => cap <$> JSON_stringify data
       end.

Definition acceptableTypes : list jstring := [js "text"; js "txt"; js "plain"].

(** The statements that ask the questions, inside the [try] of the message
    handler and of the file handler, and the [catch] both have. *)
Definition ask_questions (conversation : nat) (channel : jstring) : Prog unit :=
  session ← obj_read conversation;
  clarifyingQuestions ← generateClarifyingQuestions (context session) [];
  obj_update conversation (set_questions (with_final clarifyingQuestions));;
  text ← converted (questionsMessage (with_final clarifyingQuestions));
  post channel text.

Definition ask_failed (conversation : nat) (channel : jstring) : Prog unit :=
  memo_without_questions true channel (context <$> obj_read conversation).

Definition url_private (r : Reply) : Prog jstring :=
  match r with
  | FileInfo url => mret url
  | _ => Throw TypeError
  end.

Definition body_of (r : Reply) : jsval :=
  match r with
  | Body data => data
  | _ => JUndefined
  end.

Definition handleFileUpload (conversation : nat) (message : DirectMessage)
    (file : FileRef) : Prog unit :=
  try_catch
    (match file_filetype file with
     | None => Throw TypeError
     | Some filetype =>
         if negb (bool_decide (toLowerCase filetype ∈ acceptableTypes)) then
           post (dm_channel message) msg_file_rejected
         else
           fileInfo ← await (FilesInfo (file_id file));
           try_catch
             (url ← url_private fileInfo;
              fileContentResponse ← await (AxiosGet url);
              match file_content (body_of fileContentResponse) with
              | None => Throw TypeError
              | Some fileContent =>
                  obj_update conversation (set_context (Some fileContent));;
                  post (dm_channel message) msg_thanks_file;;
                  try_catch
                    (obj_update conversation (set_stage AskingQuestions);;
                     ask_questions conversation (dm_channel message))
                    (λ _, ask_failed conversation (dm_channel message))
              end)
             (λ downloadError,
                Throw (mkError (js "Could not download file content: "
                                  ++ err_message downloadError) None))
     end)
    (λ error,
       if bool_decide (err_data_error error = Some (js "missing_scope"))
       then post (dm_channel message) msg_missing_scope
       else post (dm_channel message) msg_file_error).

Definition is_stop (text : option jstring) : bool :=
  match text with
  | Some (c :: t) => jstring_eqb (trim (toLowerCase (c :: t))) (js "stop")
  | _ => false
  end.

Definition message_handler (message : DirectMessage) : Prog unit :=
  if negb (jstring_eqb (dm_channel_type message) (js "im")) then mret tt
  else
    found ← conv_get (dm_channel message);
    match found with
    | None => mret tt
    | Some conversation =>
        try_catch
          (if is_stop (dm_text message) then
             post (dm_channel message) msg_stopped;;
             conv_delete (dm_channel message)
           else
             session ← obj_read conversation;
             match stage session with
             | Started =>
                 match dm_files message with
                 | Some (file :: _) => handleFileUpload conversation message file
                 | _ =>
                     obj_update conversation (set_context (dm_text message));;
                     obj_update conversation (set_stage AskingQuestions);;
                     post (dm_channel message) msg_thanks_context;;
                     try_catch
                       (ask_questions conversation (dm_channel message))
                       (λ _, ask_failed conversation (dm_channel message))
                 end
             | AskingQuestions =>
                 obj_update conversation (set_answers (dm_text message));;
                 obj_update conversation (set_stage Generating);;
                 post (dm_channel message) msg_thanks_answers;;
                 finished ←
                   try_catch
                     (session ← obj_read conversation;
                      decisionMemo ←
                        generateDecisionMemoWithClarification (context session) []
                          (clarifyingQuestions session)
                          [from_option JStr JUndefined (clarifyingAnswers session)];
                      still ← conv_get (dm_channel message);
                      match still with
                      | None => mret false
                      | Some _ =>
                          processMemoAndRespond (dm_channel message) decisionMemo;;
                          mret true
                      end)
                     (λ _, post (dm_channel message) msg_memo_error;; mret true);
                 if finished : bool then conv_delete (dm_channel message) else mret tt
             | Generating => mret tt
             end)
          (λ _, post (dm_channel message) msg_message_error)
    end.

End App.
Export App.

(** ** Events in sequence *)

Module Flow.

Inductive Event : Type :=
| CommandInvoked (command : Command)
| ShortcutInvoked (shortcut : Shortcut)
| DirectMessageReceived (message : DirectMessage).

Definition handler (e : Event) : Prog unit :=
  match e with
  | CommandInvoked command => command_handler command
  | ShortcutInvoked shortcut => shortcut_handler shortcut
  | DirectMessageReceived message => message_handler message
  end.

(** One event handled to its end, in the environment [env], from the
    world [w]. *)
Definition handle (env : nat → Reply) (e : Event) (w : World) : RunState :=
  snd (run env (handler e) (start w)).

Definition world_after (env : nat → Reply) (e : Event) (w : World) : World :=
  rs_world (handle env e w).

Definition calls_of (env : nat → Reply) (e : Event) (w : World) : list Call :=
  rs_calls (handle env e w).

(** Events handled one after the other, each in its own environment. *)
Fixpoint process (events : list (Event * (nat → Reply))) (w : World) : World :=
  match events with
  | [] => w
  | (e, env) :: rest => process rest (world_after env e w)
  end.

(** An environment given by the list of its first replies; every later call
    resolves with nothing to read. *)
Definition replies (l : list Reply) : nat → Reply :=
  λ n, default Done (l !! n).

(** A new event starts its handler among the tasks in flight. *)
Definition arrive (e : Event) (s : System) : System := settle (handler e) s.

(** A schedule: events arriving and replies coming back, in some order. *)
Inductive Step : Type :=
| Arrive (e : Event)
| Deliver (task : nat) (r : Reply).

Definition step (s : System) (x : Step) : System :=
  match x with
  | Arrive e => arrive e s
  | Deliver i r => deliver i r s
  end.

Definition play (schedule : list Step) (s : System) : System :=
  fold_left step schedule s.

(** The calls made so far, each with whether the channel [ch] had a session
    at the moment of the call. *)
Definition observed (s : System) (ch : jstring) : list (Call * bool) :=
  map (λ entry, (fst entry, bool_decide (is_Some (snd entry !! ch)))) (sys_trace s).

End Flow.
Export Flow.

(** ** Vocabulary of the properties *)

Module Props.

(** A call to the Draft Generator (the Anthropic messages endpoint). *)
Definition is_dg_call (c : Call) : bool :=
  match c with
  | AnthropicMessages _ _ => true
  | _ => false
  end.

Definition is_rejected (r : Reply) : bool :=
  match r with
  | Rejected _ => true
  | _ => false
  end.




(** The order [Started], [AskingQuestions], [Generating], deleted. *)
Definition stage_rank (o : option Stage) : nat :=
  match o with
  | Some Started => 0
  | Some AskingQuestions => 1
  | Some Generating => 2
  | None => 3
  end.

(** The text made of pairs written one after the other; none when a pair
    could not be written. *)
Definition pairs_text (pairs : list (option jstring)) : option jstring :=
  (λ texts : list jstring, concat texts) <$> mapM id pairs.


(** A value that is a string. *)
Definition is_text (v : jsval) : bool :=
  match v with
  | JStr _ => true
  | _ => false
  end.

(** The planner fails on the reply [r]: the call is rejected, the response
    has no [content[0].text], or that text is not read by [JSON.parse]. *)
Definition planner_failed (r : Reply) : Prop :=
  match r with
  | Body data =>
      match text_of_body data with
      | Some messageContent => toString messageContent ≫= JSON_parse = None
      | None => True
      end
  | _ => True
  end.

(** One question with its answer, as [clarification] writes the pair;
    [None] when one of the two cannot be converted to a string. *)
Definition qa_pair (q a : jsval) : option jstring :=
  question ← toString q;
  answer ← toString a;
  Some (js "Question: " ++ question ++ nl ++ js "Answer: " ++ answer ++ nl ++ nl).

(** The HTTP body of a Draft Generator response whose first content block
    carries [text]. *)
Definition dg_body (text : jstring) : jsval :=
  JObj [(js "content", JArr [JObj [(js "text", JStr text)]])].

(** The state of a run after one more call. *)
Definition after_call (st : RunState) (c : Call) : RunState :=
  mkRun (rs_world st) (rs_calls st ++ [c]) (S (rs_next st)).

Definition is_direct_message (e : Event) : bool :=
  match e with
  | DirectMessageReceived _ => true
  | _ => false
  end.

Definition has_file (message : DirectMessage) : bool :=
  match dm_files message with
  | Some (_ :: _) => true
  | _ => false
  end.

(** The list that [generateClarifyingQuestions] returns when the Draft
    Generator call receives the reply [r]. *)
Definition planned (r : Reply) : list jsval :=
  match fst (run (λ _, r) (generateClarifyingQuestions None []) (start empty_world)) with
  | Returned qs => qs
  | Thrown _ => []
  end.

(** A direct message that finds, on its channel, the session [s] at address
    [l] in stage [Started], and is not the word stop. *)
Definition reaches_started (w : World) (l : nat) (s : Session)
    (message : DirectMessage) : Prop :=
  dm_channel_type message = js "im"
  ∧ conversations w !! dm_channel message = Some l
  ∧ heap w !! l = Some s
  ∧ stage s = Started
  ∧ is_stop (dm_text message) = false.

(** A code unit that a JSON string holds as it is: no quote, no backslash, no
    control character. *)
Definition plain_unit (c : N) : bool :=
  (negb (c =? c_quote) && negb (c =? c_backslash) && (32 <=? c))%N.

(** A question that reads the same in JSON and after the clean-up of the
    fallback: not empty, no escape needed, no white space around. *)
Definition plain_question (q : jstring) : Prop :=
  q ≠ [] ∧ Forall (λ c, plain_unit c = true) q ∧ trim q = q.

(** The text of a two-element array: bracket, quoted [q1], comma, quoted
    [q2], bracket, with no white space. *)
Definition bare_array (q1 q2 : jstring) : jstring :=
  [c_lbracket] ++ dq ++ q1 ++ dq ++ [c_comma] ++ dq ++ q2 ++ dq ++ [c_rbracket].

(** The separator that the fallback splits on: quote, comma, quote. *)
Definition separator : jstring := dq ++ [c_comma] ++ dq.

(** [wp I p Q]: whatever the replies, and whatever else changes the world
    between two of its steps as long as [I] holds, the program [p] writes only
    worlds that satisfy [I], and a value it returns satisfies [Q]. *)
Fixpoint wp (I : World → Prop) {A : Type} (p : Prog A) (Q : A → Prop) : Prop :=
  match p with
  | Ret a => Q a
  | Throw _ => True
  | Await _ k => ∀ r, wp I (k r) Q
  | Get k => ∀ w, I w → wp I (k w) Q
  | Put w k => I w ∧ wp I k Q
  | Spawn c k => wp I c (λ _, True) ∧ wp I k Q
  end.

(** [stage_kept w0 w]: from [w0] to [w] no session object went back to an
    earlier stage, and every channel still has its session object or none. *)
Definition stage_kept (w0 w : World) : Prop :=
  length (heap w) = length (heap w0)
  ∧ (∀ l s0, heap w0 !! l = Some s0 →
       ∃ s, heap w !! l = Some s ∧ stage_rank (Some (stage s0)) ≤ stage_rank (Some (stage s)))
  ∧ (∀ ch, conversations w !! ch = None ∨ conversations w !! ch = conversations w0 !! ch).

End Props.
Export Props.

(** ** Vocabulary of the further properties *)

Module Behaviour.

(** A line: a string that holds no line feed. *)
Definition no_newline (line : jstring) : Prop := c_newline ∉ line.

(** The direct messages that the message handler passes over: not from a
    DM channel, or on a channel without a session, or on a channel whose
    session is in [Generating] when the text is not the word stop. *)
Definition ignored (w : World) (message : DirectMessage) : Prop :=
  dm_channel_type message ≠ js "im"
  ∨ conversations w !! dm_channel message = None
  ∨ ∃ l s, conversations w !! dm_channel message = Some l
           ∧ heap w !! l = Some s
           ∧ stage s = Generating
           ∧ is_stop (dm_text message) = false.

(** The question list of a session, once there is one: at most three
    questions, the catch-all last. *)
Definition questions_ok (s : Session) : Prop :=
  match clarifyingQuestions s with
  | None => True
  | Some questions => length questions ≤ 3 ∧ last questions = Some (JStr finalQuestion)
  end.

Definition sessions_ok (w : World) : Prop := Forall questions_ok (heap w).

(** A waiting task keeps [I] whatever reply it is resumed with; a system is
    in order when its world satisfies [I] and every waiting task keeps it. *)
Definition task_ok (I : World → Prop) (t : Task) : Prop :=
  ∀ r, wp I (task_resume t r) (λ _, True).

Definition system_ok (I : World → Prop) (s : System) : Prop :=
  I (sys_world s) ∧ Forall (task_ok I) (sys_tasks s).

(** [apart w0 ch other w]: from [w0] to [w] the channel [other] kept its
    session object, unchanged, and [ch] is not mapped to that object. *)
Definition apart (w0 : World) (ch other : jstring) (w : World) : Prop :=
  conversations w !! other = conversations w0 !! other
  ∧ (∀ l, conversations w0 !! other = Some l → heap w !! l = heap w0 !! l)
  ∧ (∀ l, conversations w !! ch = Some l → conversations w0 !! other ≠ Some l).

(** No two channels share a session object, and every channel is mapped to
    an object that exists. *)
Definition unshared (w : World) : Prop :=
  ∀ ch l, conversations w !! ch = Some l →
    l < length (heap w) ∧ ∀ ch', conversations w !! ch' = Some l → ch' = ch.

(** [within weight n p]: on every path of [p], whatever the replies and
    whatever the world it reads, the calls that [p] makes weigh at most [n]
    together. *)
Fixpoint within (weight : Call → nat) (n : nat) {A : Type} (p : Prog A) : Prop :=
  match p with
  | Ret _ => True
  | Throw _ => True
  | Await c k => weight c ≤ n ∧ ∀ r, within weight (n - weight c) (k r)
  | Get k => ∀ w, within weight n (k w)
  | Put _ k => within weight n k
  | Spawn c k => ∃ n1 n2, n1 + n2 ≤ n ∧ within weight n1 c ∧ within weight n2 k
  end.

Definition spent (weight : Call → nat) (calls : list Call) : nat :=
  sum_list_with weight calls.

(** The calls of the question planner ([max_tokens: 1000]), those of the two
    memo composers ([max_tokens: 4000]), and both. *)
Definition planner_weight (c : Call) : nat :=
  match c with
  | AnthropicMessages 1000 _ => 1
  | _ => 0
  end.

Definition composer_weight (c : Call) : nat :=
  match c with
  | AnthropicMessages 4000 _ => 1
  | _ => 0
  end.

Definition dg_weight (c : Call) : nat := if is_dg_call c then 1 else 0.

Definition is_command (e : Event) : bool :=
  match e with
  | CommandInvoked _ => true
  | _ => false
  end.

End Behaviour.
Export Behaviour.

(** ** Running programs: general facts *)

Section RunFacts.

Context (env : nat → Reply).

Lemma run_bind {A B} (p : Prog A) (f : A → Prog B) st :
  run env (p ≫= f) st =
  match run env p st with
  | (Returned a, st') => run env (f a) st'
  | (Thrown e, st') => (Thrown e, st')
  end.
Proof.
  revert B f st. induction p as [| | ? c k IH | ? k IH | ? w k IH | ? c IHc k IH];
    intros B f st; cbn; auto.
  - apply IH.
  - apply IH.
  - apply IH.
  - apply IH.
Qed.

Lemma run_try_catch {A} (p : Prog A) (h : JsError → Prog A) st :
  run env (try_catch p h) st =
  match run env p st with
  | (Returned a, st') => (Returned a, st')
  | (Thrown e, st') => run env (h e) st'
  end.
Proof.
  revert h st. induction p as [| | ? c k IH | ? k IH | ? w k IH | ? c IHc k IH];
    intros h st; cbn; auto.
Qed.

(** A [try] whose [catch] returns a value returns a value. *)
Lemma run_try_catch_returns {A} (p : Prog A) (a0 : A) st :
  ∃ a st', run env (try_catch p (λ _, mret a0)) st = (Returned a, st').
Proof.
  rewrite run_try_catch. destruct (run env p st) as [[a | e] st']; cbn; eauto.
Qed.

End RunFacts.

(** ** [JSON.parse] has fuel enough *)

Lemma skip_ws_length s : length (skip_ws s) ≤ length s.
Proof.
  induction s as [| c s IH]; cbn [skip_ws length]; [lia |].
  destruct (is_json_ws c); cbn [length]; lia.
Qed.

Lemma string_body_shorter s : ∀ r rest, string_body s = Some (r, rest) → length rest < length s.
Proof.
  induction s as [s IH] using (induction_ltof1 _ (@length N)). unfold ltof in IH.
  intros r rest. destruct s as [| c t]; cbn [string_body]; [discriminate |].
  destruct (c =? c_quote)%N.
  { intros [= <- <-]. cbn. lia. }
  destruct (c =? c_backslash)%N.
  - destruct t as [| e t1]; [discriminate |].
    destruct (e =? 117)%N.
    + destruct t1 as [| h1 [| h2 [| h3 [| h4 t2]]]]; try discriminate.
      destruct (hex_value h1), (hex_value h2), (hex_value h3), (hex_value h4); try discriminate.
      destruct (string_body t2) as [[r' rest'] |] eqn:E; [| discriminate].
      intros [= <- <-]. apply IH in E; cbn [length] in *; lia.
    + destruct (simple_escape e); [| discriminate].
      destruct (string_body t1) as [[r' rest'] |] eqn:E; [| discriminate].
      intros [= <- <-]. apply IH in E; cbn [length] in *; lia.
  - destruct (c <? 32)%N; [discriminate |].
    destruct (string_body t) as [[r' rest'] |] eqn:E; [| discriminate].
    intros [= <- <-]. apply IH in E; cbn [length] in *; lia.
Qed.

Lemma span_digits_length s : length (snd (span_digits s)) ≤ length s.
Proof.
  induction s as [| c s IH]; cbn [span_digits]; [cbn; lia |].
  destruct (is_digit c); [| cbn; lia].
  destruct (span_digits s) as [d r]. cbn [snd length] in *. lia.
Qed.

Lemma digits1_length s d r : digits1 s = Some (d, r) → length r ≤ length s.
Proof.
  unfold digits1. pose proof (span_digits_length s) as H.
  destruct (span_digits s) as [[| x d'] r']; [discriminate |].
  intros [= <- <-]. exact H.
Qed.

Lemma number_lit_shorter s n rest : number_lit s = Some (n, rest) → length rest < length s.
Proof.
  unfold number_lit.
  set (signed := match s with
                 | c :: t => if (c =? 45)%N then ([c], t) else ([], s)
                 | [] => ([], s)
                 end).
  assert (Hsigned : length (snd signed) ≤ length s).
  { subst signed. destruct s as [| c t]; [cbn; lia |].
    destruct (c =? 45)%N; cbn; lia. }
  destruct signed as [sign s1]. cbn [snd] in Hsigned.
  set (int_part := match s1 with
                   | c :: t => if (c =? 48)%N then Some ([c], t)
                               else if is_digit c then Some (span_digits s1) else None
                   | [] => None
                   end).
  assert (Hint : ∀ i s2, int_part = Some (i, s2) → length s2 < length s1).
  { subst int_part. intros i s2. destruct s1 as [| c t]; [discriminate |].
    destruct (c =? 48)%N; [intros [= <- <-]; cbn; lia |].
    destruct (is_digit c) eqn:Ed; [| discriminate].
    cbn [span_digits]. rewrite Ed. pose proof (span_digits_length t) as Ht.
    destruct (span_digits t) as [d r]. intros [= <- <-]. cbn [snd length] in *. lia. }
  destruct int_part as [[i s2] |]; [| discriminate].
  specialize (Hint i s2 eq_refl).
  set (frac := match s2 with
               | c :: t => if (c =? 46)%N
                           then match digits1 t with
                                | Some (d, r) => Some (c :: d, r)
                                | None => None
                                end
                           else Some ([], s2)
               | [] => Some ([], s2)
               end).
  assert (Hfrac : ∀ f s3, frac = Some (f, s3) → length s3 ≤ length s2).
  { subst frac. intros f s3. destruct s2 as [| c t]; [intros [= <- <-]; lia |].
    destruct (c =? 46)%N; [| intros [= <- <-]; lia].
    destruct (digits1 t) as [[d r] |] eqn:E; [| discriminate].
    intros [= <- <-]. apply digits1_length in E. cbn [length]. lia. }
  destruct frac as [[f s3] |]; [| discriminate].
  specialize (Hfrac f s3 eq_refl).
  match goal with
  | |- match ?e with _ => _ end = _ → _ => set (expo := e)
  end.
  assert (Hexp : ∀ e s4, expo = Some (e, s4) → length s4 ≤ length s3).
  { subst expo. intros e s4. destruct s3 as [| c t]; [intros [= <- <-]; lia |].
    destruct ((c =? 101) || (c =? 69))%N; [| intros [= <- <-]; lia].
    set (sg := match t with
               | g :: u => if ((g =? 43) || (g =? 45))%N then ([g], u) else ([], t)
               | [] => ([], t)
               end).
    assert (Hsg : length (snd sg) ≤ length t).
    { subst sg. destruct t as [| g u]; [cbn; lia |].
      destruct ((g =? 43) || (g =? 45))%N; cbn; lia. }
    destruct sg as [sg' t']. cbn [snd] in Hsg.
    destruct (digits1 t') as [[d r] |] eqn:E; [| discriminate].
    intros [= <- <-]. apply digits1_length in E. cbn [length]. lia. }
  destruct expo as [[e s4] |]; [| discriminate].
  specialize (Hexp e s4 eq_refl).
  intros [= <- <-]. lia.
Qed.

Lemma strip_prefix_shorter p s rest :
  p ≠ [] → strip_prefix p s = Some rest → length rest < length s.
Proof.
  unfold strip_prefix. intros Hp. destruct (startsWith p s) eqn:E; [| discriminate].
  intros [= <-]. rewrite length_drop.
  assert (length p ≤ length s).
  { clear Hp. revert s E. induction p as [| a p IH]; intros [| b s] E; cbn in *; try lia;
      try discriminate. apply andb_true_iff in E as [_ E]. apply IH in E. lia. }
  destruct p; [done |]. cbn [length] in *. lia.
Qed.

Ltac length_facts :=
  repeat match goal with
  | H : skip_ws ?s = _ :: _ |- _ =>
      let L := fresh "L" in
      pose proof (skip_ws_length s) as L; rewrite H in L; cbn [length] in L; clear H
  | H : string_body _ = Some _ |- _ => apply string_body_shorter in H
  | H : number_lit _ = Some _ |- _ => apply number_lit_shorter in H
  | H : strip_prefix _ _ = Some _ |- _ => apply strip_prefix_shorter in H; [| discriminate]
  end.

Ltac break_match :=
  match goal with
  | |- context [match ?x with _ => _ end] => destruct x eqn:?
  end.

Lemma parse_shorter f :
  (∀ s v rest, parse_value f s = POk v rest → length rest < length s)
  ∧ (∀ s l rest, parse_elems f s = POk l rest → length rest < length s)
  ∧ (∀ s l rest, parse_members f s = POk l rest → length rest < length s).
Proof.
  induction f as [| f (IHv & IHe & IHm)]; [repeat split; discriminate |].
  split; [| split]; intros s x rest; cbn [parse_value parse_elems parse_members].
  - repeat break_match; try discriminate; intros [= <- <-];
      repeat match goal with
      | H : parse_elems f _ = POk _ _ |- _ => apply IHe in H
      | H : parse_members f _ = POk _ _ |- _ => apply IHm in H
      end; length_facts; cbn [length] in *; lia.
  - repeat break_match; try discriminate; intros [= <- <-];
      repeat match goal with
      | H : parse_value f _ = POk _ _ |- _ => apply IHv in H
      | H : parse_elems f _ = POk _ _ |- _ => apply IHe in H
      end; length_facts; cbn [length] in *; lia.
  - repeat break_match; try discriminate; intros [= <- <-];
      repeat match goal with
      | H : parse_value f _ = POk _ _ |- _ => apply IHv in H
      | H : parse_members f _ = POk _ _ |- _ => apply IHm in H
      end; length_facts; cbn [length] in *; lia.
Qed.

Lemma parse_enough f :
  (∀ s, 2 * length s + 1 ≤ f → parse_value f s ≠ PFuel)
  ∧ (∀ s, 2 * length s + 2 ≤ f → parse_elems f s ≠ PFuel)
  ∧ (∀ s, 2 * length s + 2 ≤ f → parse_members f s ≠ PFuel).
Proof.
  induction f as [| f (IHv & IHe & IHm)]; [repeat split; intros; lia |].
  destruct (parse_shorter f) as (Sv & Se & Sm).
  split; [| split]; intros s Hf; cbn [parse_value parse_elems parse_members].
  - repeat break_match; try discriminate;
      repeat match goal with
      | H : parse_elems f ?t = PFuel |- _ => apply IHe in H; [done |]
      | H : parse_members f ?t = PFuel |- _ => apply IHm in H; [done |]
      end; length_facts; cbn [length] in *; lia.
  - repeat break_match; try discriminate;
      repeat match goal with
      | H : parse_value f _ = POk _ _ |- _ => apply Sv in H
      | H : parse_value f ?t = PFuel |- _ => apply IHv in H; [done |]
      | H : parse_elems f ?t = PFuel |- _ => apply IHe in H; [done |]
      end; length_facts; cbn [length] in *; lia.
  - repeat break_match; try discriminate;
      repeat match goal with
      | H : parse_value f _ = POk _ _ |- _ => apply Sv in H
      | H : parse_value f ?t = PFuel |- _ => apply IHv in H; [done |]
      | H : parse_members f ?t = PFuel |- _ => apply IHm in H; [done |]
      end; length_facts; cbn [length] in *; lia.
Qed.

(** [JSON_parse] never fails for lack of fuel. *)
Lemma parse_fuel_enough text : parse_value (2 * length text + 2) text ≠ PFuel.
Proof. apply parse_enough. lia. Qed.

(** ** Replies *)

Lemma settled_resolved r : is_rejected r = false → settled r = Ret r.
Proof. destruct r; done. Qed.

Lemma settled_rejected r : is_rejected r = true → ∃ e, r = Rejected e.
Proof. destruct r; try done. eauto. Qed.

(** Symbolic execution of [run], one layer of the handlers at a time. *)
Ltac exec :=
  cbn [run mbind Prog_bind fmap Prog_fmap bind try_catch mret Prog_ret
       await post conv_get conv_new conv_delete conv_update obj_read
       obj_update get_world put_world start rs_world rs_calls rs_next
       settled response_text channel_id url_private body_of truthy
       converted heap conversations app fst snd negb andb orb].

(** ** Memo composition falls back to the fixed memo (C3) *)



(** Neither composer throws, whatever the environment. *)
Lemma composers_never_throw env st context participants questions answers :
  (∃ v st', run env (generateDecisionMemo context participants) st = (Returned v, st'))
  ∧ (∃ v st', run env (generateDecisionMemoWithClarification context participants
                         questions answers) st = (Returned v, st')).
Proof. split; apply run_try_catch_returns. Qed.



(** ** Questions and answers in the prompt (C9) *)

Lemma pairs_text_cons o l :
  pairs_text (o :: l) = (first ← o; others ← pairs_text l; Some (first ++ others)).
Proof.
  unfold pairs_text. cbn [mapM]. destruct o as [first |]; cbn; [| reflexivity].
  by destruct (mapM id l).
Qed.

Lemma clarification_from_cons i q rest answers :
  clarification_from i (q :: rest) answers
  = (first ← qa_pair q (default JUndefined (answers !! i));
     others ← clarification_from (S i) rest answers;
     Some (first ++ others)).
Proof.
  cbn [clarification_from]. unfold qa_pair.
  destruct (toString q) as [question |]; cbn [mbind option_bind]; [| reflexivity].
  destruct (toString (default JUndefined (answers !! i))) as [answer |];
    cbn [mbind option_bind]; [| reflexivity].
  destruct (clarification_from (S i) rest answers) as [others |];
    cbn [mbind option_bind]; [| reflexivity].
  by rewrite <- !app_assoc.
Qed.

Lemma clarification_from_beyond i questions answers :
  length answers ≤ i →
  clarification_from i questions answers
  = pairs_text (map (λ q, qa_pair q JUndefined) questions).
Proof.
  revert i. induction questions as [| q rest IH]; intros i Hi; [reflexivity |].
  rewrite clarification_from_cons. cbn [map]. rewrite pairs_text_cons.
  rewrite (lookup_ge_None_2 answers i Hi). cbn [default].
  by rewrite (IH (S i)) by lia.
Qed.

(** The pairing is by index: question [i] is written with [answers[i]], or
    with [undefined] when [answers] has no index [i]. *)
Lemma clarification_index_aligned questions answers :
  clarification questions answers
  = pairs_text (imap (λ i q, qa_pair q (default JUndefined (answers !! i))) questions).
Proof.
  unfold clarification.
  enough (H : ∀ n, clarification_from n questions answers
                = pairs_text (imap (λ i q, qa_pair q (default JUndefined (answers !! (n + i))))
                                questions)).
  { rewrite (H 0). reflexivity. }
  induction questions as [| q rest IH]; intros n; [reflexivity |].
  rewrite clarification_from_cons. cbn [imap]. rewrite pairs_text_cons, (IH (S n)).
  replace (n + 0) with n by lia.
  assert (Htail : imap (λ i q, qa_pair q (default JUndefined (answers !! (S n + i)))) rest
                  = imap ((λ i q, qa_pair q (default JUndefined (answers !! (n + i)))) ∘ S) rest).
  { apply imap_ext. intros i x _. cbn. replace (n + S i) with (S (n + i)) by lia.
    reflexivity. }
  by rewrite Htail.
Qed.

(** C9, at the input where the code departs from the claim. With the single
    aggregate reply wrapped in a one-element array, only the first question is
    written with that reply; every further question, the catch-all included,
    is written with the answer [undefined]. (The text is that of the pairs one
    after the other; there is none when a question or the reply cannot be
    converted to a string.) *)
Theorem aggregate_answer_reaches_first_question_only q rest reply :
  clarification (q :: rest) [reply]
  = pairs_text (qa_pair q reply :: map (λ q', qa_pair q' JUndefined) rest).
Proof.
  unfold clarification. rewrite clarification_from_cons, pairs_text_cons.
  cbn [lookup list_lookup default].
  by rewrite clarification_from_beyond by (cbn; lia).
Qed.

(** The same on the reference flow: the prompt that the message handler
    sends for a session with one planned question and the catch-all. *)
Example reference_flow_prompt :
  let D := js "D1" in
  let session :=
    mkSession (js "U1") AskingQuestions (Some (js "We switch vendors.")) []
      (Some [JStr (js "Why now?"); JStr finalQuestion]) None None None None in
  let w := mkWorld [session] {[ D := 0 ]} in
  let message := mkDM (js "im") D (Some (js "Cost. Nothing else.")) None in
  calls_of (replies []) (DirectMessageReceived message) w !! 1
  = Some (AnthropicMessages 4000
            (clarified_memo_prompt (js "We switch vendors.") []
               (js "Question: Why now?
Answer: Cost. Nothing else.

Question: Is there anything else I should know about this decision before proceeding?
Answer: undefined

"))).
Proof. vm_compute. reflexivity. Qed.

(** ** Searching a text *)

Lemma startsWith_app p s b : startsWith p s = true → startsWith p (s ++ b) = true.
Proof.
  revert s. induction p as [| a p IH]; intros [| c s] H; cbn in *; try done.
  apply andb_true_iff in H as [-> H]. cbn. auto.
Qed.

Lemma includes_app_l p s b : includes p s = true → includes p (s ++ b) = true.
Proof.
  induction s as [| c s IH]; cbn [includes app]; intros H.
  - rewrite orb_false_r in H. destruct p; [| discriminate]. destruct b; reflexivity.
  - apply orb_true_iff in H as [H | H].
    + apply (startsWith_app _ _ b) in H. cbn [app] in H. rewrite H. reflexivity.
    + rewrite (IH H). apply orb_true_r.
Qed.

Lemma includes_app_r p a s : includes p s = true → includes p (a ++ s) = true.
Proof.
  intros H. induction a as [| c a IH]; [exact H |].
  cbn [app includes]. rewrite IH. apply orb_true_r.
Qed.

(** ** A file that is not plain text (C6) *)

(** C6. A file upload in stage [Started] whose type, lowercased, is none of
    [text], [txt], [plain]: the first thing the handler does is to post the
    message that asks to paste the context directly; it never calls the Draft
    Generator; the world after the event is the world before it, so the
    session is untouched and still [Started]. This holds whatever the
    platform replies. *)
Theorem unsupported_file_rejected env w conversation session message file rest filetype :
  dm_channel_type message = js "im" →
  conversations w !! dm_channel message = Some conversation →
  heap w !! conversation = Some session →
  stage session = Started →
  is_stop (dm_text message) = false →
  dm_files message = Some (file :: rest) →
  file_filetype file = Some filetype →
  toLowerCase filetype ∉ acceptableTypes →
  head (calls_of env (DirectMessageReceived message) w)
  = Some (ChatPostMessage (dm_channel message) None msg_file_rejected)
  ∧ includes (js "paste your context directly") msg_file_rejected = true
  ∧ Forall (λ c, is_dg_call c = false) (calls_of env (DirectMessageReceived message) w)
  ∧ world_after env (DirectMessageReceived message) w = w
  ∧ stage_of (world_after env (DirectMessageReceived message) w) (dm_channel message)
    = Some Started.
Proof.
  intros Him Hc Hh Hs Hstop Hf Hft Hnot.
  assert (Hstage : stage_of w (dm_channel message) = Some Started).
  { unfold stage_of, session_of. rewrite Hc. cbn. rewrite Hh. cbn. by rewrite Hs. }
  unfold calls_of, world_after, handle, handler, message_handler.
  rewrite Him.
  replace (jstring_eqb (js "im") (js "im")) with true
    by (symmetry; apply bool_decide_eq_true_2; reflexivity).
  exec. rewrite Hc. exec. rewrite Hstop. exec. rewrite Hh. exec.
  rewrite Hs, Hf. unfold handleFileUpload. rewrite Hft.
  rewrite (bool_decide_eq_false_2 _ Hnot). exec.
  destruct (is_rejected (env 0)) eqn:E0.
  - apply settled_rejected in E0 as [e0 ->]. cbn [settled]. exec.
    destruct (bool_decide (err_data_error e0 = Some (js "missing_scope"))); exec.
    all: destruct (is_rejected (env 1)) eqn:E1;
      [ apply settled_rejected in E1 as [e1 ->]; cbn [settled]; exec
      | rewrite (settled_resolved _ E1); exec ].
    all: try (destruct (env 2); exec).
    all: cbn [app head];
      repeat split; solve [ vm_compute; reflexivity | repeat constructor | exact Hstage ].
  - rewrite (settled_resolved _ E0). exec. cbn [app head].
    repeat split; solve [ vm_compute; reflexivity | repeat constructor | exact Hstage ].
Qed.

Lemma unsupported_file_rejected_witness :
  let message :=
    mkDM (js "im") (js "D1") (Some (js "see attached"))
      (Some [mkFile (js "F1") (Some (js "pdf"))]) in
  let w :=
    mkWorld [mkSession (js "U1") Started (Some []) [] None None None None None]
      {[ js "D1" := 0 ]} in
  head (calls_of (replies []) (DirectMessageReceived message) w)
  = Some (ChatPostMessage (dm_channel message) None msg_file_rejected)
  ∧ includes (js "paste your context directly") msg_file_rejected = true
  ∧ Forall (λ c, is_dg_call c = false)
      (calls_of (replies []) (DirectMessageReceived message) w)
  ∧ world_after (replies []) (DirectMessageReceived message) w = w
  ∧ stage_of (world_after (replies []) (DirectMessageReceived message) w)
      (dm_channel message) = Some Started.
Proof.
  apply (unsupported_file_rejected (replies [])
           (mkWorld [mkSession (js "U1") Started (Some []) [] None None None None None]
              {[ js "D1" := 0 ]})
           0 (mkSession (js "U1") Started (Some []) [] None None None None None)
           (mkDM (js "im") (js "D1") (Some (js "see attached"))
              (Some [mkFile (js "F1") (Some (js "pdf"))]))
           (mkFile (js "F1") (Some (js "pdf"))) [] (js "pdf")).
  all: try reflexivity.
  vm_compute. intros H. repeat (apply elem_of_cons in H as [H | H]; [discriminate |]).
  by apply elem_of_nil in H.
Defined.

(** ** A thread the bot cannot read (C7) *)





(** ** Invariants of programs *)

Section WpFacts.
Context (I : World → Prop).

Lemma wp_mono {A} (p : Prog A) (Q Q' : A → Prop) :
  (∀ a, Q a → Q' a) → wp I p Q → wp I p Q'.
Proof.
  revert Q Q'. induction p as [| | ? c k IH | ? k IH | ? w k IH | ? c IHc k IH];
    intros Q Q' HQ; cbn; eauto.
  - intros [? ?]; eauto.
  - intros [? ?]; eauto.
Qed.

Lemma wp_bind {A B} (p : Prog A) (f : A → Prog B) (Q : B → Prop) :
  wp I p (λ a, wp I (f a) Q) → wp I (p ≫= f) Q.
Proof.
  change (p ≫= f) with (bind p f).
  revert B f Q. induction p as [| | ? c k IH | ? k IH | ? w k IH | ? c IHc k IH];
    intros B f Q; cbn [bind wp].
  - auto.
  - auto.
  - intros H r. apply IH, H.
  - intros H w Hw. apply IH, H, Hw.
  - intros [? ?]; split; [done |]. by apply IH.
  - intros [? ?]; split; [done |]. by apply IH.
Qed.

Lemma wp_try_catch {A} (p : Prog A) (h : JsError → Prog A) (Q : A → Prop) :
  wp I p Q → (∀ e, wp I (h e) Q) → wp I (try_catch p h) Q.
Proof.
  revert h Q. induction p as [| | ? c k IH | ? k IH | ? w k IH | ? c IHc k IH];
    intros h Q; cbn [try_catch wp].
  - auto.
  - auto.
  - intros H Hh r. apply IH; auto.
  - intros H Hh w Hw. apply IH; auto.
  - intros [? ?] Hh; split; [done |]. by apply IH.
  - intros [? ?] Hh; split; [done |]. by apply IH.
Qed.

Lemma wp_run {A} env (p : Prog A) (Q : A → Prop) st :
  wp I p Q → I (rs_world st) →
  I (rs_world (snd (run env p st)))
  ∧ match fst (run env p st) with
    | Returned a => Q a
    | Thrown _ => True
    end.
Proof.
  revert Q st. induction p as [| | ? c k IH | ? k IH | ? w k IH | ? c IHc k IH];
    intros Q st; cbn [run wp fst snd].
  - auto.
  - auto.
  - intros H HI. apply IH; [apply H | exact HI].
  - intros H HI. apply IH; [apply H, HI | exact HI].
  - intros [Hw H] HI. apply IH; [exact H | exact Hw].
  - intros [Hc H] HI. apply IH; [exact H |]. apply (IHc _ _ Hc HI).
Qed.

Lemma wp_settled r (Q : Reply → Prop) : (∀ r', Q r') → wp I (settled r) Q.
Proof. intros H. destruct r; cbn; auto. Qed.

Lemma wp_await c (Q : Reply → Prop) : (∀ r, Q r) → wp I (await c) Q.
Proof. intros H r. by apply wp_settled. Qed.

Lemma wp_post ch text (Q : unit → Prop) : Q () → wp I (post ch text) Q.
Proof. intros H. apply wp_bind, wp_await. intros _. exact H. Qed.

Lemma wp_conv_get ch (Q : option nat → Prop) :
  (∀ w, I w → Q (conversations w !! ch)) → wp I (conv_get ch) Q.
Proof. intros H w Hw. cbn. auto. Qed.

Lemma wp_obj_read l (Q : Session → Prop) :
  (∀ w s, I w → heap w !! l = Some s → Q s) → wp I (obj_read l) Q.
Proof. intros H w Hw. cbn. destruct (heap w !! l) eqn:E; cbn; eauto. Qed.

Lemma wp_obj_update l f (Q : unit → Prop) :
  (∀ w, I w → I (mkWorld (alter f l (heap w)) (conversations w))) → Q () →
  wp I (obj_update l f) Q.
Proof. intros H HQ w Hw. cbn. auto. Qed.

Lemma wp_conv_delete ch (Q : unit → Prop) :
  (∀ w, I w → I (mkWorld (heap w) (delete ch (conversations w)))) → Q () →
  wp I (conv_delete ch) Q.
Proof. intros H HQ w Hw. cbn. auto. Qed.

Lemma wp_converted {A} (o : option A) (Q : A → Prop) :
  (∀ a, o = Some a → Q a) → wp I (converted o) Q.
Proof. intros H. destruct o; cbn; auto. Qed.

Lemma wp_response_text r (Q : jsval → Prop) : (∀ v, Q v) → wp I (response_text r) Q.
Proof.
  intros H. unfold response_text. destruct r; cbn; auto.
  destruct (text_of_body data); cbn; auto.
Qed.

Lemma wp_planner context participants (Q : list jsval → Prop) :
  (∀ qs, length qs ≤ 2 → Q qs) → wp I (generateClarifyingQuestions context participants) Q.
Proof.
  intros H. unfold generateClarifyingQuestions.
  apply wp_try_catch; [| intros _; apply H; cbn; lia].
  apply wp_bind, wp_await. intros r. apply wp_bind, wp_response_text. intros v.
  unfold parse_questions.
  destruct (toString v ≫= JSON_parse) as [[]|]; cbn; try (apply H; cbn; lia).
  - apply H. rewrite length_take. lia.
  - destruct v; cbn; try done. apply H. rewrite length_fmap.
    unfold extract_questions. destruct (match_brackets s) as [[|]|]; cbn; try lia.
    rewrite length_take. lia.
Qed.

Lemma wp_memo context participants (Q : jsval → Prop) :
  (∀ v, Q v) → wp I (generateDecisionMemo context participants) Q.
Proof.
  intros H. unfold generateDecisionMemo.
  apply wp_try_catch; [| intros _; apply H].
  apply wp_bind, wp_await. intros r. by apply wp_response_text.
Qed.

Lemma wp_clarified_memo context participants questions answers (Q : jsval → Prop) :
  (∀ v, Q v) →
  wp I (generateDecisionMemoWithClarification context participants questions answers) Q.
Proof.
  intros H. unfold generateDecisionMemoWithClarification.
  apply wp_try_catch; [| intros _; apply H].
  destruct questions as [qs |]; [| done].
  apply wp_bind, wp_converted. intros pairs _.
  apply wp_bind, wp_await. intros r. by apply wp_response_text.
Qed.

Lemma wp_process channel memo (Q : unit → Prop) :
  Q () → wp I (processMemoAndRespond channel memo) Q.
Proof.
  intros H. unfold processMemoAndRespond. destruct memo; try done.
  apply wp_bind, wp_post. apply wp_bind, wp_post. by apply wp_post.
Qed.

End WpFacts.

Section StageKept.
Context (w0 : World).

Lemma stage_kept_refl : stage_kept w0 w0.
Proof.
  split; [done |]. split; [| auto].
  intros l s0 H. exists s0. split; [done | lia].
Qed.

Lemma stage_kept_delete w ch :
  stage_kept w0 w → stage_kept w0 (mkWorld (heap w) (delete ch (conversations w))).
Proof.
  intros (Hlen & Hheap & Hconv). split; [done |]. split; [done |].
  intros ch'. cbn. destruct (decide (ch = ch')) as [<- | Hne].
  - left. apply lookup_delete_eq.
  - rewrite lookup_delete_ne by done. apply Hconv.
Qed.

Lemma stage_kept_alter w l f :
  stage_kept w0 w →
  (∀ s0 s, heap w0 !! l = Some s0 → heap w !! l = Some s →
     stage_rank (Some (stage s0)) ≤ stage_rank (Some (stage s)) →
     stage_rank (Some (stage s0)) ≤ stage_rank (Some (stage (f s)))) →
  stage_kept w0 (mkWorld (alter f l (heap w)) (conversations w)).
Proof.
  intros (Hlen & Hheap & Hconv) Hf. split; [| split; [| done]]; cbn.
  - by rewrite length_alter.
  - intros l' s0 H0. destruct (Hheap l' s0 H0) as (s & Hs & Hle).
    destruct (decide (l = l')) as [<- | Hne].
    + exists (f s). split; [| by eapply Hf].
      rewrite list_lookup_alter_eq, Hs. reflexivity.
    + exists s. split; [| done]. by rewrite list_lookup_alter_ne.
Qed.

Lemma stage_kept_rank w ch :
  stage_kept w0 w → stage_rank (stage_of w0 ch) ≤ stage_rank (stage_of w ch).
Proof.
  intros (Hlen & Hheap & Hconv).
  assert (Htop : ∀ o, stage_rank o ≤ 3) by (intros [[]|]; cbn; lia).
  unfold stage_of, session_of. destruct (Hconv ch) as [-> | ->]; [apply Htop |].
  destruct (conversations w0 !! ch) as [l |]; cbn; [| lia].
  destruct (heap w0 !! l) as [s0 |] eqn:E0; cbn.
  - destruct (Hheap l s0 E0) as (s & -> & Hle). exact Hle.
  - apply lookup_ge_None_1 in E0. rewrite <- Hlen in E0.
    rewrite (lookup_ge_None_2 _ _ E0). cbn. lia.
Qed.
End StageKept.

Lemma wp_fmap I {A B} (f : A → B) (p : Prog A) (Q : B → Prop) :
  wp I p (λ a, Q (f a)) → wp I (f <$> p) Q.
Proof. intros H. change (f <$> p) with (p ≫= λ a, Ret (f a)). by apply wp_bind. Qed.

Lemma wp_seq I {A B} (p : Prog A) (q : Prog B) (Q : B → Prop) :
  wp I p (λ _, True) → wp I q Q → wp I (p ;; q) Q.
Proof.
  intros Hp Hq. apply wp_bind. eapply wp_mono; [| exact Hp]. intros _ _. exact Hq.
Qed.

Section Closing.
Context (I : World → Prop).
Context (Hdelete : ∀ w ch, I w → I (mkWorld (heap w) (delete ch (conversations w)))).

Lemma memo_without_questions_keeps awaited channel context :
  wp I context (λ _, True) →
  wp I (memo_without_questions awaited channel context) (λ _, True).
Proof using Hdelete.
  intros Hctx. unfold memo_without_questions.
  apply wp_bind, wp_post. apply wp_seq; [apply wp_try_catch |].
  - apply wp_bind. eapply wp_mono; [| exact Hctx]. intros ctx _.
    apply wp_bind, wp_memo. intros v. destruct awaited.
    + by apply wp_process.
    + split; [by apply wp_process | done].
  - intros _. by apply wp_post.
  - apply wp_conv_delete; [| done]. intros w. apply Hdelete.
Qed.

Lemma ask_failed_keeps l channel : wp I (ask_failed l channel) (λ _, True).
Proof using Hdelete.
  apply memo_without_questions_keeps, wp_fmap, wp_obj_read. done.
Qed.

End Closing.

Section MessageStage.
Context (w0 : World).
Let J := stage_kept w0.

Lemma keeps_same_stage l f :
  (∀ s, stage (f s) = stage s) →
  ∀ w, J w → J (mkWorld (alter f l (heap w)) (conversations w)).
Proof.
  intros Hf w Hw. apply stage_kept_alter; [done |].
  intros s0 s _ _ Hle. by rewrite Hf.
Qed.

Lemma ask_questions_keeps l channel : wp J (ask_questions l channel) (λ _, True).
Proof.
  unfold ask_questions. apply wp_bind, wp_obj_read. intros w s Hw Hs.
  apply wp_bind, wp_planner. intros qs _.
  apply wp_bind, wp_obj_update; [by apply keeps_same_stage |].
  apply wp_bind, wp_converted. intros text _. by apply wp_post.
Qed.

(** In the branch of the handler that has read [Started]. *)
Lemma to_asking_keeps l :
  (∀ s0, heap w0 !! l = Some s0 → stage_rank (Some (stage s0)) ≤ 1) →
  ∀ w, J w → J (mkWorld (alter (set_stage AskingQuestions) l (heap w)) (conversations w)).
Proof.
  intros H w Hw. apply stage_kept_alter; [done |].
  intros s0 s H0 _ _. apply (H s0 H0).
Qed.

Lemma to_generating_keeps l :
  ∀ w, J w → J (mkWorld (alter (set_stage Generating) l (heap w)) (conversations w)).
Proof.
  intros w Hw. apply stage_kept_alter; [done |].
  intros s0 s _ _ _. destruct (stage s0); cbn; lia.
Qed.

Lemma stage_kept_delete' w ch :
  J w → J (mkWorld (heap w) (delete ch (conversations w))).
Proof. apply stage_kept_delete. Qed.

Lemma handleFileUpload_keeps l message file :
  (∀ s0, heap w0 !! l = Some s0 → stage_rank (Some (stage s0)) ≤ 1) →
  wp J (handleFileUpload l message file) (λ _, True).
Proof.
  intros Hstarted. unfold handleFileUpload.
  apply wp_try_catch; [| intros e; destruct (bool_decide _); by apply wp_post].
  destruct (file_filetype file) as [filetype |]; [| done].
  destruct (negb _); [by apply wp_post |].
  apply wp_bind, wp_await. intros fileInfo.
  apply wp_try_catch; [| done].
  apply wp_bind. unfold url_private. destruct fileInfo; try done. cbn [wp mret Prog_ret].
  apply wp_bind, wp_await. intros response.
  destruct (file_content (body_of response)) as [fileContent |]; [| done].
  apply wp_bind, wp_obj_update; [by apply keeps_same_stage |].
  apply wp_bind, wp_post.
  apply wp_try_catch; [| intros _; apply ask_failed_keeps, stage_kept_delete'].
  apply wp_bind, wp_obj_update; [by apply to_asking_keeps |].
  apply ask_questions_keeps.
Qed.

Lemma message_handler_keeps message :
  wp J (message_handler message) (λ _, True).
Proof.
  unfold message_handler. destruct (negb _); [done |].
  apply wp_bind, wp_conv_get. intros w1 Hw1.
  destruct (conversations w1 !! dm_channel message) as [l |]; [| done].
  apply wp_try_catch; [| intros _; by apply wp_post].
  destruct (is_stop (dm_text message)).
  { apply wp_bind, wp_post. apply wp_conv_delete; [| done].
    intros w. apply stage_kept_delete. }
  apply wp_bind, wp_obj_read. intros w s Hw Hs.
  destruct (stage s) eqn:Hstage.
  - assert (Hstarted : ∀ s0, heap w0 !! l = Some s0 → stage_rank (Some (stage s0)) ≤ 1).
    { intros s0 H0. destruct Hw as (_ & Hheap & _).
      destruct (Hheap l s0 H0) as (s' & Hs' & Hle).
      rewrite Hs in Hs'. injection Hs' as <-. rewrite Hstage in Hle. cbn in *. lia. }
    destruct (dm_files message) as [[| file rest] |].
    2: { by apply handleFileUpload_keeps. }
    all: apply wp_bind, wp_obj_update; [by apply keeps_same_stage |];
      apply wp_bind, wp_obj_update; [by apply to_asking_keeps |];
      apply wp_bind, wp_post;
      apply wp_try_catch;
        [apply ask_questions_keeps | intros _; apply ask_failed_keeps, stage_kept_delete'].
  - apply wp_bind, wp_obj_update; [by apply keeps_same_stage |].
    apply wp_bind, wp_obj_update; [by apply to_generating_keeps |].
    apply wp_bind, wp_post. apply wp_bind.
    apply (wp_mono _ _ (λ _, True)); [| apply wp_try_catch].
    + intros [] _; [| done]. apply wp_conv_delete; [| done].
      intros w'. apply stage_kept_delete.
    + apply wp_bind, wp_obj_read. intros w' s' _ _.
      apply wp_bind, wp_clarified_memo. intros memo.
      apply wp_bind, wp_conv_get. intros w'' _.
      destruct (conversations w'' !! dm_channel message); [| done].
      apply wp_bind, wp_process. done.
    + intros _. apply wp_bind, wp_post. done.
  - done.
Qed.

End MessageStage.

Lemma one_message_keeps_stage env w message ch :
  stage_rank (stage_of w ch)
  ≤ stage_rank (stage_of (world_after env (DirectMessageReceived message) w) ch).
Proof.
  apply stage_kept_rank. unfold world_after, handle, handler.
  apply (wp_run (stage_kept w) env (message_handler message) (λ _, True) (start w)).
  - apply message_handler_keeps.
  - apply stage_kept_refl.
Qed.

(** ** The stage of a channel (C8) *)

(** C8, as the code has it. Over any sequence of direct-message events,
    each handled to its end before the next one arrives (as [process] runs
    them), with any replies of the platform and of the Draft Generator, the
    stage observed on any channel only moves forward along [Started],
    [AskingQuestions], [Generating], deleted. Commands and shortcuts are left
    out: they install a new session whatever the channel held. Messages
    handled while another is in flight are left out as well: see
    [interleaved_messages_move_stage_back]. *)
Theorem messages_never_move_stage_back events w ch :
  Forall (λ ev, is_direct_message (fst ev) = true) events →
  stage_rank (stage_of w ch) ≤ stage_rank (stage_of (process events w) ch).
Proof.
  intros Hdm. revert w. induction Hdm as [| [e env] rest He _ IH]; intros w.
  - cbn. lia.
  - cbn [process]. destruct e as [| | message]; try discriminate.
    etransitivity; [| apply IH]. apply one_message_keeps_stage.
Qed.

Lemma messages_never_move_stage_back_witness :
  let D := js "D1" in
  let w := mkWorld [mkSession (js "U1") Started (Some []) [] None None None None None]
             {[ D := 0 ]} in
  let events :=
    [ (DirectMessageReceived (mkDM (js "im") D (Some (js "We switch vendors.")) None),
       replies [Done; Body (dg_body (js "[]")); Done]);
      (DirectMessageReceived (mkDM (js "im") D (Some (js "Nothing to add.")) None),
       replies [Done; Body (dg_body (js "# Vendors")); Done; Done; Done]) ] in
  stage_rank (stage_of w D) ≤ stage_rank (stage_of (process events w) D).
Proof.
  apply (messages_never_move_stage_back
    [ (DirectMessageReceived (mkDM (js "im") (js "D1") (Some (js "We switch vendors.")) None),
       replies [Done; Body (dg_body (js "[]")); Done]);
      (DirectMessageReceived (mkDM (js "im") (js "D1") (Some (js "Nothing to add.")) None),
       replies [Done; Body (dg_body (js "# Vendors")); Done; Done; Done]) ]).
  repeat constructor.
Defined.

(** C8 as stated fails: the command handler assigns a new [Started] session
    to the DM channel without looking at what the channel holds. After the
    command and one pasted text the channel is in [AskingQuestions]; the
    command again puts it back to [Started]. *)
Lemma stage_moves_back_on_reinvocation :
  let D := js "D1" in
  let command := (CommandInvoked (mkCommand (js "U1") (js "T1")),
                  replies [Done; Channel D; Done; Done]) in
  let pasted := (DirectMessageReceived
                   (mkDM (js "im") D (Some (js "We switch vendors.")) None),
                 replies [Done; Body (dg_body (js "[]")); Done]) in
  stage_of (process [command; pasted] empty_world) D = Some AskingQuestions
  ∧ stage_of (process [command; pasted; command] empty_world) D = Some Started
  ∧ ¬ (stage_rank (stage_of (process [command; pasted] empty_world) D)
       ≤ stage_rank (stage_of (process [command; pasted; command] empty_world) D)).
Proof.
  vm_compute. repeat split. lia.
Qed.

(** The restriction to messages handled one after the other is needed: the
    file handler assigns [stage = 'asking_questions'] after three awaits, by
    which time other messages may have moved the session on. An upload is in
    flight while a pasted text is handled and answered; when the download
    and the thanks of the upload come back, its handler puts the session,
    which is in [Generating], back to [AskingQuestions]. The stage of the
    channel is listed after the upload has arrived, after the questions are
    posted, after the answer has arrived, and after the thanks for the file
    is delivered. *)
Example interleaved_messages_move_stage_back :
  let D := js "D1" in
  let s := mkSession (js "U1") Started (Some []) [] None None None None None in
  let upload := mkDM (js "im") D None (Some [mkFile (js "F1") (Some (js "txt"))]) in
  let pasted := mkDM (js "im") D (Some (js "We switch vendors.")) None in
  let answer := mkDM (js "im") D (Some (js "Nothing to add.")) None in
  let schedule :=
    [ Arrive (DirectMessageReceived upload);    (* awaits files.info *)
      Arrive (DirectMessageReceived pasted);    (* awaits its thanks *)
      Deliver 1 Done;                           (* the planner is called *)
      Deliver 1 (Body (dg_body (js "[]")));     (* the questions are posted *)
      Deliver 1 Done;                           (* the pasted text is handled *)
      Arrive (DirectMessageReceived answer);    (* awaits its thanks *)
      Deliver 0 (FileInfo (js "https://files.slack.com/F1"));
      Deliver 1 (Body (JStr (js "Meeting notes.")));
      Deliver 1 Done ] in                       (* the thanks for the file *)
  let sys := mkSystem (mkWorld [s] {[ D := 0 ]}) [] [] in
  map (λ n, stage_of (sys_world (play (take n schedule) sys)) D) [1; 5; 6; 9]
  = [Some Started; Some AskingQuestions; Some Generating; Some AskingQuestions].
Proof.
  vm_compute. reflexivity.
Qed.

(** ** The question planner (C1, C10) *)

Lemma planner_run env context participants st :
  run env (generateClarifyingQuestions context participants) st
  = (Returned (planned (env (rs_next st))),
     after_call st (AnthropicMessages 1000 (questions_prompt (render context) participants))).
Proof.
  unfold planned, generateClarifyingQuestions, after_call. exec.
  destruct (env (rs_next st)) as [e | | id | msgs | url | data]; exec; try reflexivity.
  destruct (text_of_body data) as [v |]; exec; [| reflexivity].
  unfold parse_questions.
  destruct (toString v ≫= JSON_parse) as [[] |]; exec; try reflexivity.
  destruct v; exec; reflexivity.
Qed.

Lemma planned_length r : length (planned r) ≤ 2.
Proof.
  unfold planned, generateClarifyingQuestions. exec.
  destruct r as [e | | id | msgs | url | data]; exec; cbn [length]; try lia.
  destruct (text_of_body data) as [v |]; exec; cbn [length]; try lia.
  unfold parse_questions.
  destruct (toString v ≫= JSON_parse) as [[] |]; exec; cbn [length]; try lia.
  - rewrite length_take. lia.
  - destruct v; exec; cbn [length]; try lia.
    rewrite length_fmap. unfold extract_questions.
    destruct (match_brackets s) as [[|]|]; cbn [length]; try lia.
    rewrite length_take. lia.
Qed.

Lemma planned_json data text arr :
  text_of_body data = Some (JStr text) → JSON_parse text = Some (JArr arr) →
  planned (Body data) = take 2 arr.
Proof.
  intros Ht Hp. unfold planned, generateClarifyingQuestions. exec.
  rewrite Ht. exec. unfold parse_questions. cbn [toString mbind option_bind].
  rewrite Hp. reflexivity.
Qed.

Lemma run_catch_bind {A B} env (p : Prog A) (k : A → Prog B) h st :
  run env (try_catch (p ≫= k) h) st =
  match run env p st with
  | (Returned a, st') => run env (try_catch (k a) h) st'
  | (Thrown e, st') => run env (h e) st'
  end.
Proof.
  rewrite run_try_catch, run_bind.
  destruct (run env p st) as [[a | e] st']; [| reflexivity].
  by rewrite run_try_catch.
Qed.

(** The handler's path for a pasted text in stage [Started], up to the post
    of the questions. *)
Lemma without_file message (k1 : FileRef → Prog unit) (k2 : Prog unit) :
  has_file message = false →
  match dm_files message with Some (file :: _) => k1 file | _ => k2 end = k2.
Proof. unfold has_file. by destruct (dm_files message) as [[|]|]. Qed.

Ltac enter_pasted_text Him Hc Hh Hs Hstop Hnofile H0 :=
  unfold calls_of, world_after, handle, handler, message_handler;
  rewrite Him;
  replace (jstring_eqb (js "im") (js "im")) with true
    by (symmetry; apply bool_decide_eq_true_2; reflexivity);
  exec; rewrite Hc; exec; rewrite Hstop; exec; rewrite Hh; exec;
  rewrite Hs, (without_file _ _ _ Hnofile);
  exec; rewrite (settled_resolved _ H0); exec;
  unfold ask_questions; exec;
  rewrite !list_lookup_alter_eq, Hh; cbn [fmap option_fmap option_map]; exec;
  rewrite run_try_catch, run_catch_bind, planner_run; unfold after_call; exec.

Lemma pasted_text_asked env w l s message text :
  dm_channel_type message = js "im" →
  conversations w !! dm_channel message = Some l →
  heap w !! l = Some s →
  stage s = Started →
  is_stop (dm_text message) = false →
  has_file message = false →
  is_rejected (env 0) = false →
  questionsMessage (with_final (planned (env 1))) = Some text →
  is_rejected (env 2) = false →
  calls_of env (DirectMessageReceived message) w
  = [ ChatPostMessage (dm_channel message) None msg_thanks_context;
      AnthropicMessages 1000 (questions_prompt (render (dm_text message)) []);
      ChatPostMessage (dm_channel message) None text ]
  ∧ session_of (world_after env (DirectMessageReceived message) w) (dm_channel message)
    = Some (set_questions (with_final (planned (env 1)))
              (set_stage AskingQuestions (set_context (dm_text message) s))).
Proof.
  intros Him Hc Hh Hs Hstop Hnofile H0 Hq H2.
  enter_pasted_text Him Hc Hh Hs Hstop Hnofile H0.
  rewrite Hq. exec.
  rewrite (settled_resolved _ H2). exec.
  split; [reflexivity |].
  unfold session_of. cbn [conversations heap]. rewrite Hc. cbn [mbind option_bind].
  rewrite !list_lookup_alter_eq, Hh. reflexivity.
Qed.

(** What is left of a handler once the session object at an address reads
    as the goal says: the [catch] that composes a memo directly, and the
    posts of the outer [catch] blocks, leave the object as it is. *)
Ltac through_ask_failed env l Hh :=
  lazymatch goal with
  | |- _ = Some ?X =>
      match goal with
      | |- context [run env (ask_failed l ?ch) ?st] =>
          pose proof (wp_run (λ w, heap w !! l = Some X) env (ask_failed l ch)
                        (λ _, True) st) as Hkeep;
          destruct (run env (ask_failed l ch) st) as [[? | ?] r];
          (destruct Hkeep as [Hkeep _];
           [ apply ask_failed_keeps; intros; assumption
           | cbn [rs_world heap]; rewrite !list_lookup_alter_eq, Hh; reflexivity
           | ])
      end
  end.

Ltac posts_keep env Hkeep :=
  repeat (exec; cbn [err_data_error]; try unfold or_opt;
          try (rewrite bool_decide_eq_false_2 by discriminate);
          exec; try exact Hkeep;
          match goal with
          | |- context [settled (env ?n)] => destruct (env n)
          end).


(** The session object after a pasted text, whether or not the questions
    could be written and posted. *)
Lemma pasted_text_stored env w l s message :
  dm_channel_type message = js "im" →
  conversations w !! dm_channel message = Some l →
  heap w !! l = Some s →
  stage s = Started →
  is_stop (dm_text message) = false →
  has_file message = false →
  is_rejected (env 0) = false →
  heap (world_after env (DirectMessageReceived message) w) !! l
  = Some (set_questions (with_final (planned (env 1)))
            (set_stage AskingQuestions (set_context (dm_text message) s))).
Proof.
  intros Him Hc Hh Hs Hstop Hnofile H0.
  enter_pasted_text Him Hc Hh Hs Hstop Hnofile H0.
  destruct (questionsMessage (with_final (planned (env 1)))) as [text |]; exec.
  - destruct (is_rejected (env 2)) eqn:H2.
    + apply settled_rejected in H2 as [e H2]. rewrite H2. exec.
      through_ask_failed env l Hh; posts_keep env Hkeep.
    + rewrite (settled_resolved _ H2). exec.
      rewrite !list_lookup_alter_eq, Hh. reflexivity.
  - through_ask_failed env l Hh; posts_keep env Hkeep.
Qed.

Lemma with_final_length qs : length (with_final qs) = length qs + 1.
Proof. unfold with_final. by rewrite length_app. Qed.

Lemma with_final_last qs : last (with_final qs) = Some (JStr finalQuestion).
Proof. unfold with_final. apply last_snoc. Qed.

(** C1. When the Draft Generator answers the planner with a text that
    [JSON.parse] reads as an array of [n] elements (strings or not),
    [generateClarifyingQuestions] returns its first two elements. For a pasted
    text in stage [Started], once the handler has posted its thanks, the list
    stored in the session object of the channel is that list followed by the
    catch-all question: its length is [min 2 n + 1], at most 3, and its last
    element is the catch-all. *)
Theorem planned_questions_capped env w l s message data text arr n :
  dm_channel_type message = js "im" →
  conversations w !! dm_channel message = Some l →
  heap w !! l = Some s →
  stage s = Started →
  is_stop (dm_text message) = false →
  has_file message = false →
  is_rejected (env 0) = false →
  env 1 = Body data →
  text_of_body data = Some (JStr text) →
  JSON_parse text = Some (JArr arr) →
  length arr = n →
  (∀ context participants st,
     env (rs_next st) = Body data →
     fst (run env (generateClarifyingQuestions context participants) st)
     = Returned (take 2 arr))
  ∧ ∃ cq,
      clarifyingQuestions <$> heap (world_after env (DirectMessageReceived message) w) !! l
      = Some (Some cq)
      ∧ cq = take 2 arr ++ [JStr finalQuestion]
      ∧ length cq = min 2 n + 1
      ∧ length cq ≤ 3
      ∧ last cq = Some (JStr finalQuestion).
Proof.
  intros Him Hc Hh Hs Hstop Hnofile H0 H1 Ht Hp Hn. split.
  { intros context participants st Hreply.
    rewrite planner_run, Hreply, (planned_json data text arr Ht Hp). reflexivity. }
  exists (with_final (take 2 arr)).
  split; [| split; [reflexivity |]].
  - rewrite (pasted_text_stored env w l s message) by assumption.
    rewrite H1, (planned_json data text arr Ht Hp). reflexivity.
  - rewrite with_final_length, length_take, with_final_last, Hn.
    repeat split; lia.
Qed.

Lemma planned_questions_capped_witness :
  let D := js "D1" in
  let s := mkSession (js "U1") Started (Some []) [] None None None None None in
  let w := mkWorld [s] {[ D := 0 ]} in
  let message := mkDM (js "im") D (Some (js "We switch vendors.")) None in
  let text := js "[" ++ dq ++ js "Why now?" ++ dq ++ js "," ++ dq ++ js "Who owns it?"
              ++ dq ++ js "," ++ dq ++ js "What else?" ++ dq ++ js "]" in
  let arr := [JStr (js "Why now?"); JStr (js "Who owns it?"); JStr (js "What else?")] in
  let env := replies [Done; Body (dg_body text); Done] in
  (∀ context participants st,
     env (rs_next st) = Body (dg_body text) →
     fst (run env (generateClarifyingQuestions context participants) st)
     = Returned (take 2 arr))
  ∧ ∃ cq,
      clarifyingQuestions <$> heap (world_after env (DirectMessageReceived message) w) !! 0
      = Some (Some cq)
      ∧ cq = take 2 arr ++ [JStr finalQuestion]
      ∧ length cq = min 2 3 + 1
      ∧ length cq ≤ 3
      ∧ last cq = Some (JStr finalQuestion).
Proof.
  apply (planned_questions_capped
           (replies [Done;
                     Body (dg_body (js "[" ++ dq ++ js "Why now?" ++ dq ++ js "," ++ dq
                                    ++ js "Who owns it?" ++ dq ++ js "," ++ dq
                                    ++ js "What else?" ++ dq ++ js "]"));
                     Done])
           (mkWorld [mkSession (js "U1") Started (Some []) [] None None None None None]
              {[ js "D1" := 0 ]})
           0 (mkSession (js "U1") Started (Some []) [] None None None None None)
           (mkDM (js "im") (js "D1") (Some (js "We switch vendors.")) None)
           (dg_body (js "[" ++ dq ++ js "Why now?" ++ dq ++ js "," ++ dq
                     ++ js "Who owns it?" ++ dq ++ js "," ++ dq
                     ++ js "What else?" ++ dq ++ js "]"))
           (js "[" ++ dq ++ js "Why now?" ++ dq ++ js "," ++ dq
            ++ js "Who owns it?" ++ dq ++ js "," ++ dq ++ js "What else?" ++ dq ++ js "]")
           [JStr (js "Why now?"); JStr (js "Who owns it?"); JStr (js "What else?")] 3).
  all: vm_compute; reflexivity.
Defined.

Lemma planned_of_failure r :
  planner_failed r → Forall (λ q, is_text q = true) (planned r).
Proof.
  unfold planner_failed, planned, generateClarifyingQuestions. exec.
  destruct r as [e | | id | msgs | url | data]; exec; intros H; try constructor.
  destruct (text_of_body data) as [v |]; exec; [| constructor].
  unfold parse_questions. rewrite H.
  destruct v; exec; try constructor.
  apply Forall_fmap, Forall_true. reflexivity.
Qed.

Lemma numbered_texts i questions :
  Forall (λ q, is_text q = true) questions → is_Some (numbered i questions).
Proof.
  intros H. revert i. induction H as [| q rest Hq _ IH]; intros i; [by eexists |].
  destruct q; try discriminate. cbn [numbered toString mbind option_bind].
  destruct (IH (S i)) as [others ->]. by eexists.
Qed.

Lemma questionsMessage_texts questions :
  Forall (λ q, is_text q = true) questions → is_Some (questionsMessage questions).
Proof.
  intros H. unfold questionsMessage.
  destruct (numbered_texts 0 questions H) as [list ->]. by eexists.
Qed.

(** C10, as the code has it. [generateClarifyingQuestions] returns a list
    whatever the Draft Generator does. For a pasted text in stage [Started]
    whose two posts are delivered: whenever the questions message can be
    written from the returned list, the handler makes exactly three calls
    (its thanks, the planner call and the questions), the [catch] that
    composes a memo directly is not entered and the session stays, in
    [AskingQuestions]; and after a planner failure (a rejected call, a
    response without [content[0].text], a text that [JSON.parse] does not
    read) the returned list holds strings only, so that the message can be
    written and those three calls are all the handler makes. *)
Theorem planner_failure_never_reaches_catch env w l s message :
  dm_channel_type message = js "im" →
  conversations w !! dm_channel message = Some l →
  heap w !! l = Some s →
  stage s = Started →
  is_stop (dm_text message) = false →
  has_file message = false →
  is_rejected (env 0) = false →
  is_rejected (env 2) = false →
  (∀ env' context participants st,
     ∃ qs, fst (run env' (generateClarifyingQuestions context participants) st)
           = Returned qs)
  ∧ (∀ text,
       questionsMessage (with_final (planned (env 1))) = Some text →
       calls_of env (DirectMessageReceived message) w
       = [ ChatPostMessage (dm_channel message) None msg_thanks_context;
           AnthropicMessages 1000 (questions_prompt (render (dm_text message)) []);
           ChatPostMessage (dm_channel message) None text ]
       ∧ stage_of (world_after env (DirectMessageReceived message) w) (dm_channel message)
         = Some AskingQuestions)
  ∧ (planner_failed (env 1) →
     ∃ text,
       calls_of env (DirectMessageReceived message) w
       = [ ChatPostMessage (dm_channel message) None msg_thanks_context;
           AnthropicMessages 1000 (questions_prompt (render (dm_text message)) []);
           ChatPostMessage (dm_channel message) None text ]
       ∧ stage_of (world_after env (DirectMessageReceived message) w) (dm_channel message)
         = Some AskingQuestions).
Proof.
  intros Him Hc Hh Hs Hstop Hnofile H0 H2.
  assert (Hasked : ∀ text,
    questionsMessage (with_final (planned (env 1))) = Some text →
    calls_of env (DirectMessageReceived message) w
    = [ ChatPostMessage (dm_channel message) None msg_thanks_context;
        AnthropicMessages 1000 (questions_prompt (render (dm_text message)) []);
        ChatPostMessage (dm_channel message) None text ]
    ∧ stage_of (world_after env (DirectMessageReceived message) w) (dm_channel message)
      = Some AskingQuestions).
  { intros text Hq.
    destruct (pasted_text_asked env w l s message text Him Hc Hh Hs Hstop Hnofile H0 Hq H2)
      as [Hcalls Hsession].
    split; [exact Hcalls |]. unfold stage_of. rewrite Hsession. reflexivity. }
  split; [| split].
  - intros env' context participants st. rewrite planner_run. eauto.
  - exact Hasked.
  - intros Hfailed.
    destruct (questionsMessage_texts (with_final (planned (env 1)))) as [text Hq].
    { apply Forall_app. split; [by apply planned_of_failure |].
      repeat constructor. }
    exists text. by apply Hasked.
Qed.

Lemma planner_failure_never_reaches_catch_witness :
  let D := js "D1" in
  let s := mkSession (js "U1") Started (Some []) [] None None None None None in
  let w := mkWorld [s] {[ D := 0 ]} in
  let message := mkDM (js "im") D (Some (js "We switch vendors.")) None in
  let env := replies [Done; Rejected (mkError (js "Request failed with status code 529") None);
                      Done] in
  (∀ env' context participants st,
     ∃ qs, fst (run env' (generateClarifyingQuestions context participants) st)
           = Returned qs)
  ∧ (∀ text,
       questionsMessage (with_final (planned (env 1))) = Some text →
       calls_of env (DirectMessageReceived message) w
       = [ ChatPostMessage (dm_channel message) None msg_thanks_context;
           AnthropicMessages 1000 (questions_prompt (render (dm_text message)) []);
           ChatPostMessage (dm_channel message) None text ]
       ∧ stage_of (world_after env (DirectMessageReceived message) w) (dm_channel message)
         = Some AskingQuestions)
  ∧ (planner_failed (env 1) →
     ∃ text,
       calls_of env (DirectMessageReceived message) w
       = [ ChatPostMessage (dm_channel message) None msg_thanks_context;
           AnthropicMessages 1000 (questions_prompt (render (dm_text message)) []);
           ChatPostMessage (dm_channel message) None text ]
       ∧ stage_of (world_after env (DirectMessageReceived message) w) (dm_channel message)
         = Some AskingQuestions).
Proof.
  apply (planner_failure_never_reaches_catch
           (replies [Done; Rejected (mkError (js "Request failed with status code 529") None);
                     Done])
           (mkWorld [mkSession (js "U1") Started (Some []) [] None None None None None]
              {[ js "D1" := 0 ]})
           0 (mkSession (js "U1") Started (Some []) [] None None None None None)
           (mkDM (js "im") (js "D1") (Some (js "We switch vendors.")) None)).
  all: vm_compute; reflexivity.
Defined.

(** C10 as stated fails: the [catch] after the planner is entered without any
    planner failure. The Draft Generator answers with an empty array, the post
    of the questions is rejected, and the handler goes on to compose a memo
    directly and to delete the session. *)
Lemma planner_catch_entered :
  let D := js "D1" in
  let s := mkSession (js "U1") Started (Some []) [] None None None None None in
  let w := mkWorld [s] {[ D := 0 ]} in
  let message := mkDM (js "im") D (Some (js "We switch vendors.")) None in
  let env := replies [Done; Body (dg_body (js "[]"));
                      Rejected (mkError (js "An API error occurred: ratelimited")
                                  (Some (js "ratelimited")));
                      Done; Body (dg_body (js "# Vendors")); Done; Done; Done] in
  planned (env 1) = []
  ∧ calls_of env (DirectMessageReceived message) w
    = [ ChatPostMessage D None msg_thanks_context;
        AnthropicMessages 1000 (questions_prompt (js "We switch vendors.") []);
        ChatPostMessage D None
          (questions_header ++ js "1) " ++ finalQuestion ++ nl ++ nl ++ questions_footer);
        ChatPostMessage D None msg_trouble;
        AnthropicMessages 4000 (memo_prompt (js "We switch vendors.") []);
        ChatPostMessage D None msg_memo_intro;
        ChatPostMessage D None (js "*Vendors*" ++ nl ++ nl);
        ChatPostMessage D None msg_memo_closing ]
  ∧ stage_of (world_after env (DirectMessageReceived message) w) D = None.
Proof.
  vm_compute. repeat split.
Qed.

(** ** Where the context comes from (C4) *)



Lemma thread_shortcut_asked env w shortcut ts dm first others parent text :
  let humans := List.filter is_human (first :: others) in
  msg_thread_ts (sc_message shortcut) = Some ts → ts ≠ [] →
  parent_of humans = Some parent →
  is_rejected (env 0) = false →
  env 1 = Channel dm →
  env 3 = Replies (Some (first :: others)) →
  is_rejected (env 4) = false →
  is_rejected (env 5) = false →
  questionsMessage (with_final (planned (env 6))) = Some text →
  is_rejected (env 7) = false →
  session_of (world_after env (ShortcutInvoked shortcut) w) dm
  = Some (mkSession (sc_user shortcut) AskingQuestions (Some (transcript humans)) []
            (Some (with_final (planned (env 6)))) None (Some humans)
            (Some (sc_channel shortcut)) (Some ts)).
Proof.
  intros humans Hts Hne Hparent H0 H1 H3 H4 H5 Hq H7.
  unfold calls_of, world_after, handle, handler, shortcut_handler, fetch_thread.
  rewrite Hts. destruct ts as [| c t]; [done |]. clear Hne.
  exec. rewrite (settled_resolved _ H0). exec.
  rewrite H1. exec.
  assert (Hnotice : ∀ B (k : unit → Prog B),
    bind (try_catch (bind (settled (env 2)) (λ _, mret ())) (λ _, mret ())) k = k ()).
  { intros B k. destruct (env 2); reflexivity. }
  rewrite Hnotice. exec. rewrite H3. exec.
  rewrite (settled_resolved _ H4). exec.
  fold humans. rewrite Hparent. exec.
  rewrite (settled_resolved _ H5). exec.
  unfold shortcut_questions.
  rewrite !run_try_catch, run_bind, planner_run. unfold after_call. exec.
  rewrite lookup_insert_eq. exec.
  rewrite Hq. exec.
  rewrite (settled_resolved _ H7). exec.
  unfold session_of. cbn [conversations heap].
  rewrite lookup_insert_eq. cbn [mbind option_bind].
  rewrite list_lookup_alter_eq, lookup_app_r, Nat.sub_diag by lia.
  reflexivity.
Qed.









(** ** Stopping (C5) *)

(** The word stop, in any case and with white space around, ends the session
    of the channel, in any stage, once its acknowledgement is posted. *)
Lemma stop_ends_session env w l message :
  dm_channel_type message = js "im" →
  conversations w !! dm_channel message = Some l →
  is_stop (dm_text message) = true →
  is_rejected (env 0) = false →
  calls_of env (DirectMessageReceived message) w
  = [ChatPostMessage (dm_channel message) None msg_stopped]
  ∧ session_of (world_after env (DirectMessageReceived message) w) (dm_channel message)
    = None.
Proof.
  intros Him Hc Hstop H0.
  unfold calls_of, world_after, handle, handler, message_handler.
  rewrite Him.
  replace (jstring_eqb (js "im") (js "im")) with true
    by (symmetry; apply bool_decide_eq_true_2; reflexivity).
  exec. rewrite Hc. exec. rewrite Hstop. exec.
  rewrite (settled_resolved _ H0). exec.
  split; [reflexivity |].
  unfold session_of. cbn [conversations]. rewrite lookup_delete_eq. reflexivity.
Qed.

Example stop_is_trimmed_and_lowercased : is_stop (Some (js "STOP ")) = true.
Proof. vm_compute. reflexivity. Qed.

(** C5, at the input where the code departs from the claim. A shortcut on a
    single message opens the session and calls the planner; while that call is
    in flight the user sends the word stop: the acknowledgement is posted and
    the session is deleted. When the planner's reply arrives, the shortcut
    handler assigns to [conversations[dmChannelId].clarifyingQuestions], which
    throws as the session is gone; its [catch] then composes a memo and posts
    it to the channel. Each call below is listed with whether the channel had
    a session at that moment: the three posts of the memo are made after the
    deletion. *)
Theorem stop_during_planning_still_posts_memo :
  let D := js "D1" in
  let shortcut :=
    mkShortcut (mkMessage (Some (js "U2")) (Some (js "We switch vendors.")) None None
                  (Some (js "1700000000.000100")) None)
      (js "U1") (js "T1") (js "C1") in
  let stop := mkDM (js "im") D (Some (js "STOP ")) None in
  let schedule :=
    [ Arrive (ShortcutInvoked shortcut);
      Deliver 0 Done;                       (* the acknowledgement *)
      Deliver 0 (Channel D);                (* the DM is open *)
      Deliver 0 Done;                       (* the notice in the channel *)
      Deliver 0 Done; Deliver 0 Done; Deliver 0 Done;  (* what was captured *)
      Arrive (DirectMessageReceived stop);  (* the planner call is in flight *)
      Deliver 1 Done;                       (* stop is acknowledged *)
      Deliver 0 (Body (dg_body (js "[]"))); (* the planner answers *)
      Deliver 0 Done;
      Deliver 0 (Body (dg_body (js "# Vendors")));
      Deliver 0 Done; Deliver 0 Done; Deliver 0 Done ] in
  observed (play schedule boot) D
  = [ (Ack, false);
      (ConversationsOpen (js "U1"), false);
      (ChatPostMessage (js "C1") (Some (js "1700000000.000100"))
         (msg_thread_notice (js "U1") (dmLink (js "T1") D)), false);
      (ChatPostMessage D None (msg_single_context (js "C1")), true);
      (ChatPostMessage D None (msg_single_preview (js ">We switch vendors.")), true);
      (ChatPostMessage D None msg_analyzing, true);
      (AnthropicMessages 1000 (questions_prompt (js "We switch vendors.") []), true);
      (ChatPostMessage D None msg_stopped, true);
      (ChatPostMessage D None msg_trouble, false);
      (AnthropicMessages 4000 (memo_prompt (js "We switch vendors.") []), false);
      (ChatPostMessage D None msg_memo_intro, false);
      (ChatPostMessage D None (js "*Vendors*" ++ nl ++ nl), false);
      (ChatPostMessage D None msg_memo_closing, false) ]
  ∧ sys_tasks (play schedule boot) = []
  ∧ session_of (sys_world (play (take 9 schedule) boot)) D = None.
Proof.
  vm_compute. repeat split.
Qed.

(** The message handler does look whether the session is still there when
    the composer returns: with stop handled during that call, no memo is
    posted. *)
Example stop_during_composition_posts_no_memo :
  let D := js "D1" in
  let s := mkSession (js "U1") AskingQuestions (Some (js "We switch vendors.")) []
             (Some [JStr finalQuestion]) None None None None in
  let answer := mkDM (js "im") D (Some (js "Nothing to add.")) None in
  let stop := mkDM (js "im") D (Some (js "STOP ")) None in
  let schedule :=
    [ Arrive (DirectMessageReceived answer);
      Deliver 0 Done;                       (* the thanks; the composer is called *)
      Arrive (DirectMessageReceived stop);
      Deliver 1 Done;                       (* stop is acknowledged *)
      Deliver 0 (Body (dg_body (js "# Vendors"))) ] in
  map fst (observed (play schedule (mkSystem (mkWorld [s] {[ D := 0 ]}) [] [])) D)
  = [ ChatPostMessage D None msg_thanks_answers;
      AnthropicMessages 4000
        (clarified_memo_prompt (js "We switch vendors.") []
           (js "Question: " ++ finalQuestion ++ nl ++ js "Answer: Nothing to add."
            ++ nl ++ nl));
      ChatPostMessage D None msg_stopped ]
  ∧ sys_tasks (play schedule (mkSystem (mkWorld [s] {[ D := 0 ]}) [] [])) = [].
Proof.
  vm_compute. repeat split.
Qed.

(** ** The fallback of the planner (C2) *)

Lemma plain_unit_not_quote c : plain_unit c = true → (c =? c_quote)%N = false.
Proof. unfold plain_unit. destruct (c =? c_quote)%N; done. Qed.

Lemma plain_unit_not_backslash c : plain_unit c = true → (c =? c_backslash)%N = false.
Proof. unfold plain_unit. destruct (c =? c_quote)%N, (c =? c_backslash)%N; done. Qed.

Lemma plain_unit_printable c : plain_unit c = true → (c <? 32)%N = false.
Proof.
  unfold plain_unit. intros H. apply andb_true_iff in H as [_ H].
  apply N.leb_le in H. apply N.ltb_ge. exact H.
Qed.

(** Reading a string that needs no escape. *)
Lemma string_body_plain q rest :
  Forall (λ c, plain_unit c = true) q →
  string_body (q ++ c_quote :: rest) = Some (q, rest).
Proof.
  induction 1 as [| c q Hc _ IH]; cbn [app string_body].
  - reflexivity.
  - rewrite (plain_unit_not_quote c Hc), (plain_unit_not_backslash c Hc),
      (plain_unit_printable c Hc), IH. reflexivity.
Qed.

Lemma parse_bare_array q1 q2 :
  Forall (λ c, plain_unit c = true) q1 → Forall (λ c, plain_unit c = true) q2 →
  JSON_parse (bare_array q1 q2) = Some (JArr [JStr q1; JStr q2]).
Proof.
  intros H1 H2. unfold JSON_parse.
  assert (Hfuel : ∃ k, 2 * length (bare_array q1 q2) + 2 = 4 + k).
  { unfold bare_array, dq. cbn [app length].
    exists (2 * length (q1 ++ [c_quote] ++ [c_comma] ++ [c_quote] ++ q2 ++ [c_quote] ++ [c_rbracket]) + 2).
    cbn [app]. lia. }
  destruct Hfuel as [k ->].
  unfold bare_array, dq. cbn -[string_body].
  rewrite (string_body_plain q1 _ H1). cbn -[string_body].
  rewrite (string_body_plain q2 _ H2). cbn. reflexivity.
Qed.

Lemma text_of_dg_body text : text_of_body (dg_body text) = Some (JStr text).
Proof. reflexivity. Qed.

(** The regular expression. *)
Lemma upto_last_rbracket_none s :
  Forall (λ c, c ≠ c_rbracket) s → upto_last_rbracket s = None.
Proof.
  induction 1 as [| c s Hc _ IH]; cbn [upto_last_rbracket]; [reflexivity |].
  rewrite IH. by apply N.eqb_neq in Hc as ->.
Qed.

Lemma upto_last_rbracket_app a post :
  Forall (λ c, c ≠ c_rbracket) post →
  upto_last_rbracket (a ++ c_rbracket :: post) = Some a.
Proof.
  intros Hpost. induction a as [| c a IH]; cbn [app upto_last_rbracket].
  - rewrite (upto_last_rbracket_none post Hpost). reflexivity.
  - rewrite IH. reflexivity.
Qed.

Lemma match_brackets_app pre a post :
  Forall (λ c, c ≠ c_lbracket) pre → Forall (λ c, c ≠ c_rbracket) post →
  match_brackets (pre ++ c_lbracket :: a ++ c_rbracket :: post) = Some a.
Proof.
  intros Hpre Hpost. induction Hpre as [| c pre Hc _ IH]; cbn [app match_brackets].
  - cbn. by apply upto_last_rbracket_app.
  - apply N.eqb_neq in Hc as ->. exact IH.
Qed.

Lemma split_go_hit sep cur c t :
  startsWith sep (c :: t) = true →
  split_go sep 0 cur (c :: t) = rev cur :: split_go sep (length sep - 1) [] t.
Proof. intros H. cbn [split_go]. by rewrite H. Qed.

Lemma split_go_miss sep cur c t :
  startsWith sep (c :: t) = false →
  split_go sep 0 cur (c :: t) = split_go sep 0 (c :: cur) t.
Proof. intros H. cbn [split_go]. by rewrite H. Qed.

Lemma separator_needs_quote c t :
  plain_unit c = true → startsWith separator (c :: t) = false.
Proof.
  intros Hc. unfold separator, dq. cbn [app startsWith].
  by rewrite N.eqb_sym, (plain_unit_not_quote c Hc).
Qed.

Lemma split_go_no_quote cur q rest :
  Forall (λ c, plain_unit c = true) q →
  split_go separator 0 cur (q ++ rest) = split_go separator 0 (rev q ++ cur) rest.
Proof.
  intros Hq. revert cur. induction Hq as [| c q Hc _ IH]; intros cur; [reflexivity |].
  cbn [app]. rewrite split_go_miss by by apply separator_needs_quote.
  rewrite IH. cbn [rev]. by rewrite <- app_assoc.
Qed.

Lemma split_captured q1 q2 :
  plain_question q1 → plain_question q2 → q1 ≠ [c_comma] →
  split separator (dq ++ q1 ++ separator ++ q2 ++ dq) = [dq ++ q1; q2 ++ dq].
Proof.
  intros (Hne1 & Hp1 & _) (Hne2 & Hp2 & _) Hcomma.
  unfold split. change (dq ++ q1 ++ separator ++ q2 ++ dq)
    with (c_quote :: q1 ++ separator ++ q2 ++ dq).
  rewrite split_go_miss.
  2: { unfold separator at 1, dq at 1 2. cbn [app startsWith]. rewrite N.eqb_refl. cbn [andb].
       destruct Hp1 as [| c1 q1' Hc1 Hp1]; [done |]. cbn [app].
       destruct (N.eqb_spec c_comma c1) as [<- | _]; [| done]. cbn [andb].
       destruct Hp1 as [| c2 q1'' Hc2 _]; [done |]. cbn [app].
       by rewrite N.eqb_sym, (plain_unit_not_quote c2 Hc2). }
  rewrite (split_go_no_quote _ q1 _ Hp1).
  change (separator ++ q2 ++ dq) with (c_quote :: c_comma :: c_quote :: q2 ++ dq).
  rewrite split_go_hit by reflexivity.
  change (length separator - 1) with 2. cbn [split_go].
  rewrite rev_app_distr, rev_involutive. cbn [rev app]. f_equal.
  rewrite (split_go_no_quote _ q2 _ Hp2). unfold dq at 1.
  rewrite split_go_miss by reflexivity. cbn [split_go rev].
  rewrite app_nil_r, rev_involutive. reflexivity.
Qed.

Lemma plain_rev q :
  Forall (λ c, plain_unit c = true) q → Forall (λ c, plain_unit c = true) (rev q).
Proof. apply List.Forall_rev. Qed.

Lemma no_quote_second x q :
  Forall (λ c, plain_unit c = true) q → startsWith [x; c_quote] q = false.
Proof.
  intros [| c q' _ [| d q'' Hd _]]; cbn [startsWith]; try done.
  - apply andb_false_r.
  - rewrite (N.eqb_sym _ d), (plain_unit_not_quote d Hd). apply andb_false_r.
Qed.

Lemma strip_start_plain q :
  q ≠ [] → Forall (λ c, plain_unit c = true) q → strip_start dq q = q.
Proof.
  intros Hne [| c q' Hc _]; [done |]. unfold strip_start, dq. cbn [startsWith].
  by rewrite N.eqb_sym, (plain_unit_not_quote c Hc).
Qed.

Lemma strip_end_plain q :
  q ≠ [] → Forall (λ c, plain_unit c = true) q → strip_end dq q = q.
Proof.
  intros Hne Hq. unfold strip_end. change (rev dq) with dq.
  rewrite strip_start_plain; [apply rev_involutive | | by apply plain_rev].
  intros H. apply Hne. by rewrite <- (rev_involutive q), H.
Qed.

Lemma clean_plain q :
  plain_question q → clean_question (dq ++ q) = q ∧ clean_question (q ++ dq) = q.
Proof.
  intros (Hne & Hq & Htrim).
  assert (Hinner : trim (strip_end (dq ++ [c_rbracket]) (strip_start (c_lbracket :: dq) q)) = q).
  { unfold strip_start at 1. change (c_lbracket :: dq) with [c_lbracket; c_quote].
    rewrite (no_quote_second _ q Hq). unfold strip_end, strip_start.
    change (rev (dq ++ [c_rbracket])) with [c_rbracket; c_quote].
    rewrite (no_quote_second _ (rev q) (plain_rev q Hq)), rev_involutive. exact Htrim. }
  unfold clean_question. split.
  - unfold strip_start at 2. change (startsWith dq (dq ++ q)) with ((c_quote =? c_quote)%N && true).
    rewrite N.eqb_refl. cbn [andb]. change (drop (length dq) (dq ++ q)) with q.
    rewrite (strip_end_plain q Hne Hq). exact Hinner.
  - assert (Hstart : strip_start dq (q ++ dq) = q ++ dq).
    { destruct Hq as [| c q' Hc _]; [done |]. unfold strip_start, dq. cbn [app startsWith].
      by rewrite N.eqb_sym, (plain_unit_not_quote c Hc). }
    rewrite Hstart. unfold strip_end at 2. change (rev dq) with dq.
    rewrite rev_app_distr. change (rev dq ++ rev q) with (c_quote :: rev q).
    unfold strip_start at 2. change (startsWith dq (c_quote :: rev q))
      with ((c_quote =? c_quote)%N && true).
    rewrite N.eqb_refl. cbn [andb]. change (drop (length dq) (c_quote :: rev q)) with (rev q).
    rewrite rev_involutive. exact Hinner.
Qed.

Lemma extract_embedded pre post q1 q2 :
  plain_question q1 → plain_question q2 → q1 ≠ [c_comma] →
  Forall (λ c, c ≠ c_lbracket) pre → Forall (λ c, c ≠ c_rbracket) post →
  extract_questions (pre ++ bare_array q1 q2 ++ post) = [q1; q2].
Proof.
  intros H1 H2 Hcomma Hpre Hpost. unfold extract_questions, bare_array.
  replace (pre ++ ([c_lbracket] ++ dq ++ q1 ++ dq ++ [c_comma] ++ dq ++ q2 ++ dq ++ [c_rbracket]) ++ post)
    with (pre ++ c_lbracket :: (dq ++ q1 ++ separator ++ q2 ++ dq) ++ c_rbracket :: post).
  2: { unfold separator, dq. repeat (cbn [app]; rewrite <- app_assoc). reflexivity. }
  rewrite (match_brackets_app pre _ post Hpre Hpost).
  change (take 2 (filter (λ q, non_empty q = true)
                    (map clean_question
                       (split separator (dq ++ q1 ++ separator ++ q2 ++ dq))))
          = [q1; q2]).
  rewrite (split_captured q1 q2 H1 H2 Hcomma). cbn [map].
  destruct (clean_plain q1 H1) as [-> _]. destruct (clean_plain q2 H2) as [_ ->].
  destruct H1 as (Hne1 & _), H2 as (Hne2 & _).
  rewrite filter_cons_True by by destruct q1.
  rewrite filter_cons_True by by destruct q2.
  reflexivity.
Qed.


(** C2, as the code has it. The response is a two-element array of strings
    written without white space, inside prose, and is not valid JSON as a
    whole. When the two questions are plain (not empty, without quote,
    backslash or control character, without white space at either end), the
    first is not a lone comma, the prose before has no opening bracket and the
    prose after no closing bracket, the fallback returns the two questions, as
    [JSON.parse] does on the array alone. *)
Theorem fallback_agrees_on_plain_questions pre post q1 q2 :
  plain_question q1 → plain_question q2 → q1 ≠ [c_comma] →
  Forall (λ c, c ≠ c_lbracket) pre → Forall (λ c, c ≠ c_rbracket) post →
  JSON_parse (pre ++ bare_array q1 q2 ++ post) = None →
  planned (Body (dg_body (pre ++ bare_array q1 q2 ++ post))) = [JStr q1; JStr q2]
  ∧ planned (Body (dg_body (bare_array q1 q2))) = [JStr q1; JStr q2].
Proof.
  intros H1 H2 Hcomma Hpre Hpost Hnone. split.
  - unfold planned, generateClarifyingQuestions. exec.
    rewrite text_of_dg_body. exec. unfold parse_questions.
    cbn [toString mbind option_bind]. rewrite Hnone. exec.
    rewrite (extract_embedded pre post q1 q2 H1 H2 Hcomma Hpre Hpost). reflexivity.
  - destruct H1 as (_ & H1 & _), H2 as (_ & H2 & _).
    rewrite (planned_json _ _ _ (text_of_dg_body _) (parse_bare_array q1 q2 H1 H2)).
    reflexivity.
Qed.

Lemma fallback_agrees_on_plain_questions_witness :
  let pre := js "Here are my questions: " in
  let post := js " Let me know." in
  let q1 := js "Why now?" in
  let q2 := js "Who owns the migration?" in
  planned (Body (dg_body (pre ++ bare_array q1 q2 ++ post))) = [JStr q1; JStr q2]
  ∧ planned (Body (dg_body (bare_array q1 q2))) = [JStr q1; JStr q2].
Proof.
  apply (fallback_agrees_on_plain_questions
           (js "Here are my questions: ") (js " Let me know.")
           (js "Why now?") (js "Who owns the migration?")).
  - split; [discriminate |]. split; [| vm_compute; reflexivity].
    vm_compute. repeat constructor.
  - split; [discriminate |]. split; [| vm_compute; reflexivity].
    vm_compute. repeat constructor.
  - discriminate.
  - vm_compute. repeat constructor; discriminate.
  - vm_compute. repeat constructor; discriminate.
  - vm_compute. reflexivity.
Defined.

(** C2 as stated fails: the fallback does not decode what it extracts. A
    question with an escaped quote comes out of the fallback with its
    backslashes, and out of [JSON.parse] without them. *)
Lemma fallback_keeps_escapes :
  let q1 := js "What does " ++ [c_backslash] ++ dq ++ js "done" ++ [c_backslash] ++ dq
            ++ js " mean?" in
  let bare := [c_lbracket] ++ dq ++ q1 ++ dq ++ [c_comma] ++ dq ++ js "Who decides?"
              ++ dq ++ [c_rbracket] in
  let embedded := js "Sure: " ++ bare in
  JSON_parse embedded = None
  ∧ planned (Body (dg_body embedded)) = [JStr q1; JStr (js "Who decides?")]
  ∧ planned (Body (dg_body bare))
    = [JStr (js "What does " ++ dq ++ js "done" ++ dq ++ js " mean?");
       JStr (js "Who decides?")]
  ∧ planned (Body (dg_body embedded)) ≠ planned (Body (dg_body bare)).
Proof.
  vm_compute. repeat split. discriminate.
Qed.

(** ** Lines: [split] and [join] on the line feed *)

Lemma split_go_nonempty sep k cur s : split_go sep k cur s ≠ [].
Proof.
  revert k cur. induction s as [| c t IH]; intros k cur; cbn; [done |].
  destruct k; [| apply IH]. destruct (startsWith sep (c :: t)); [done | apply IH].
Qed.

Lemma join_cons sep p rest : rest ≠ [] → join sep (p :: rest) = p ++ sep ++ join sep rest.
Proof. destruct rest; done. Qed.

Lemma startsWith_nl c t : startsWith nl (c :: t) = (c_newline =? c)%N.
Proof. cbn. apply andb_true_r. Qed.

Lemma join_split_go cur s : join nl (split_go nl 0 cur s) = rev cur ++ s.
Proof.
  revert cur. induction s as [| c t IH]; intros cur.
  - cbn. by rewrite app_nil_r.
  - cbn [split_go]. rewrite startsWith_nl. destruct (N.eqb_spec c_newline c) as [<- | Hne].
    + rewrite join_cons by apply split_go_nonempty. cbn [length nl Nat.sub].
      rewrite IH. reflexivity.
    + rewrite IH. cbn. by rewrite <- app_assoc.
Qed.

Lemma join_split s : join nl (split nl s) = s.
Proof. apply join_split_go. Qed.

Lemma split_go_line cur a :
  no_newline a → split_go nl 0 cur a = [rev cur ++ a].
Proof.
  revert cur. induction a as [| c t IH]; intros cur H.
  - cbn. by rewrite app_nil_r.
  - cbn [split_go]. rewrite startsWith_nl.
    apply not_elem_of_cons in H as [Hc Ht].
    destruct (N.eqb_spec c_newline c) as [| _]; [done |].
    rewrite IH by done. cbn. by rewrite <- app_assoc.
Qed.

Lemma split_go_first cur a rest :
  no_newline a →
  split_go nl 0 cur (a ++ nl ++ rest) = (rev cur ++ a) :: split nl rest.
Proof.
  revert cur. induction a as [| c t IH]; intros cur H.
  - cbn. by rewrite app_nil_r.
  - cbn [app split_go]. rewrite startsWith_nl.
    apply not_elem_of_cons in H as [Hc Ht].
    destruct (N.eqb_spec c_newline c) as [| _]; [done |].
    rewrite IH by done. cbn. by rewrite <- app_assoc.
Qed.

Lemma split_first a rest :
  no_newline a → split nl (a ++ nl ++ rest) = a :: split nl rest.
Proof. apply (split_go_first []). Qed.

Lemma split_line a : no_newline a → split nl a = [a].
Proof. apply (split_go_line []). Qed.

Lemma split_join lines :
  lines ≠ [] → Forall no_newline lines → split nl (join nl lines) = lines.
Proof.
  induction lines as [| a rest IH]; [done |]. intros _ H.
  apply Forall_cons in H as [Ha Hrest]. destruct rest as [| b rest].
  - by apply split_line.
  - rewrite join_cons by done. rewrite split_first by done. by rewrite IH.
Qed.

Lemma split_go_head cur s : ∃ a rest, split_go nl 0 cur s = (rev cur ++ a) :: rest.
Proof.
  revert cur. induction s as [| c t IH]; intros cur.
  - exists [], []. cbn. by rewrite app_nil_r.
  - cbn [split_go]. destruct (startsWith nl (c :: t)).
    + exists [], (split_go nl (length nl - 1) [] t). by rewrite app_nil_r.
    + destruct (IH (c :: cur)) as (a & rest & ->). exists (c :: a), rest.
      cbn. by rewrite <- app_assoc.
Qed.

(** ** The quoted preview of the shortcut handler *)

(** X1. [blockquote], the [split], [map] and [join] that the shortcut
    handler applies to the text it shows back: a text made of lines comes out
    with the same lines in the same order, each with the quote mark in front;
    no line is lost, merged or cut. *)
Theorem blockquote_lines lines :
  lines ≠ [] → Forall no_newline lines →
  blockquote (join nl lines) = join nl (map (λ line, js ">" ++ line) lines).
Proof. intros Hne H. unfold blockquote. by rewrite split_join. Qed.

Lemma blockquote_lines_witness :
  blockquote (join nl [js "We switch vendors."; []; js "Objections?"])
  = join nl (map (λ line, js ">" ++ line) [js "We switch vendors."; []; js "Objections?"]).
Proof.
  apply (blockquote_lines [js "We switch vendors."; []; js "Objections?"]).
  - discriminate.
  - apply (proj1 (bool_decide_eq_true _)). vm_compute. reflexivity.
Defined.

(** ** White space *)

Lemma trimStart_idem s : trimStart (trimStart s) = trimStart s.
Proof.
  induction s as [| c t IH]; [done |]. cbn. destruct (is_space c) eqn:E; [done |].
  cbn. by rewrite E.
Qed.

Lemma trimStart_first s :
  match trimStart s with c :: _ => is_space c = false | [] => True end.
Proof.
  induction s as [| c t IH]; [done |]. cbn. destruct (is_space c) eqn:E; [done |]. done.
Qed.

Lemma trimStart_fixed s :
  match s with c :: _ => is_space c = false | [] => True end → trimStart s = s.
Proof. destruct s; [done |]. cbn. by intros ->. Qed.

Lemma trimEnd_idem s : trimEnd (trimEnd s) = trimEnd s.
Proof. unfold trimEnd. by rewrite rev_involutive, trimStart_idem. Qed.

Lemma trimStart_suffix s : ∃ a, s = a ++ trimStart s.
Proof.
  induction s as [| c t [a IH]]; [by exists [] |]. cbn. destruct (is_space c).
  - exists (c :: a). cbn. by rewrite <- IH.
  - by exists [].
Qed.

(** [trimEnd] keeps the first unit of a string that starts with no white
    space. *)
Lemma trimEnd_first c t : is_space c = false → ∃ t', trimEnd (c :: t) = c :: t'.
Proof.
  intros Hc. unfold trimEnd. cbn [rev].
  destruct (trimStart_suffix (rev t ++ [c])) as [a Ha].
  assert (Hne : trimStart (rev t ++ [c]) ≠ []).
  { clear Ha. induction (rev t) as [| x l IH]; cbn; [by rewrite Hc |].
    destruct (is_space x); done. }
  apply (f_equal (@rev N)) in Ha. rewrite rev_app_distr, rev_app_distr, rev_involutive in Ha.
  cbn in Ha. destruct (rev (trimStart (rev t ++ [c]))) as [| y l] eqn:E.
  - apply (f_equal (@rev N)) in E. rewrite rev_involutive in E. done.
  - cbn in Ha. injection Ha as -> _. by exists l.
Qed.

Lemma trim_idem s : trim (trim s) = trim s.
Proof.
  unfold trim. pose proof (trimStart_first s) as H.
  destruct (trimStart s) as [| c t] eqn:E; [done |].
  destruct (trimEnd_first c t H) as [t' Ht']. rewrite Ht'.
  rewrite (trimStart_fixed (c :: t')) by done. rewrite <- Ht'. apply trimEnd_idem.
Qed.

(** ** What the fallback of the planner returns *)

(** X2. The [catch (parseError)] branch of [generateClarifyingQuestions],
    on any text: it returns at most two strings, none of them empty, none with
    white space at either end. *)
Theorem extracted_questions_clean messageContent :
  length (extract_questions messageContent) ≤ 2
  ∧ Forall (λ q, q ≠ [] ∧ trim q = q) (extract_questions messageContent).
Proof.
  unfold extract_questions. destruct (match_brackets messageContent) as [[| c t] |].
  1, 3: split; [cbn; lia | constructor].
  split; [rewrite length_take; lia |].
  apply Forall_take, Forall_forall. intros q Hq.
  apply list_elem_of_filter in Hq as [Hne Hq].
  apply list_elem_of_fmap in Hq as [q0 [-> _]].
  split; [by destruct (clean_question q0) | unfold clean_question; apply trim_idem].
Qed.

(** ** The size of a downloaded file *)

Lemma cap_bounded raw : length (cap raw) ≤ N.to_nat maxLength + length truncation_note.
Proof.
  unfold cap. destruct (N.ltb_spec maxLength (N.of_nat (length raw))) as [H | H].
  - unfold substring0. rewrite length_app, length_take. lia.
  - lia.
Qed.

(** X3. Whatever the download returns (a string, or any other value, which
    is passed through [JSON.stringify]), the content that [handleFileUpload]
    keeps as context is never longer than [maxLength] code units plus the
    truncation note. *)
Theorem file_content_bounded data fileContent :
  file_content data = Some fileContent →
  length fileContent ≤ N.to_nat maxLength + length truncation_note.
Proof.
  unfold file_content. destruct (is_nullish data); [done |].
  destruct data; try (intros [= <-]; apply cap_bounded).
  all: destruct (JSON_stringify _); intros [= <-]; apply cap_bounded.
Qed.

Lemma file_content_bounded_witness :
  length (js "[" ++ dq ++ js "vendor" ++ dq ++ js "]")
  ≤ N.to_nat maxLength + length truncation_note.
Proof.
  apply (file_content_bounded (JArr [JStr (js "vendor")])
           (js "[" ++ dq ++ js "vendor" ++ dq ++ js "]")).
  vm_compute. reflexivity.
Defined.

(** ** The title of a memo *)

Lemma hash_space first :
  startsWith (js "# ") first || startsWith (js "#") first = startsWith (js "#") first.
Proof.
  destruct first as [| c t]; [done |].
  change (js "# ") with [35%N; 32%N]. change (js "#") with [35%N].
  cbn [startsWith]. destruct (35 =? c)%N; [| done].
  cbn [andb]. destruct t; [done |]. by rewrite orb_true_r.
Qed.

(** X4. [processMemoAndRespond] on a memo that does not start with the
    heading mark: the second message it posts is the memo as it is, whole and
    unchanged (no title is taken out and nothing is trimmed). *)
Theorem untitled_memo_posted_unchanged decisionMemo :
  startsWith (js "#") decisionMemo = false → memo_text decisionMemo = decisionMemo.
Proof.
  intros H. unfold memo_text, split_memo.
  destruct (split nl decisionMemo) as [| first rest] eqn:E; [done |].
  rewrite hash_space.
  assert (Hfirst : startsWith (js "#") first = false).
  { destruct decisionMemo as [| c t].
    - cbn in E. by injection E as <- _.
    - unfold split in E. cbn [split_go] in E. rewrite startsWith_nl in E.
      destruct (c_newline =? c)%N.
      + by injection E as <- _.
      + destruct (split_go_head [c] t) as (a & r & Ha). rewrite Ha in E.
        injection E as <- _. exact H. }
  by rewrite Hfirst.
Qed.

Lemma untitled_memo_posted_unchanged_witness :
  memo_text (js "*What is the choice you made?*" ++ nl ++ js "Vendor B.  ")
  = js "*What is the choice you made?*" ++ nl ++ js "Vendor B.  ".
Proof.
  apply (untitled_memo_posted_unchanged
           (js "*What is the choice you made?*" ++ nl ++ js "Vendor B.  ")).
  reflexivity.
Defined.

(** X5. [processMemoAndRespond] on a memo whose first line starts with the
    heading mark: the title is what follows the mark on that line, without the
    white space after the mark and without a colon (and the white space after
    it) at the end; the content is the rest of the memo, trimmed, line feeds
    inside it kept. The message posted is the title between asterisks, a blank
    line, and the content; when nothing is left of the title, the content
    alone. *)
Theorem heading_becomes_title heading body :
  no_newline heading →
  let title := strip_colon (trimStart heading) in
  memo_text (js "#" ++ heading ++ nl ++ body)
  = if non_empty title
    then js "*" ++ title ++ js "*" ++ nl ++ nl ++ trim body
    else trim body.
Proof.
  intros Hline. cbv zeta. unfold memo_text, split_memo.
  change (js "#" ++ heading ++ nl ++ body) with ((c_hash :: heading) ++ nl ++ body).
  rewrite split_first.
  2: { unfold no_newline. rewrite not_elem_of_cons. split; [done | exact Hline]. }
  rewrite hash_space.
  change (startsWith (js "#") (c_hash :: heading)) with true. cbv iota.
  rewrite join_split. cbn [strip_heading].
  change (c_hash =? c_hash)%N with true. cbv iota.
  by destruct (strip_colon (trimStart heading)).
Qed.

Lemma heading_becomes_title_witness :
  memo_text (js "#" ++ js " Decision: " ++ nl ++ nl ++ js "*Why?*" ++ nl ++ js "Cost." ++ nl)
  = js "*Decision*" ++ nl ++ nl ++ js "*Why?*" ++ nl ++ js "Cost.".
Proof.
  apply (heading_becomes_title (js " Decision: ")
           (nl ++ js "*Why?*" ++ nl ++ js "Cost." ++ nl)).
  apply (proj1 (bool_decide_eq_true _)). vm_compute. reflexivity.
Defined.

(** ** The message that asks the questions *)

Lemma startsWith_self p b : startsWith p (p ++ b) = true.
Proof. induction p as [| c t IH]; [done |]. cbn. by rewrite N.eqb_refl. Qed.

Lemma includes_self p b : includes p (p ++ b) = true.
Proof.
  pose proof (startsWith_self p b) as H.
  destruct (p ++ b); cbn [includes]; by rewrite H.
Qed.

Lemma numbered_lists i questions list k q :
  numbered i questions = Some list →
  questions !! k = Some q →
  ∃ question,
    toString q = Some question
    ∧ includes (decimal (S (i + k)) ++ js ") " ++ question ++ nl ++ nl) list = true.
Proof.
  revert i list k. induction questions as [| q0 rest IH]; intros i list k Hl H; [done |].
  cbn [numbered] in Hl.
  destruct (toString q0) as [question |] eqn:Hq0; [| done].
  destruct (numbered (S i) rest) as [others |] eqn:Hrest; [| done].
  cbn [mbind option_bind] in Hl. apply (inj Some) in Hl. subst list.
  destruct k as [| k].
  - injection H as <-. exists question. split; [exact Hq0 |].
    rewrite Nat.add_0_r.
    replace (decimal (S i) ++ js ") " ++ question ++ nl ++ nl ++ others)
      with ((decimal (S i) ++ js ") " ++ question ++ nl ++ nl) ++ others)
      by (by rewrite <- !app_assoc).
    apply includes_self.
  - destruct (IH (S i) others k Hrest H) as (question' & Hq & Hin).
    exists question'. split; [exact Hq |].
    rewrite !app_assoc. apply includes_app_r.
    replace (i + S k) with (S i + k) by lia. rewrite <- !app_assoc. exact Hin.
Qed.

(** X6. The message that asks the questions shows every question of the
    list it is built from: the question at position [k] (from zero) appears,
    as the template literal writes it, with the number [k + 1], a closing
    parenthesis and a blank line after it. *)
Theorem questions_are_numbered questions text k q :
  questionsMessage questions = Some text →
  questions !! k = Some q →
  ∃ question,
    toString q = Some question
    ∧ includes (decimal (S k) ++ js ") " ++ question ++ nl ++ nl) text = true.
Proof.
  intros Ht H. unfold questionsMessage in Ht.
  destruct (numbered 0 questions) as [list |] eqn:Hl; [| done].
  cbn [mbind option_bind] in Ht. apply (inj Some) in Ht. subst text.
  destruct (numbered_lists 0 questions list k q Hl H) as (question & Hq & Hin).
  exists question. split; [exact Hq |].
  by apply includes_app_r, includes_app_l.
Qed.

Lemma questions_are_numbered_witness :
  ∃ question,
    toString (JStr finalQuestion) = Some question
    ∧ includes (decimal 2 ++ js ") " ++ question ++ nl ++ nl)
        (questions_header
         ++ (decimal 1 ++ js ") " ++ js "Why now?" ++ nl ++ nl
             ++ decimal 2 ++ js ") " ++ finalQuestion ++ nl ++ nl ++ [])
         ++ questions_footer) = true.
Proof.
  apply (questions_are_numbered (with_final [JStr (js "Why now?")])
           (questions_header
            ++ (decimal 1 ++ js ") " ++ js "Why now?" ++ nl ++ nl
                ++ decimal 2 ++ js ") " ++ finalQuestion ++ nl ++ nl ++ [])
            ++ questions_footer)
           1 (JStr finalQuestion)).
  - reflexivity.
  - reflexivity.
Defined.

(** ** The command, start to end *)

(** X7. [/decisionmemo] when the request is acknowledged, the DM opens and
    the link is shown: the DM channel holds a new session in [Started] with
    an empty context, no questions and no answer, whatever it held before,
    and the welcome message is posted to it. The session is stored before the
    welcome message is posted: when that post is rejected the user is told
    that starting failed, and the session is there all the same. No other
    call is made. *)
Theorem command_starts_session env w command dm :
  is_rejected (env 0) = false →
  env 1 = Channel dm →
  is_rejected (env 2) = false →
  session_of (world_after env (CommandInvoked command) w) dm
  = Some (mkSession (cmd_user_id command) Started (Some []) [] None None None None None)
  ∧ calls_of env (CommandInvoked command) w
    = [ Ack; ConversationsOpen (cmd_user_id command);
        Respond (msg_command_link (dmLink (cmd_team_id command) dm));
        ChatPostMessage dm None msg_command_start ]
      ++ (if is_rejected (env 3) then [Respond msg_command_error] else []).
Proof.
  intros H0 H1 H2.
  assert (Hs : ∀ h : list Session,
    session_of
      (mkWorld (h ++ [mkSession (cmd_user_id command) Started (Some []) [] None None None
                        None None])
         (<[dm := length h]> (conversations w))) dm
    = Some (mkSession (cmd_user_id command) Started (Some []) [] None None None None None)).
  { intros h. unfold session_of. cbn [conversations heap]. rewrite lookup_insert_eq.
    cbn [mbind option_bind]. by rewrite lookup_app_r, Nat.sub_diag by lia. }
  unfold calls_of, world_after, handle, handler, command_handler.
  exec. rewrite (settled_resolved _ H0). exec. rewrite H1. exec.
  rewrite (settled_resolved _ H2). exec.
  destruct (is_rejected (env 3)) eqn:H3.
  - apply settled_rejected in H3 as [e ->]. exec.
    destruct (env 4); exec; (split; [apply Hs | reflexivity]).
  - rewrite (settled_resolved _ H3). exec. split; [apply Hs | reflexivity].
Qed.

Lemma command_starts_session_witness :
  let env := replies [Done; Channel (js "D1"); Done; Done] in
  let command := mkCommand (js "U1") (js "T1") in
  session_of (world_after env (CommandInvoked command) empty_world) (js "D1")
  = Some (mkSession (cmd_user_id command) Started (Some []) [] None None None None None)
  ∧ calls_of env (CommandInvoked command) empty_world
    = [ Ack; ConversationsOpen (cmd_user_id command);
        Respond (msg_command_link (dmLink (cmd_team_id command) (js "D1")));
        ChatPostMessage (js "D1") None msg_command_start ]
      ++ (if is_rejected (env 3) then [Respond msg_command_error] else []).
Proof.
  apply (command_starts_session (replies [Done; Channel (js "D1"); Done; Done]) empty_world
           (mkCommand (js "U1") (js "T1")) (js "D1")); reflexivity.
Defined.

(** X8. [/decisionmemo] when the DM cannot be opened, or the link cannot be
    shown: no session is created (the world is what it was), nothing is posted
    to any channel, and the last thing the handler does is to tell the user,
    in an ephemeral response, that starting failed. *)
Theorem command_failure_leaves_no_session env w command :
  is_rejected (env 0) = false →
  is_rejected (env 1) = true ∨ is_rejected (env 2) = true →
  world_after env (CommandInvoked command) w = w
  ∧ last (calls_of env (CommandInvoked command) w) = Some (Respond msg_command_error)
  ∧ Forall (λ c, match c with ChatPostMessage _ _ _ => False | _ => True end)
      (calls_of env (CommandInvoked command) w).
Proof.
  intros H0 H.
  unfold calls_of, world_after, handle, handler, command_handler.
  exec. rewrite (settled_resolved _ H0). exec.
  destruct (is_rejected (env 1)) eqn:H1.
  - apply settled_rejected in H1 as [e ->]. exec.
    destruct (env 2); exec; repeat split; repeat constructor.
  - destruct H as [H | H]; [done |]. rewrite (settled_resolved _ H1). exec.
    apply settled_rejected in H as [e2 H2].
    destruct (env 1) as [e1 | | id | msgs | url | data]; [done | | | | |]; exec;
      rewrite H2; exec.
    all: destruct (env 3); exec; repeat split; repeat constructor.
Qed.

Lemma command_failure_leaves_no_session_witness :
  let env := replies [Done; Rejected (mkError (js "user_not_found") None)] in
  let command := mkCommand (js "U1") (js "T1") in
  world_after env (CommandInvoked command) empty_world = empty_world
  ∧ last (calls_of env (CommandInvoked command) empty_world)
    = Some (Respond msg_command_error)
  ∧ Forall (λ c, match c with ChatPostMessage _ _ _ => False | _ => True end)
      (calls_of env (CommandInvoked command) empty_world).
Proof.
  apply (command_failure_leaves_no_session
           (replies [Done; Rejected (mkError (js "user_not_found") None)]) empty_world
           (mkCommand (js "U1") (js "T1"))); [reflexivity | left; reflexivity].
Defined.

(** ** Direct messages the handler passes over *)

Lemma run_calls_grow {A} env (p : Prog A) st :
  ∃ more, rs_calls (snd (run env p st)) = rs_calls st ++ more.
Proof.
  revert st. induction p as [| | ? c k IH | ? k IH | ? w k IH | ? c IHc k IH];
    intros st; cbn [run snd].
  - exists []. by rewrite app_nil_r.
  - exists []. by rewrite app_nil_r.
  - destruct (IH (env (rs_next st)) (mkRun (rs_world st) (rs_calls st ++ [c]) (S (rs_next st))))
      as [more ->].
    cbn [rs_calls]. exists (c :: more). by rewrite <- app_assoc.
  - apply IH.
  - destruct (IH (mkRun w (rs_calls st) (rs_next st))) as [more ->]. by exists more.
  - destruct (IHc st) as [m1 H1]. destruct (IH (snd (run env c st))) as [m2 ->].
    rewrite H1. exists (m1 ++ m2). by rewrite <- app_assoc.
Qed.

Lemma run_after_call {A} env (p : Prog A) w c n :
  rs_calls (snd (run env p (mkRun w [c] n))) ≠ [].
Proof.
  destruct (run_calls_grow env p (mkRun w [c] n)) as [more ->]. done.
Qed.

(** X9. The message handler makes no call at all exactly on the messages
    it passes over: those that are not from a DM channel, those on a channel
    without a session, and those, other than the word stop, on a channel whose
    session is in [Generating]. On these it changes nothing. On every other
    message it makes at least one call, whatever the replies. *)
Theorem silent_iff_ignored env w message :
  (calls_of env (DirectMessageReceived message) w = [] ↔ ignored w message)
  ∧ (ignored w message → world_after env (DirectMessageReceived message) w = w).
Proof.
  unfold calls_of, world_after, handle, handler, message_handler, ignored, jstring_eqb.
  destruct (decide (dm_channel_type message = js "im")) as [Him | Him].
  2: { rewrite (bool_decide_eq_false_2 _ Him). exec. split; [split |]; auto. }
  rewrite (bool_decide_eq_true_2 _ Him). exec.
  destruct (conversations w !! dm_channel message) as [l |] eqn:Hc; exec.
  2: { split; [split |]; auto. }
  destruct (is_stop (dm_text message)) eqn:Hstop; exec.
  { split; [split |].
    - intros H. by apply run_after_call in H.
    - intros [? | [? | (l' & s & _ & _ & _ & ?)]]; done.
    - intros [? | [? | (l' & s & _ & _ & _ & ?)]]; done. }
  destruct (heap w !! l) as [s |] eqn:Hh; exec.
  2: { split; [split |].
    - intros H. by apply run_after_call in H.
    - intros [? | [? | (l' & s & [= <-] & ? & _)]]; congruence.
    - intros [? | [? | (l' & s & [= <-] & ? & _)]]; congruence. }
  destruct (stage s) eqn:Hs.
  3: { exec. split; [split |]; auto. intros _. right. right. by exists l, s. }
  all: assert (Hnot : ¬ ∃ l' s', Some l = Some l' ∧ heap w !! l' = Some s'
                        ∧ stage s' = Generating ∧ false = false)
         by (intros (l' & s' & [= <-] & Hh' & Hs' & _); congruence).
  all: split; [split |]; try (intros [? | [? | ?]]; done).
  - destruct (dm_files message) as [[| file rest] |]; exec.
    2: { unfold handleFileUpload. destruct (file_filetype file) as [ft |]; exec.
         - destruct (negb _); exec; intros H; by apply run_after_call in H.
         - intros H; by apply run_after_call in H. }
    all: intros H; by apply run_after_call in H.
  - exec. intros H; by apply run_after_call in H.
Qed.

(** ** The word stop, acknowledged or not *)

Ltac enter_message Him Hc :=
  unfold calls_of, world_after, handle, handler, message_handler;
  rewrite Him;
  replace (jstring_eqb (js "im") (js "im")) with true
    by (symmetry; apply bool_decide_eq_true_2; reflexivity);
  exec; rewrite Hc; exec.

(** X10. The word stop on a channel that has a session, in any stage. The
    session is deleted after the acknowledgement is posted, not before: when
    the post is delivered the channel loses its session and nothing else
    changes; when the post is rejected the session stays as it was and the
    handler posts its general error message. *)
Theorem stop_deletes_after_acknowledgement env w l message :
  dm_channel_type message = js "im" →
  conversations w !! dm_channel message = Some l →
  is_stop (dm_text message) = true →
  let after := world_after env (DirectMessageReceived message) w in
  let calls := calls_of env (DirectMessageReceived message) w in
  if is_rejected (env 0)
  then after = w
       ∧ calls = [ ChatPostMessage (dm_channel message) None msg_stopped;
                   ChatPostMessage (dm_channel message) None msg_message_error ]
  else after = mkWorld (heap w) (delete (dm_channel message) (conversations w))
       ∧ calls = [ ChatPostMessage (dm_channel message) None msg_stopped ].
Proof.
  intros Him Hc Hstop. cbv zeta.
  enter_message Him Hc. rewrite Hstop. exec.
  destruct (is_rejected (env 0)) eqn:H0.
  - apply settled_rejected in H0 as [e ->]. exec.
    destruct (env 1); exec; split; (reflexivity || by destruct w).
  - rewrite (settled_resolved _ H0). exec. done.
Qed.

Lemma stop_deletes_after_acknowledgement_witness :
  let env := replies [Rejected (mkError (js "ratelimited") None)] in
  let w := mkWorld [mkSession (js "U1") Generating (Some []) [] None None None None None]
             {[ js "D1" := 0 ]} in
  let message := mkDM (js "im") (js "D1") (Some (js " Stop")) None in
  let after := world_after env (DirectMessageReceived message) w in
  let calls := calls_of env (DirectMessageReceived message) w in
  if is_rejected (env 0)
  then after = w
       ∧ calls = [ ChatPostMessage (dm_channel message) None msg_stopped;
                   ChatPostMessage (dm_channel message) None msg_message_error ]
  else after = mkWorld (heap w) (delete (dm_channel message) (conversations w))
       ∧ calls = [ ChatPostMessage (dm_channel message) None msg_stopped ].
Proof.
  apply (stop_deletes_after_acknowledgement
           (replies [Rejected (mkError (js "ratelimited") None)])
           (mkWorld [mkSession (js "U1") Generating (Some []) [] None None None None None]
              {[ js "D1" := 0 ]})
           0 (mkDM (js "im") (js "D1") (Some (js " Stop")) None)).
  all: vm_compute; reflexivity.
Defined.

(** ** A file that cannot be read *)

(** X11. A text file is uploaded in [Started] and [files.info] is
    rejected. The handler posts one message and stops: the one that asks for
    the [files:read] permission when the platform error is [missing_scope],
    the general file error otherwise. The session is untouched, so the user
    can paste the text instead. *)
Theorem files_info_failure_message env w l s message file rest filetype e :
  dm_channel_type message = js "im" →
  conversations w !! dm_channel message = Some l →
  heap w !! l = Some s →
  stage s = Started →
  is_stop (dm_text message) = false →
  dm_files message = Some (file :: rest) →
  file_filetype file = Some filetype →
  toLowerCase filetype ∈ acceptableTypes →
  env 0 = Rejected e →
  is_rejected (env 1) = false →
  calls_of env (DirectMessageReceived message) w
  = [ FilesInfo (file_id file);
      ChatPostMessage (dm_channel message) None
        (if bool_decide (err_data_error e = Some (js "missing_scope"))
         then msg_missing_scope else msg_file_error) ]
  ∧ world_after env (DirectMessageReceived message) w = w.
Proof.
  intros Him Hc Hh Hs Hstop Hf Hft Hok H0 H1.
  enter_message Him Hc. rewrite Hstop. exec. rewrite Hh. exec.
  rewrite Hs, Hf. unfold handleFileUpload. rewrite Hft.
  rewrite (bool_decide_eq_true_2 _ Hok). exec. rewrite H0. exec.
  destruct (bool_decide (err_data_error e = Some (js "missing_scope"))); exec.
  all: rewrite (settled_resolved _ H1); exec; split; (reflexivity || by destruct w).
Qed.

Lemma files_info_failure_message_witness :
  let e := mkError (js "An API error occurred: missing_scope") (Some (js "missing_scope")) in
  let env := replies [Rejected e] in
  let w := mkWorld [mkSession (js "U1") Started (Some []) [] None None None None None]
             {[ js "D1" := 0 ]} in
  let file := mkFile (js "F1") (Some (js "text")) in
  let message := mkDM (js "im") (js "D1") None (Some [file]) in
  calls_of env (DirectMessageReceived message) w
  = [ FilesInfo (file_id file);
      ChatPostMessage (dm_channel message) None
        (if bool_decide (err_data_error e = Some (js "missing_scope"))
         then msg_missing_scope else msg_file_error) ]
  ∧ world_after env (DirectMessageReceived message) w = w.
Proof.
  apply (files_info_failure_message
           (replies [Rejected (mkError (js "An API error occurred: missing_scope")
                                 (Some (js "missing_scope")))])
           (mkWorld [mkSession (js "U1") Started (Some []) [] None None None None None]
              {[ js "D1" := 0 ]})
           0 (mkSession (js "U1") Started (Some []) [] None None None None None)
           (mkDM (js "im") (js "D1") None (Some [mkFile (js "F1") (Some (js "text"))]))
           (mkFile (js "F1") (Some (js "text"))) [] (js "text")
           (mkError (js "An API error occurred: missing_scope") (Some (js "missing_scope")))).
  all: try reflexivity.
  apply (proj1 (bool_decide_eq_true _)). vm_compute. reflexivity.
Defined.

(** X12. A text file is uploaded in [Started], [files.info] answers, and
    the download is rejected. The error is thrown again as a new [Error] that
    carries the message only, so the handler always posts the general file
    error, also when the download failed for a missing permission. The session
    is untouched. *)
Theorem download_failure_message env w l s message file rest filetype url e :
  dm_channel_type message = js "im" →
  conversations w !! dm_channel message = Some l →
  heap w !! l = Some s →
  stage s = Started →
  is_stop (dm_text message) = false →
  dm_files message = Some (file :: rest) →
  file_filetype file = Some filetype →
  toLowerCase filetype ∈ acceptableTypes →
  env 0 = FileInfo url →
  env 1 = Rejected e →
  is_rejected (env 2) = false →
  calls_of env (DirectMessageReceived message) w
  = [ FilesInfo (file_id file); AxiosGet url;
      ChatPostMessage (dm_channel message) None msg_file_error ]
  ∧ world_after env (DirectMessageReceived message) w = w.
Proof.
  intros Him Hc Hh Hs Hstop Hf Hft Hok H0 H1 H2.
  enter_message Him Hc. rewrite Hstop. exec. rewrite Hh. exec.
  rewrite Hs, Hf. unfold handleFileUpload. rewrite Hft.
  rewrite (bool_decide_eq_true_2 _ Hok). exec. rewrite H0. exec. rewrite H1. exec.
  rewrite bool_decide_eq_false_2 by done. exec.
  rewrite (settled_resolved _ H2); exec; split; (reflexivity || by destruct w).
Qed.

Lemma download_failure_message_witness :
  let e := mkError (js "Request failed with status code 403") (Some (js "missing_scope")) in
  let env := replies [FileInfo (js "https://files.slack.com/F1"); Rejected e] in
  let w := mkWorld [mkSession (js "U1") Started (Some []) [] None None None None None]
             {[ js "D1" := 0 ]} in
  let file := mkFile (js "F1") (Some (js "text")) in
  let message := mkDM (js "im") (js "D1") None (Some [file]) in
  calls_of env (DirectMessageReceived message) w
  = [ FilesInfo (file_id file); AxiosGet (js "https://files.slack.com/F1");
      ChatPostMessage (dm_channel message) None msg_file_error ]
  ∧ world_after env (DirectMessageReceived message) w = w.
Proof.
  apply (download_failure_message
           (replies [FileInfo (js "https://files.slack.com/F1");
                     Rejected (mkError (js "Request failed with status code 403")
                                 (Some (js "missing_scope")))])
           (mkWorld [mkSession (js "U1") Started (Some []) [] None None None None None]
              {[ js "D1" := 0 ]})
           0 (mkSession (js "U1") Started (Some []) [] None None None None None)
           (mkDM (js "im") (js "D1") None (Some [mkFile (js "F1") (Some (js "text"))]))
           (mkFile (js "F1") (Some (js "text"))) [] (js "text")
           (js "https://files.slack.com/F1")
           (mkError (js "Request failed with status code 403") (Some (js "missing_scope")))).
  all: try reflexivity.
  apply (proj1 (bool_decide_eq_true _)). vm_compute. reflexivity.
Defined.

(** ** The answer and the memo *)

(** X13. The answer to the questions, when every post is delivered and
    the stored questions and the answer can be written into the prompt (none
    of them is an object with a [toString] key of its own). The handler
    thanks, calls the composer once with the stored context and the stored
    questions, each paired with what the answer array holds at its index,
    posts the introduction, the memo and the closing message, and deletes the
    session. The memo is the text of the Draft Generator, or the fixed
    fallback memo when the call is rejected. *)
Theorem answer_delivers_memo env w l s message questions pairs memo :
  dm_channel_type message = js "im" →
  conversations w !! dm_channel message = Some l →
  heap w !! l = Some s →
  stage s = AskingQuestions →
  clarifyingQuestions s = Some questions →
  clarification questions [from_option JStr JUndefined (dm_text message)] = Some pairs →
  is_stop (dm_text message) = false →
  is_rejected (env 0) = false →
  env 1 = Body (dg_body memo) ∨ is_rejected (env 1) = true ∧ memo = clarified_fallback_memo →
  is_rejected (env 2) = false →
  is_rejected (env 3) = false →
  is_rejected (env 4) = false →
  calls_of env (DirectMessageReceived message) w
  = [ ChatPostMessage (dm_channel message) None msg_thanks_answers;
      AnthropicMessages 4000 (clarified_memo_prompt (render (context s)) [] pairs);
      ChatPostMessage (dm_channel message) None msg_memo_intro;
      ChatPostMessage (dm_channel message) None (memo_text memo);
      ChatPostMessage (dm_channel message) None msg_memo_closing ]
  ∧ session_of (world_after env (DirectMessageReceived message) w) (dm_channel message)
    = None.
Proof.
  intros Him Hc Hh Hs Hq Hp Hstop H0 H1 H2 H3 H4.
  enter_message Him Hc. rewrite Hstop. exec. rewrite Hh. exec.
  rewrite Hs. exec. rewrite (settled_resolved _ H0). exec.
  rewrite !list_lookup_alter_eq, Hh. cbn [fmap option_fmap option_map]. exec.
  unfold generateDecisionMemoWithClarification. cbn [clarifyingQuestions set_stage set_answers].
  rewrite Hq. exec. cbn [clarifyingAnswers set_stage set_answers]. rewrite Hp. exec.
  assert (Hend : session_of
     (mkWorld (alter (set_stage Generating) l (alter (set_answers (dm_text message)) l (heap w)))
        (delete (dm_channel message) (conversations w))) (dm_channel message) = None).
  { unfold session_of. cbn [conversations]. by rewrite lookup_delete_eq. }
  destruct H1 as [H1 | [H1 ->]].
  - rewrite H1. exec. rewrite text_of_dg_body. exec. rewrite Hc. exec.
    unfold processMemoAndRespond. exec.
    rewrite (settled_resolved _ H2). exec.
    rewrite (settled_resolved _ H3). exec.
    rewrite (settled_resolved _ H4). exec.
    split; [reflexivity | exact Hend].
  - apply settled_rejected in H1 as [e ->]. exec. rewrite Hc. exec.
    unfold processMemoAndRespond. exec.
    rewrite (settled_resolved _ H2). exec.
    rewrite (settled_resolved _ H3). exec.
    rewrite (settled_resolved _ H4). exec.
    split; [reflexivity | exact Hend].
Qed.

Lemma answer_delivers_memo_witness :
  let env := replies [Done; Rejected (mkError (js "timeout") None)] in
  let s := mkSession (js "U1") AskingQuestions (Some (js "We switch vendors.")) []
             (Some [JStr finalQuestion]) None None None None in
  let w := mkWorld [s] {[ js "D1" := 0 ]} in
  let message := mkDM (js "im") (js "D1") (Some (js "Nothing to add.")) None in
  calls_of env (DirectMessageReceived message) w
  = [ ChatPostMessage (dm_channel message) None msg_thanks_answers;
      AnthropicMessages 4000
        (clarified_memo_prompt (render (context s)) []
           (js "Question: " ++ finalQuestion ++ nl ++ js "Answer: "
            ++ js "Nothing to add." ++ nl ++ nl));
      ChatPostMessage (dm_channel message) None msg_memo_intro;
      ChatPostMessage (dm_channel message) None (memo_text clarified_fallback_memo);
      ChatPostMessage (dm_channel message) None msg_memo_closing ]
  ∧ session_of (world_after env (DirectMessageReceived message) w) (dm_channel message)
    = None.
Proof.
  apply (answer_delivers_memo
           (replies [Done; Rejected (mkError (js "timeout") None)])
           (mkWorld [mkSession (js "U1") AskingQuestions (Some (js "We switch vendors.")) []
                       (Some [JStr finalQuestion]) None None None None]
              {[ js "D1" := 0 ]})
           0 (mkSession (js "U1") AskingQuestions (Some (js "We switch vendors.")) []
                (Some [JStr finalQuestion]) None None None None)
           (mkDM (js "im") (js "D1") (Some (js "Nothing to add.")) None)
           [JStr finalQuestion]
           (js "Question: " ++ finalQuestion ++ nl ++ js "Answer: "
            ++ js "Nothing to add." ++ nl ++ nl)
           clarified_fallback_memo).
  all: try reflexivity.
  right. split; reflexivity.
Defined.

(** X14. An answer on a session that is in [AskingQuestions] and holds no
    question list (the shortcut handler stores the session before it plans the
    questions, and may fail in between). The composer reads the length of the
    missing list inside its [try], so it returns the fallback memo without
    calling the Draft Generator: the user is thanked, receives the fallback
    memo, and the session is deleted. *)
Theorem answer_without_questions_gets_fallback env w l s message :
  dm_channel_type message = js "im" →
  conversations w !! dm_channel message = Some l →
  heap w !! l = Some s →
  stage s = AskingQuestions →
  clarifyingQuestions s = None →
  is_stop (dm_text message) = false →
  is_rejected (env 0) = false →
  is_rejected (env 1) = false →
  is_rejected (env 2) = false →
  is_rejected (env 3) = false →
  calls_of env (DirectMessageReceived message) w
  = [ ChatPostMessage (dm_channel message) None msg_thanks_answers;
      ChatPostMessage (dm_channel message) None msg_memo_intro;
      ChatPostMessage (dm_channel message) None (memo_text clarified_fallback_memo);
      ChatPostMessage (dm_channel message) None msg_memo_closing ]
  ∧ session_of (world_after env (DirectMessageReceived message) w) (dm_channel message)
    = None.
Proof.
  intros Him Hc Hh Hs Hq Hstop H0 H1 H2 H3.
  enter_message Him Hc. rewrite Hstop. exec. rewrite Hh. exec.
  rewrite Hs. exec. rewrite (settled_resolved _ H0). exec.
  rewrite !list_lookup_alter_eq, Hh. cbn [fmap option_fmap option_map]. exec.
  unfold generateDecisionMemoWithClarification. cbn [clarifyingQuestions set_stage set_answers].
  rewrite Hq. exec. rewrite Hc. exec.
  unfold processMemoAndRespond. exec.
  rewrite (settled_resolved _ H1). exec.
  rewrite (settled_resolved _ H2). exec.
  rewrite (settled_resolved _ H3). exec.
  split; [reflexivity |].
  unfold session_of. cbn [conversations]. by rewrite lookup_delete_eq.
Qed.

Lemma answer_without_questions_gets_fallback_witness :
  let env := replies [] in
  let s := mkSession (js "U1") AskingQuestions (Some []) [] None None (Some []) (Some (js "C1"))
             (Some (js "1700000000.000100")) in
  let w := mkWorld [s] {[ js "D1" := 0 ]} in
  let message := mkDM (js "im") (js "D1") (Some (js "Anyone there?")) None in
  calls_of env (DirectMessageReceived message) w
  = [ ChatPostMessage (dm_channel message) None msg_thanks_answers;
      ChatPostMessage (dm_channel message) None msg_memo_intro;
      ChatPostMessage (dm_channel message) None (memo_text clarified_fallback_memo);
      ChatPostMessage (dm_channel message) None msg_memo_closing ]
  ∧ session_of (world_after env (DirectMessageReceived message) w) (dm_channel message)
    = None.
Proof.
  apply (answer_without_questions_gets_fallback (replies [])
           (mkWorld [mkSession (js "U1") AskingQuestions (Some []) [] None None (Some [])
                       (Some (js "C1")) (Some (js "1700000000.000100"))]
              {[ js "D1" := 0 ]})
           0 (mkSession (js "U1") AskingQuestions (Some []) [] None None (Some [])
                (Some (js "C1")) (Some (js "1700000000.000100")))
           (mkDM (js "im") (js "D1") (Some (js "Anyone there?")) None)).
  all: reflexivity.
Defined.

(** X15. The answer arrives and the post that thanks for it is rejected.
    The stage was set to [Generating] before that post, and the general
    [catch] deletes nothing: the handler posts its general error message; the
    session stays, in [Generating], with the answer stored; no memo is
    composed; and from then on every message on the channel other than the
    word stop is passed over without a call. *)
Theorem failed_thanks_leaves_generating env w l s message e :
  dm_channel_type message = js "im" →
  conversations w !! dm_channel message = Some l →
  heap w !! l = Some s →
  stage s = AskingQuestions →
  is_stop (dm_text message) = false →
  env 0 = Rejected e →
  calls_of env (DirectMessageReceived message) w
  = [ ChatPostMessage (dm_channel message) None msg_thanks_answers;
      ChatPostMessage (dm_channel message) None msg_message_error ]
  ∧ session_of (world_after env (DirectMessageReceived message) w) (dm_channel message)
    = Some (set_stage Generating (set_answers (dm_text message) s))
  ∧ ∀ env' later,
      dm_channel later = dm_channel message →
      is_stop (dm_text later) = false →
      calls_of env' (DirectMessageReceived later)
        (world_after env (DirectMessageReceived message) w) = [].
Proof.
  intros Him Hc Hh Hs Hstop H0.
  assert (Hw : world_after env (DirectMessageReceived message) w
    = mkWorld (alter (set_stage Generating) l (alter (set_answers (dm_text message)) l (heap w)))
        (conversations w)
    ∧ calls_of env (DirectMessageReceived message) w
      = [ ChatPostMessage (dm_channel message) None msg_thanks_answers;
          ChatPostMessage (dm_channel message) None msg_message_error ]).
  { enter_message Him Hc. rewrite Hstop. exec. rewrite Hh. exec.
    rewrite Hs. exec. rewrite H0. exec. destruct (env 1); exec; done. }
  destruct Hw as [-> ->]. split; [reflexivity |].
  assert (Hl : heap (mkWorld (alter (set_stage Generating) l
                        (alter (set_answers (dm_text message)) l (heap w)))
                       (conversations w)) !! l
               = Some (set_stage Generating (set_answers (dm_text message) s))).
  { cbn [heap]. by rewrite !list_lookup_alter_eq, Hh. }
  split.
  - unfold session_of. cbn [conversations]. rewrite Hc. exact Hl.
  - intros env' later Hch Hstop'.
    unfold calls_of, handle, handler, message_handler, jstring_eqb.
    destruct (bool_decide (dm_channel_type later = js "im")); exec; [| reflexivity].
    rewrite Hch, Hc. exec. rewrite Hstop'. exec.
    rewrite !list_lookup_alter_eq, Hh. cbn [fmap option_fmap option_map]. exec. reflexivity.
Qed.

Lemma failed_thanks_leaves_generating_witness :
  let env := replies [Rejected (mkError (js "ratelimited") None)] in
  let s := mkSession (js "U1") AskingQuestions (Some (js "We switch vendors.")) []
             (Some [JStr finalQuestion]) None None None None in
  let w := mkWorld [s] {[ js "D1" := 0 ]} in
  let message := mkDM (js "im") (js "D1") (Some (js "Nothing to add.")) None in
  calls_of env (DirectMessageReceived message) w
  = [ ChatPostMessage (dm_channel message) None msg_thanks_answers;
      ChatPostMessage (dm_channel message) None msg_message_error ]
  ∧ session_of (world_after env (DirectMessageReceived message) w) (dm_channel message)
    = Some (set_stage Generating (set_answers (dm_text message) s))
  ∧ ∀ env' later,
      dm_channel later = dm_channel message →
      is_stop (dm_text later) = false →
      calls_of env' (DirectMessageReceived later)
        (world_after env (DirectMessageReceived message) w) = [].
Proof.
  apply (failed_thanks_leaves_generating
           (replies [Rejected (mkError (js "ratelimited") None)])
           (mkWorld [mkSession (js "U1") AskingQuestions (Some (js "We switch vendors.")) []
                       (Some [JStr finalQuestion]) None None None None]
              {[ js "D1" := 0 ]})
           0 (mkSession (js "U1") AskingQuestions (Some (js "We switch vendors.")) []
                (Some [JStr finalQuestion]) None None None None)
           (mkDM (js "im") (js "D1") (Some (js "Nothing to add.")) None)
           (mkError (js "ratelimited") None)).
  all: reflexivity.
Defined.

(** ** The shortcut: two more paths *)

Lemma notice_passes {B} r (k : unit → Prog B) :
  bind (try_catch (bind (settled r) (λ _, mret ())) (λ _, mret ())) k = k ().
Proof. destruct r; reflexivity. Qed.

(** X16. The shortcut on a thread whose messages all come from bots or
    carry a subtype. The list of human messages is empty, so is the stored
    context, and reading the parent of the thread throws: the user sees the
    context message in the DM and the error notice in the thread, the planner
    is not called, and the session stays on the DM channel, in
    [AskingQuestions], with an empty context and no question list. *)
Theorem bot_only_thread_leaves_session env w shortcut ts dm first others :
  msg_thread_ts (sc_message shortcut) = Some ts → ts ≠ [] →
  List.filter is_human (first :: others) = [] →
  is_rejected (env 0) = false →
  env 1 = Channel dm →
  env 3 = Replies (Some (first :: others)) →
  is_rejected (env 4) = false →
  calls_of env (ShortcutInvoked shortcut) w
  = [ Ack; ConversationsOpen (sc_user shortcut);
      ChatPostMessage (sc_channel shortcut) (Some ts)
        (msg_thread_notice (sc_user shortcut) (dmLink (sc_team shortcut) dm));
      ConversationsReplies (sc_channel shortcut) ts;
      ChatPostMessage dm None (msg_thread_context (sc_channel shortcut));
      ChatPostMessage (sc_channel shortcut) (Some ts) (msg_shortcut_error (sc_user shortcut)) ]
  ∧ session_of (world_after env (ShortcutInvoked shortcut) w) dm
    = Some (mkSession (sc_user shortcut) AskingQuestions (Some []) [] None None (Some [])
              (Some (sc_channel shortcut)) (Some ts)).
Proof.
  intros Hts Hne Hbots H0 H1 H3 H4.
  unfold calls_of, world_after, handle, handler, shortcut_handler, fetch_thread.
  rewrite Hts. destruct ts as [| c t]; [done |]. clear Hne.
  unfold or_opt. cbn [truthy].
  exec. rewrite (settled_resolved _ H0). exec.
  rewrite H1. exec. rewrite notice_passes. exec. rewrite H3. exec.
  rewrite Hbots. exec.
  rewrite (settled_resolved _ H4). exec.
  cbn [parent_of List.find head]. exec.
  destruct (env 5); exec.
  all: split; [reflexivity |].
  all: unfold session_of; cbn [conversations heap]; rewrite lookup_insert_eq;
    cbn [mbind option_bind]; by rewrite lookup_app_r, Nat.sub_diag by lia.
Qed.

Lemma bot_only_thread_leaves_session_witness :
  let ts := js "1700000000.000100" in
  let bot := mkMessage None (Some (js "Build passed.")) (Some (js "B1")) (Some (js "bot_message"))
               (Some ts) (Some ts) in
  let shortcut := mkShortcut bot (js "U1") (js "T1") (js "C1") in
  let env := replies [Done; Channel (js "D1"); Done; Replies (Some [bot])] in
  calls_of env (ShortcutInvoked shortcut) empty_world
  = [ Ack; ConversationsOpen (sc_user shortcut);
      ChatPostMessage (sc_channel shortcut) (Some ts)
        (msg_thread_notice (sc_user shortcut) (dmLink (sc_team shortcut) (js "D1")));
      ConversationsReplies (sc_channel shortcut) ts;
      ChatPostMessage (js "D1") None (msg_thread_context (sc_channel shortcut));
      ChatPostMessage (sc_channel shortcut) (Some ts) (msg_shortcut_error (sc_user shortcut)) ]
  ∧ session_of (world_after env (ShortcutInvoked shortcut) empty_world) (js "D1")
    = Some (mkSession (sc_user shortcut) AskingQuestions (Some []) [] None None (Some [])
              (Some (sc_channel shortcut)) (Some ts)).
Proof.
  apply (bot_only_thread_leaves_session
           (replies [Done; Channel (js "D1"); Done;
                     Replies (Some [mkMessage None (Some (js "Build passed.")) (Some (js "B1"))
                                      (Some (js "bot_message"))
                                      (Some (js "1700000000.000100"))
                                      (Some (js "1700000000.000100"))])])
           empty_world
           (mkShortcut (mkMessage None (Some (js "Build passed.")) (Some (js "B1"))
                          (Some (js "bot_message")) (Some (js "1700000000.000100"))
                          (Some (js "1700000000.000100")))
              (js "U1") (js "T1") (js "C1"))
           (js "1700000000.000100") (js "D1")
           (mkMessage None (Some (js "Build passed.")) (Some (js "B1"))
              (Some (js "bot_message")) (Some (js "1700000000.000100"))
              (Some (js "1700000000.000100")))
           []).
  all: try reflexivity.
  discriminate.
Defined.

(** X17. The shortcut on a message that is not in a thread, when every
    post is delivered and the questions message can be written from the
    planned list (no planned question is an object with a [toString] key of
    its own). The session stores the text with the mention of its author in
    front, while the planner is asked about the bare text; the preview quotes
    the bare text; the session holds the planned questions and the catch-all,
    and the message itself as the only raw message. The notice in the channel
    may fail or not. *)
Theorem single_message_shortcut_asks env w shortcut dm text :
  truthy (msg_thread_ts (sc_message shortcut)) = false →
  is_rejected (env 0) = false →
  env 1 = Channel dm →
  is_rejected (env 3) = false →
  is_rejected (env 4) = false →
  is_rejected (env 5) = false →
  questionsMessage (with_final (planned (env 6))) = Some text →
  is_rejected (env 7) = false →
  let message := sc_message shortcut in
  let messageText := or_else (msg_text message) [] in
  let ts := or_opt (msg_thread_ts message) (msg_ts message) in
  let questions := with_final (planned (env 6)) in
  calls_of env (ShortcutInvoked shortcut) w
  = [ Ack; ConversationsOpen (sc_user shortcut);
      ChatPostMessage (sc_channel shortcut) ts
        (msg_thread_notice (sc_user shortcut) (dmLink (sc_team shortcut) dm));
      ChatPostMessage dm None (msg_single_context (sc_channel shortcut));
      ChatPostMessage dm None (msg_single_preview (blockquote messageText));
      ChatPostMessage dm None msg_analyzing;
      AnthropicMessages 1000 (questions_prompt messageText []);
      ChatPostMessage dm None text ]
  ∧ session_of (world_after env (ShortcutInvoked shortcut) w) dm
    = Some (mkSession (sc_user shortcut) AskingQuestions
              (Some (mention (or_else (msg_user message) (js "Unknown")) ++ js ": "
                     ++ messageText))
              [] (Some questions) None (Some [message]) (Some (sc_channel shortcut)) ts).
Proof.
  intros Hts H0 H1 H3 H4 H5 Hq H7. cbv zeta.
  unfold calls_of, world_after, handle, handler, shortcut_handler, fetch_thread.
  assert (Hfetch : ∀ (k1 : N → jstring → Prog (list Message * jstring * bool)) k2,
    match msg_thread_ts (sc_message shortcut) with
    | Some (c :: t) => k1 c t
    | _ => k2
    end = k2).
  { intros k1 k2. by destruct (msg_thread_ts (sc_message shortcut)) as [[|] |]. }
  rewrite Hfetch. unfold or_opt. rewrite Hts.
  exec. rewrite (settled_resolved _ H0). exec.
  rewrite H1. exec. rewrite notice_passes. exec.
  rewrite (settled_resolved _ H3). exec.
  rewrite (settled_resolved _ H4). exec.
  rewrite (settled_resolved _ H5). exec.
  unfold shortcut_questions.
  rewrite !run_try_catch, run_bind, planner_run. unfold after_call. exec.
  rewrite lookup_insert_eq. exec.
  rewrite Hq. exec.
  rewrite (settled_resolved _ H7). exec.
  split; [reflexivity |].
  unfold session_of. cbn [conversations heap].
  rewrite lookup_insert_eq. cbn [mbind option_bind].
  rewrite list_lookup_alter_eq, lookup_app_r, Nat.sub_diag by lia.
  reflexivity.
Qed.

Lemma single_message_shortcut_asks_witness :
  let shortcut :=
    mkShortcut (mkMessage (Some (js "U2")) (Some (js "We switch vendors.")) None None
                  (Some (js "1700000000.000100")) None)
      (js "U1") (js "T1") (js "C1") in
  let env := replies [Done; Channel (js "D1"); Done; Done; Done; Done;
                      Body (dg_body (js "[]")); Done] in
  let message := sc_message shortcut in
  let messageText := or_else (msg_text message) [] in
  let ts := or_opt (msg_thread_ts message) (msg_ts message) in
  let questions := with_final (planned (env 6)) in
  calls_of env (ShortcutInvoked shortcut) empty_world
  = [ Ack; ConversationsOpen (sc_user shortcut);
      ChatPostMessage (sc_channel shortcut) ts
        (msg_thread_notice (sc_user shortcut) (dmLink (sc_team shortcut) (js "D1")));
      ChatPostMessage (js "D1") None (msg_single_context (sc_channel shortcut));
      ChatPostMessage (js "D1") None (msg_single_preview (blockquote messageText));
      ChatPostMessage (js "D1") None msg_analyzing;
      AnthropicMessages 1000 (questions_prompt messageText []);
      ChatPostMessage (js "D1") None
        (questions_header ++ (decimal 1 ++ js ") " ++ finalQuestion ++ nl ++ nl ++ [])
         ++ questions_footer) ]
  ∧ session_of (world_after env (ShortcutInvoked shortcut) empty_world) (js "D1")
    = Some (mkSession (sc_user shortcut) AskingQuestions
              (Some (mention (or_else (msg_user message) (js "Unknown")) ++ js ": "
                     ++ messageText))
              [] (Some questions) None (Some [message]) (Some (sc_channel shortcut)) ts).
Proof.
  apply (single_message_shortcut_asks
           (replies [Done; Channel (js "D1"); Done; Done; Done; Done;
                     Body (dg_body (js "[]")); Done])
           empty_world
           (mkShortcut (mkMessage (Some (js "U2")) (Some (js "We switch vendors.")) None None
                          (Some (js "1700000000.000100")) None)
              (js "U1") (js "T1") (js "C1"))
           (js "D1")
           (questions_header ++ (decimal 1 ++ js ") " ++ finalQuestion ++ nl ++ nl ++ [])
            ++ questions_footer)).
  all: reflexivity.
Defined.

(** ** Invariants of the message handler *)

Section MessageInvariant.
Context (I : World → Prop) (held : nat → Prop) (message : DirectMessage).
Context (Hget : ∀ w l, I w → conversations w !! dm_channel message = Some l → held l).
Context (Hdelete : ∀ w, I w →
           I (mkWorld (heap w) (delete (dm_channel message) (conversations w)))).
Context (Hstage : ∀ w l st, held l → I w →
           I (mkWorld (alter (set_stage st) l (heap w)) (conversations w))).
Context (Hcontext : ∀ w l c, held l → I w →
           I (mkWorld (alter (set_context c) l (heap w)) (conversations w))).
Context (Hanswers : ∀ w l a, held l → I w →
           I (mkWorld (alter (set_answers a) l (heap w)) (conversations w))).
Context (Hquestions : ∀ w l questions, held l → length questions ≤ 2 → I w →
           I (mkWorld (alter (set_questions (with_final questions)) l (heap w))
                (conversations w))).

Lemma direct_memo_preserves l :
  wp I (ask_failed l (dm_channel message)) (λ _, True).
Proof using Hdelete.
  unfold ask_failed, memo_without_questions.
  apply wp_bind, wp_post. apply wp_seq; [apply wp_try_catch |].
  - apply wp_bind, wp_fmap, wp_obj_read. intros w s _ _.
    apply wp_bind, wp_memo. intros v. by apply wp_process.
  - intros _. by apply wp_post.
  - by apply wp_conv_delete.
Qed.

Lemma ask_questions_preserves l channel :
  held l → wp I (ask_questions l channel) (λ _, True).
Proof using Hquestions.
  intros Hl. unfold ask_questions. apply wp_bind, wp_obj_read. intros w s Hw Hs.
  apply wp_bind, wp_planner. intros qs Hqs.
  apply wp_bind, wp_obj_update; [intros w'; by apply Hquestions |].
  apply wp_bind, wp_converted. intros text _. by apply wp_post.
Qed.

Lemma handleFileUpload_preserves l file :
  held l → wp I (handleFileUpload l message file) (λ _, True).
Proof using Hdelete Hstage Hcontext Hquestions.
  intros Hl. unfold handleFileUpload.
  apply wp_try_catch; [| intros e; destruct (bool_decide _); by apply wp_post].
  destruct (file_filetype file) as [filetype |]; [| done].
  destruct (negb _); [by apply wp_post |].
  apply wp_bind, wp_await. intros fileInfo.
  apply wp_try_catch; [| done].
  apply wp_bind. unfold url_private. destruct fileInfo; try done. cbn [wp mret Prog_ret].
  apply wp_bind, wp_await. intros response.
  destruct (file_content (body_of response)) as [fileContent |]; [| done].
  apply wp_bind, wp_obj_update; [intros w; by apply Hcontext |].
  apply wp_bind, wp_post.
  apply wp_try_catch; [| intros _; by apply direct_memo_preserves].
  apply wp_bind, wp_obj_update; [intros w; by apply Hstage |].
  by apply ask_questions_preserves.
Qed.

Lemma message_handler_preserves : wp I (message_handler message) (λ _, True).
Proof using Hget Hdelete Hstage Hcontext Hanswers Hquestions.
  unfold message_handler. destruct (negb _); [done |].
  apply wp_bind, wp_conv_get. intros w1 Hw1.
  destruct (conversations w1 !! dm_channel message) as [l |] eqn:Hl; [| done].
  apply (Hget _ _ Hw1) in Hl.
  apply wp_try_catch; [| intros _; by apply wp_post].
  destruct (is_stop (dm_text message)).
  { apply wp_bind, wp_post. by apply wp_conv_delete. }
  apply wp_bind, wp_obj_read. intros w s Hw Hs.
  destruct (stage s).
  - destruct (dm_files message) as [[| file rest] |].
    2: { by apply handleFileUpload_preserves. }
    all: apply wp_bind, wp_obj_update; [intros w'; by apply Hcontext |];
      apply wp_bind, wp_obj_update; [intros w'; by apply Hstage |];
      apply wp_bind, wp_post;
      apply wp_try_catch;
        [by apply ask_questions_preserves | intros _; by apply direct_memo_preserves].
  - apply wp_bind, wp_obj_update; [intros w'; by apply Hanswers |].
    apply wp_bind, wp_obj_update; [intros w'; by apply Hstage |].
    apply wp_bind, wp_post. apply wp_bind.
    apply (wp_mono _ _ (λ _, True)); [| apply wp_try_catch].
    + intros [] _; [| done]. by apply wp_conv_delete.
    + apply wp_bind, wp_obj_read. intros w' s' _ _.
      apply wp_bind, wp_clarified_memo. intros memo.
      apply wp_bind, wp_conv_get. intros w'' _.
      destruct (conversations w'' !! dm_channel message); [| done].
      apply wp_bind, wp_process. done.
    + intros _. apply wp_bind, wp_post. done.
  - done.
Qed.

End MessageInvariant.

(** ** Handlers in flight together *)

Section Scheduler.
Context (I : World → Prop).

Lemma settle_ok p : ∀ s, wp I p (λ _, True) → system_ok I s → system_ok I (settle p s).
Proof.
  revert p. fix IH 1. intros [a | e | c k | k | w k | c k] s; cbn [settle wp].
  - auto.
  - auto.
  - intros H [Hw Ht]. split; [exact Hw |]. cbn [sys_tasks].
    apply Forall_app. split; [exact Ht |]. constructor; [| constructor]. exact H.
  - intros H [Hw Ht]. apply IH; [by apply H | by split].
  - intros [Hw H] [_ Ht]. apply IH; [exact H | by split].
  - intros [Hc H] Hs. apply IH; [exact H |]. by apply IH.
Qed.

Lemma deliver_ok i r s : system_ok I s → system_ok I (deliver i r s).
Proof.
  intros [Hw Ht]. unfold deliver.
  destruct (sys_tasks s !! i) as [t |] eqn:E; [| by split].
  apply settle_ok.
  - eapply Forall_lookup_1 in Ht; [| exact E]. apply Ht.
  - split; [exact Hw |]. cbn [sys_tasks]. by apply Forall_delete.
Qed.

Lemma play_ok schedule s :
  (∀ e, wp I (handler e) (λ _, True)) → system_ok I s → system_ok I (play schedule s).
Proof.
  intros Hh. revert s. induction schedule as [| x rest IH]; intros s Hs; [done |].
  cbn [play fold_left]. apply IH. destruct x as [e | i r]; cbn [step].
  - apply settle_ok; [apply Hh | exact Hs].
  - by apply deliver_ok.
Qed.

End Scheduler.

Lemma wp_conv_new I ch s (Q : nat → Prop) :
  (∀ w, I w → I (mkWorld (heap w ++ [s]) (<[ch := length (heap w)]> (conversations w)))) →
  (∀ l, Q l) → wp I (conv_new ch s) Q.
Proof. intros H HQ w Hw. cbn. auto. Qed.

Lemma wp_conv_update I ch f (Q : unit → Prop) :
  (∀ w l, I w → I (mkWorld (alter f l (heap w)) (conversations w))) → Q () →
  wp I (conv_update ch f) Q.
Proof.
  intros H HQ. unfold conv_update. apply wp_bind, wp_conv_get. intros w Hw.
  destruct (conversations w !! ch) as [l |]; [| done].
  apply wp_obj_update; [| done]. intros w'. apply H.
Qed.

Lemma fetch_thread_pure I shortcut (Q : list Message * jstring * bool → Prop) :
  (∀ x, Q x) → wp I (fetch_thread shortcut) Q.
Proof.
  intros H. unfold fetch_thread.
  destruct (msg_thread_ts (sc_message shortcut)) as [[| c t] |]; try apply H.
  apply wp_try_catch; [| intros _; apply H].
  apply wp_bind, wp_await. intros r. destruct r as [| | | [[|] |] | |]; apply H.
Qed.

(** A property of the world that every write of the three handlers keeps is
    kept by every schedule. The handlers create sessions without a question
    list, delete entries of [conversations], and update a session in four
    ways. *)
Section HandlerInvariant.
Context (I : World → Prop).
Context (Hnew : ∀ w ch s, clarifyingQuestions s = None → I w →
           I (mkWorld (heap w ++ [s]) (<[ch := length (heap w)]> (conversations w)))).
Context (Hdelete : ∀ w ch, I w → I (mkWorld (heap w) (delete ch (conversations w)))).
Context (Hstage : ∀ w l st, I w →
           I (mkWorld (alter (set_stage st) l (heap w)) (conversations w))).
Context (Hcontext : ∀ w l c, I w →
           I (mkWorld (alter (set_context c) l (heap w)) (conversations w))).
Context (Hanswers : ∀ w l a, I w →
           I (mkWorld (alter (set_answers a) l (heap w)) (conversations w))).
Context (Hquestions : ∀ w l questions, length questions ≤ 2 → I w →
           I (mkWorld (alter (set_questions (with_final questions)) l (heap w))
                (conversations w))).

Lemma command_handler_preserves command :
  wp I (command_handler command) (λ _, True).
Proof using Hnew.
  unfold command_handler. apply wp_bind, wp_await. intros _.
  apply wp_try_catch; [| intros _; by apply wp_bind, wp_await].
  apply wp_bind, wp_await. intros r. apply wp_bind.
  unfold channel_id. destruct r; try done. cbn [wp mret Prog_ret].
  apply wp_bind, wp_await. intros _.
  apply wp_bind, wp_conv_new; [intros w; by apply Hnew |]. intros _.
  by apply wp_post.
Qed.

Lemma shortcut_questions_preserves dm content :
  wp I (shortcut_questions dm content) (λ _, True).
Proof using Hdelete Hquestions.
  unfold shortcut_questions. apply wp_try_catch.
  - apply wp_bind, wp_planner. intros qs Hqs.
    apply wp_bind, wp_conv_update.
    + intros w l. by apply Hquestions.
    + apply wp_bind, wp_converted. intros text _. by apply wp_post.
  - intros _. by apply memo_without_questions_keeps.
Qed.

Lemma shortcut_handler_preserves shortcut :
  wp I (shortcut_handler shortcut) (λ _, True).
Proof using Hnew Hdelete Hquestions.
  unfold shortcut_handler. apply wp_bind, wp_await. intros _.
  apply wp_try_catch.
  2: { intros _. destruct (truthy _); [| done].
       apply wp_try_catch; [| done]. by apply wp_bind, wp_await. }
  apply wp_bind, wp_await. intros r. apply wp_bind.
  unfold channel_id. destruct r; try done. cbn [wp mret Prog_ret].
  apply wp_seq.
  { apply wp_try_catch; [| done]. by apply wp_bind, wp_await. }
  apply wp_bind, fetch_thread_pure. intros [[threadMessages threadContent] failed].
  apply wp_bind, wp_conv_new; [intros w; by apply Hnew |]. intros _.
  destruct (truthy _ && failed).
  { apply wp_bind, wp_post. apply wp_conv_delete; [| done]. intros w. apply Hdelete. }
  destruct (truthy _ && negb failed).
  - apply wp_bind, wp_post. destruct (parent_of threadMessages); [| done].
    apply wp_bind, wp_post. apply shortcut_questions_preserves.
  - apply wp_bind, wp_post. apply wp_bind, wp_post. apply wp_bind, wp_post.
    apply shortcut_questions_preserves.
Qed.

Lemma handlers_preserve e : wp I (handler e) (λ _, True).
Proof using Hnew Hdelete Hstage Hcontext Hanswers Hquestions.
  destruct e as [command | shortcut | message]; cbn [handler].
  - apply command_handler_preserves.
  - apply shortcut_handler_preserves.
  - apply (message_handler_preserves I (λ _, True)); auto.
Qed.

Lemma reachable_preserves schedule : I empty_world → I (sys_world (play schedule boot)).
Proof using Hnew Hdelete Hstage Hcontext Hanswers Hquestions.
  intros H0. apply (play_ok I schedule boot handlers_preserve). by split.
Qed.

End HandlerInvariant.

(** ** The question list, whatever the interleaving *)

Lemma questions_ok_alter f l w :
  (∀ s, questions_ok s → questions_ok (f s)) →
  sessions_ok w → sessions_ok (mkWorld (alter f l (heap w)) (conversations w)).
Proof.
  intros Hf Hw. unfold sessions_ok in *. cbn [heap].
  apply Forall_lookup. intros i s Hs.
  destruct (decide (l = i)) as [<- | Hne].
  - rewrite list_lookup_alter_eq in Hs.
    destruct (heap w !! l) as [s0 |] eqn:E; [| done]. injection Hs as <-.
    apply Hf. by eapply Forall_lookup_1.
  - rewrite list_lookup_alter_ne in Hs by done. by eapply Forall_lookup_1.
Qed.

Lemma questions_ok_final questions s :
  length questions ≤ 2 → questions_ok (set_questions (with_final questions) s).
Proof.
  intros H. unfold questions_ok. cbn [clarifyingQuestions set_questions].
  rewrite with_final_length, with_final_last. split; [lia | done].
Qed.

Lemma sessions_ok_new w ch s :
  clarifyingQuestions s = None → sessions_ok w →
  sessions_ok (mkWorld (heap w ++ [s]) (<[ch := length (heap w)]> (conversations w))).
Proof.
  intros Hs Hw. unfold sessions_ok in *. cbn [heap]. apply Forall_app. split; [done |].
  constructor; [| constructor]. unfold questions_ok. by rewrite Hs.
Qed.

Lemma reachable_sessions_ok schedule : sessions_ok (sys_world (play schedule boot)).
Proof.
  apply reachable_preserves.
  - apply sessions_ok_new.
  - done.
  - intros w l st. by apply questions_ok_alter.
  - intros w l c. by apply questions_ok_alter.
  - intros w l a. by apply questions_ok_alter.
  - intros w l qs Hqs. apply questions_ok_alter. intros s _. by apply questions_ok_final.
  - constructor.
Qed.

(** X18. From the start of the process, with commands, shortcuts and
    direct messages arriving in any order, on any channels, and the replies of
    the platform and of the Draft Generator coming back in any order and with
    any content, also while other handlers are waiting: a session that has a
    question list has at most three questions, and the last one is the
    catch-all. *)
Theorem sessions_hold_at_most_three_questions schedule ch s questions :
  session_of (sys_world (play schedule boot)) ch = Some s →
  clarifyingQuestions s = Some questions →
  length questions ≤ 3 ∧ last questions = Some (JStr finalQuestion).
Proof.
  intros Hs Hq. pose proof (reachable_sessions_ok schedule) as H.
  unfold session_of in Hs. destruct (conversations _ !! ch) as [l |]; [| done].
  cbn in Hs. eapply Forall_lookup_1 in H; [| exact Hs].
  unfold questions_ok in H. by rewrite Hq in H.
Qed.

Lemma sessions_hold_at_most_three_questions_witness :
  let questions := [JStr (js "Why now?"); JStr finalQuestion] in
  length questions ≤ 3 ∧ last questions = Some (JStr finalQuestion).
Proof.
  apply (sessions_hold_at_most_three_questions
           [ Arrive (CommandInvoked (mkCommand (js "U1") (js "T1")));
             Deliver 0 Done; Deliver 0 (Channel (js "D1")); Deliver 0 Done; Deliver 0 Done;
             Arrive (DirectMessageReceived
                       (mkDM (js "im") (js "D1") (Some (js "We switch vendors.")) None));
             Deliver 0 Done;
             Deliver 0 (Body (dg_body (js "[" ++ dq ++ js "Why now?" ++ dq ++ js "]"))) ]
           (js "D1")
           (mkSession (js "U1") AskingQuestions (Some (js "We switch vendors.")) []
              (Some [JStr (js "Why now?"); JStr finalQuestion]) None None None None)
           [JStr (js "Why now?"); JStr finalQuestion]).
  - vm_compute. reflexivity.
  - reflexivity.
Defined.

(** ** One channel at a time *)

Lemma unshared_alter f l w :
  unshared w → unshared (mkWorld (alter f l (heap w)) (conversations w)).
Proof. intros H ch l' Hl'. cbn [heap]. rewrite length_alter. by apply H. Qed.

Lemma unshared_new w ch s :
  unshared w →
  unshared (mkWorld (heap w ++ [s]) (<[ch := length (heap w)]> (conversations w))).
Proof.
  intros H ch1 l. cbn [heap conversations]. rewrite length_app. cbn [length].
  destruct (decide (ch1 = ch)) as [-> | Hne].
  - rewrite lookup_insert_eq. intros [= <-]. split; [lia |].
    intros ch2. destruct (decide (ch2 = ch)) as [-> | Hne2]; [done |].
    rewrite lookup_insert_ne by done. intros H2. apply H in H2 as [H2 _]. lia.
  - rewrite lookup_insert_ne by done. intros H1. pose proof (H _ _ H1) as [Hlt Hinj].
    split; [lia |]. intros ch2. destruct (decide (ch2 = ch)) as [-> | Hne2].
    + rewrite lookup_insert_eq. intros [= <-]. lia.
    + rewrite lookup_insert_ne by done. apply Hinj.
Qed.

Lemma unshared_delete w ch :
  unshared w → unshared (mkWorld (heap w) (delete ch (conversations w))).
Proof.
  intros H ch1 l. cbn [heap conversations]. intros H1.
  apply lookup_delete_Some in H1 as [Hne H1]. pose proof (H _ _ H1) as [Hlt Hinj].
  split; [done |]. intros ch2 H2. apply lookup_delete_Some in H2 as [_ H2]. by apply Hinj.
Qed.

Lemma reachable_unshared schedule : unshared (sys_world (play schedule boot)).
Proof.
  apply reachable_preserves.
  - intros w ch s _. apply unshared_new.
  - intros w ch. apply unshared_delete.
  - intros w l st. apply unshared_alter.
  - intros w l c. apply unshared_alter.
  - intros w l a. apply unshared_alter.
  - intros w l qs _. apply unshared_alter.
  - intros ch l. done.
Qed.

Lemma apart_alter w0 ch other w l f :
  conversations w0 !! other ≠ Some l → apart w0 ch other w →
  apart w0 ch other (mkWorld (alter f l (heap w)) (conversations w)).
Proof.
  intros Hl (Hc & Hh & Hn). split; [done |]. split; [| done].
  intros l' Hl'. cbn [heap]. rewrite list_lookup_alter_ne by congruence. by apply Hh.
Qed.

(** One message, from any world in which its channel and the other one do
    not share a session object. *)
Lemma other_channel_kept env w message other :
  other ≠ dm_channel message →
  (∀ l, conversations w !! dm_channel message = Some l → conversations w !! other ≠ Some l) →
  session_of (world_after env (DirectMessageReceived message) w) other = session_of w other.
Proof.
  intros Hne Halias.
  assert (H : apart w (dm_channel message) other
                (world_after env (DirectMessageReceived message) w)).
  { unfold world_after, handle, handler.
    apply (wp_run (apart w (dm_channel message) other) env (message_handler message)
             (λ _, True) (start w)).
    - apply (message_handler_preserves _ (λ l, conversations w !! other ≠ Some l)).
      + intros w' l (_ & _ & Hn). apply Hn.
      + intros w' (Hc & Hh & Hn). split; [| split; [done |]]; cbn [conversations].
        * by rewrite lookup_delete_ne.
        * intros l. by rewrite lookup_delete_eq.
      + intros w' l st. apply apart_alter.
      + intros w' l c. apply apart_alter.
      + intros w' l a. apply apart_alter.
      + intros w' l qs Hl _. by apply apart_alter.
    - split; [done |]. split; [done | exact Halias]. }
  destruct H as (Hc & Hh & _). unfold session_of. rewrite Hc.
  destruct (conversations w !! other) as [l |] eqn:E; [| done]. cbn. by apply Hh.
Qed.

(** X19. A direct message changes nothing for another channel. In any
    state that the process can reach (events and replies in any order), and
    whatever the message, the stage of its own session and the replies it
    gets: every other channel has, after the message is handled, the session
    it had before, with the same content, or none as before. *)
Theorem other_channels_untouched schedule env message other :
  other ≠ dm_channel message →
  session_of (world_after env (DirectMessageReceived message) (sys_world (play schedule boot)))
    other
  = session_of (sys_world (play schedule boot)) other.
Proof.
  intros Hne. apply other_channel_kept; [exact Hne |].
  intros l Hl Hother.
  destruct (reachable_unshared schedule _ _ Hl) as [_ Hinj]. by apply Hinj in Hother.
Qed.

Lemma other_channels_untouched_witness :
  let schedule :=
    [ Arrive (CommandInvoked (mkCommand (js "U1") (js "T1")));
      Deliver 0 Done; Deliver 0 (Channel (js "D1")); Deliver 0 Done; Deliver 0 Done;
      Arrive (CommandInvoked (mkCommand (js "U2") (js "T1")));
      Deliver 0 Done; Deliver 0 (Channel (js "D2")); Deliver 0 Done; Deliver 0 Done ] in
  let message := mkDM (js "im") (js "D1") (Some (js "We switch vendors.")) None in
  session_of (world_after (replies []) (DirectMessageReceived message)
                (sys_world (play schedule boot))) (js "D2")
  = session_of (sys_world (play schedule boot)) (js "D2").
Proof.
  apply (other_channels_untouched
           [ Arrive (CommandInvoked (mkCommand (js "U1") (js "T1")));
             Deliver 0 Done; Deliver 0 (Channel (js "D1")); Deliver 0 Done; Deliver 0 Done;
             Arrive (CommandInvoked (mkCommand (js "U2") (js "T1")));
             Deliver 0 Done; Deliver 0 (Channel (js "D2")); Deliver 0 Done; Deliver 0 Done ]
           (replies [])
           (mkDM (js "im") (js "D1") (Some (js "We switch vendors.")) None) (js "D2")).
  discriminate.
Defined.

(** ** The calls to the Draft Generator that one event can cost *)

Section Budget.
Context (weight : Call → nat) (a b : nat).
Context (Hplanner : ∀ prompt, weight (AnthropicMessages 1000 prompt) ≤ a).
Context (Hcomposer : ∀ prompt, weight (AnthropicMessages 4000 prompt) ≤ b).
Context (Hfree : ∀ c, is_dg_call c = false → weight c = 0).

Lemma within_mono {A} (p : Prog A) n m : n ≤ m → within weight n p → within weight m p.
Proof.
  revert n m. induction p as [| | ? c k IH | ? k IH | ? w k IH | ? c IHc k IH];
    intros n m Hle; cbn [within]; auto.
  - intros [Hc H]. split; [lia |]. intros r. apply (IH r (n - weight c)); [lia | apply H].
  - intros H w. by apply (IH w n).
  - by apply IH.
  - intros (n1 & n2 & Hn & H1 & H2). exists n1, n2. split; [lia | done].
Qed.

Lemma within_bind {A B} (p : Prog A) (f : A → Prog B) n m :
  within weight n p → (∀ x, within weight m (f x)) → within weight (n + m) (p ≫= f).
Proof.
  change (p ≫= f) with (bind p f).
  revert B f n m. induction p as [| | ? c k IH | ? k IH | ? w k IH | ? c IHc k IH];
    intros B f n m; cbn [bind within].
  - intros _ H. apply (within_mono _ m); [lia | apply H].
  - done.
  - intros [Hc H] Hf. split; [lia |]. intros r.
    replace (n + m - weight c) with (n - weight c + m) by lia. by apply IH.
  - intros H Hf w. by apply IH.
  - intros H Hf. by apply IH.
  - intros (n1 & n2 & Hn & H1 & H2) Hf. exists n1, (n2 + m). split; [lia |].
    split; [done |]. by apply IH.
Qed.

Lemma within_try_catch {A} (p : Prog A) (h : JsError → Prog A) n m :
  within weight n p → (∀ e, within weight m (h e)) → within weight (n + m) (try_catch p h).
Proof.
  revert h n m. induction p as [| | ? c k IH | ? k IH | ? w k IH | ? c IHc k IH];
    intros h n m; cbn [try_catch within].
  - done.
  - intros _ H. apply (within_mono _ m); [lia | apply H].
  - intros [Hc H] Hh. split; [lia |]. intros r.
    replace (n + m - weight c) with (n - weight c + m) by lia. by apply IH.
  - intros H Hh w. by apply IH.
  - intros H Hh. by apply IH.
  - intros (n1 & n2 & Hn & H1 & H2) Hh. exists n1, (n2 + m). split; [lia |].
    split; [done |]. by apply IH.
Qed.

Lemma within_run {A} env (p : Prog A) n st :
  within weight n p →
  spent weight (rs_calls (snd (run env p st))) ≤ spent weight (rs_calls st) + n.
Proof.
  revert n st. induction p as [| | ? c k IH | ? k IH | ? w k IH | ? c IHc k IH];
    intros n st; cbn [run within snd].
  - lia.
  - lia.
  - intros [Hc H]. etransitivity; [apply (IH _ (n - weight c)), H |].
    cbn [rs_calls]. unfold spent. rewrite sum_list_with_app. cbn. lia.
  - intros H. apply IH, H.
  - intros H. apply (IH n (mkRun w (rs_calls st) (rs_next st)) H).
  - intros (n1 & n2 & Hn & H1 & H2). etransitivity; [apply (IH _ _ H2) |].
    pose proof (IHc n1 st H1). lia.
Qed.

(** Steps that weigh nothing. *)
Lemma free_bind {A B} (p : Prog A) (f : A → Prog B) n :
  within weight 0 p → (∀ x, within weight n (f x)) → within weight n (p ≫= f).
Proof. intros Hp Hf. by apply (within_bind p f 0 n). Qed.

Lemma free_catch {A} (p : Prog A) (h : JsError → Prog A) n :
  within weight n p → (∀ e, within weight 0 (h e)) → within weight n (try_catch p h).
Proof.
  intros Hp Hh. apply (within_mono _ (n + 0)); [lia |]. by apply within_try_catch.
Qed.

Lemma free_settled r : within weight 0 (settled r).
Proof. by destruct r. Qed.

Lemma await_within c n : weight c ≤ n → within weight n (await c).
Proof.
  intros Hc. unfold await. cbn [within]. split; [exact Hc |]. intros r.
  apply (within_mono _ 0); [lia | apply free_settled].
Qed.

Lemma free_await c : is_dg_call c = false → within weight 0 (await c).
Proof. intros Hc. apply await_within. by rewrite (Hfree c Hc). Qed.

Lemma then_free {A B} (p : Prog A) (f : A → Prog B) n :
  within weight n p → (∀ x, within weight 0 (f x)) → within weight n (p ≫= f).
Proof.
  intros Hp Hf. apply (within_mono _ (n + 0)); [lia |]. by apply within_bind.
Qed.

Lemma free_post ch text : within weight 0 (post ch text).
Proof. apply free_bind; [by apply free_await | done]. Qed.

Lemma free_conv_get ch : within weight 0 (conv_get ch).
Proof. done. Qed.

Lemma free_obj_read l : within weight 0 (obj_read l).
Proof. intros w. cbn. by destruct (heap w !! l). Qed.

Lemma free_obj_update l f : within weight 0 (obj_update l f).
Proof. done. Qed.

Lemma free_conv_delete ch : within weight 0 (conv_delete ch).
Proof. done. Qed.

Lemma free_conv_new ch s : within weight 0 (conv_new ch s).
Proof. done. Qed.

Lemma free_conv_update ch f : within weight 0 (conv_update ch f).
Proof. intros w. cbn. by destruct (conversations w !! ch). Qed.

Lemma free_converted {A} (o : option A) : within weight 0 (converted o).
Proof. by destruct o. Qed.

Lemma free_response_text r : within weight 0 (response_text r).
Proof. destruct r; try done. cbn. by destruct (text_of_body data). Qed.

Lemma free_process channel memo : within weight 0 (processMemoAndRespond channel memo).
Proof.
  destruct memo; try done. cbn [processMemoAndRespond].
  apply free_bind; [apply free_post |]. intros _.
  apply free_bind; [apply free_post |]. intros _. apply free_post.
Qed.

Lemma planner_within context participants :
  within weight a (generateClarifyingQuestions context participants).
Proof using Hplanner.
  unfold generateClarifyingQuestions.
  apply free_catch; [| done].
  apply then_free; [apply await_within, Hplanner |]. intros response.
  apply free_bind; [apply free_response_text |]. intros v.
  unfold parse_questions. destruct (toString v ≫= JSON_parse) as [[] |]; try done.
  by destruct v.
Qed.

Lemma memo_within context participants :
  within weight b (generateDecisionMemo context participants).
Proof using Hcomposer.
  unfold generateDecisionMemo. apply free_catch; [| done].
  apply then_free; [apply await_within, Hcomposer |]. intros response.
  apply free_response_text.
Qed.

Lemma clarified_memo_within context participants questions answers :
  within weight b
    (generateDecisionMemoWithClarification context participants questions answers).
Proof using Hcomposer.
  unfold generateDecisionMemoWithClarification. apply free_catch; [| done].
  destruct questions as [qs |]; [| done].
  apply free_bind; [apply free_converted |]. intros pairs.
  apply then_free; [apply await_within, Hcomposer |]. intros response.
  apply free_response_text.
Qed.

Lemma direct_memo_within awaited channel context :
  within weight 0 context →
  within weight b (memo_without_questions awaited channel context).
Proof using Hcomposer Hfree.
  intros Hctx. unfold memo_without_questions.
  apply free_bind; [apply free_post |]. intros _.
  apply then_free; [| intros _; apply free_conv_delete].
  apply free_catch; [| intros _; apply free_post].
  apply free_bind; [exact Hctx |]. intros ctx.
  apply then_free; [apply memo_within |]. intros memo.
  destruct awaited; [apply free_process |].
  exists 0, 0. split; [lia |]. split; [apply free_process | done].
Qed.

Lemma ask_failed_within l channel : within weight b (ask_failed l channel).
Proof using Hcomposer Hfree.
  apply direct_memo_within.
  change (within weight 0 (obj_read l ≫= λ s, Ret (context s))).
  apply free_bind; [apply free_obj_read | done].
Qed.

Lemma ask_questions_within l channel : within weight a (ask_questions l channel).
Proof using Hplanner Hfree.
  unfold ask_questions. apply free_bind; [apply free_obj_read |]. intros s.
  apply then_free; [apply planner_within |]. intros qs.
  apply free_bind; [apply free_obj_update |]. intros _.
  apply free_bind; [apply free_converted |]. intros text. apply free_post.
Qed.

Lemma handleFileUpload_within l message file :
  within weight (a + b) (handleFileUpload l message file).
Proof using Hplanner Hcomposer Hfree.
  unfold handleFileUpload.
  apply free_catch; [| intros e; destruct (bool_decide _); apply free_post].
  destruct (file_filetype file) as [filetype |]; [| done].
  destruct (negb _); [apply (within_mono _ 0); [lia | apply free_post] |].
  apply free_bind; [by apply free_await |]. intros fileInfo.
  apply free_catch; [| done].
  apply free_bind; [by destruct fileInfo |]. intros url.
  apply free_bind; [by apply free_await |]. intros response.
  destruct (file_content (body_of response)) as [fileContent |]; [| done].
  apply free_bind; [apply free_obj_update |]. intros _.
  apply free_bind; [apply free_post |]. intros _.
  apply within_try_catch; [| intros _; apply ask_failed_within].
  apply free_bind; [apply free_obj_update |]. intros _. apply ask_questions_within.
Qed.

Lemma message_handler_within message :
  within weight (a + b) (message_handler message).
Proof using Hplanner Hcomposer Hfree.
  unfold message_handler. destruct (negb _); [done |].
  apply free_bind; [apply free_conv_get |]. intros [l |]; [| done].
  apply free_catch; [| intros _; apply free_post].
  destruct (is_stop (dm_text message)).
  { apply (within_mono _ 0); [lia |].
    apply free_bind; [apply free_post |]. intros _. apply free_conv_delete. }
  apply free_bind; [apply free_obj_read |]. intros s.
  destruct (stage s).
  - destruct (dm_files message) as [[| file rest] |].
    2: { apply handleFileUpload_within. }
    all: apply free_bind; [apply free_obj_update |]; intros _;
      apply free_bind; [apply free_obj_update |]; intros _;
      apply free_bind; [apply free_post |]; intros _;
      apply within_try_catch; [apply ask_questions_within | intros _; apply ask_failed_within].
  - apply (within_mono _ b); [lia |].
    apply free_bind; [apply free_obj_update |]. intros _.
    apply free_bind; [apply free_obj_update |]. intros _.
    apply free_bind; [apply free_post |]. intros _.
    apply then_free; [| intros []; [apply free_conv_delete | done]].
    apply free_catch.
    2: { intros _. apply free_bind; [apply free_post | done]. }
    apply free_bind; [apply free_obj_read |]. intros s'.
    apply then_free; [apply clarified_memo_within |]. intros memo.
    apply free_bind; [apply free_conv_get |]. intros [l' |]; [| done].
    apply free_bind; [apply free_process | done].
  - done.
Qed.

Lemma command_handler_within command : within weight 0 (command_handler command).
Proof using Hfree.
  unfold command_handler. apply free_bind; [by apply free_await |]. intros _.
  apply free_catch.
  2: { intros _. apply free_bind; [by apply free_await | done]. }
  apply free_bind; [by apply free_await |]. intros r.
  apply free_bind; [by destruct r |]. intros dm.
  apply free_bind; [by apply free_await |]. intros _.
  apply free_bind; [apply free_conv_new |]. intros _. apply free_post.
Qed.

Lemma shortcut_questions_within dm content :
  within weight (a + b) (shortcut_questions dm content).
Proof using Hplanner Hcomposer Hfree.
  unfold shortcut_questions. apply within_try_catch.
  - apply then_free; [apply planner_within |]. intros qs.
    apply free_bind; [apply free_conv_update |]. intros _.
    apply free_bind; [apply free_converted |]. intros text. apply free_post.
  - intros _. by apply direct_memo_within.
Qed.

Lemma fetch_thread_free shortcut : within weight 0 (fetch_thread shortcut).
Proof using Hfree.
  unfold fetch_thread.
  destruct (msg_thread_ts (sc_message shortcut)) as [[| c t] |]; try done.
  apply free_catch; [| done].
  apply free_bind; [by apply free_await |]. intros r.
  by destruct r as [| | | [[|] |] | |].
Qed.

Lemma shortcut_handler_within shortcut :
  within weight (a + b) (shortcut_handler shortcut).
Proof using Hplanner Hcomposer Hfree.
  unfold shortcut_handler. apply free_bind; [by apply free_await |]. intros _.
  apply free_catch.
  2: { intros _. destruct (truthy _); [| done].
       apply free_catch; [| done]. apply free_bind; [by apply free_await | done]. }
  apply free_bind; [by apply free_await |]. intros r.
  apply free_bind; [by destruct r |]. intros dm.
  apply free_bind.
  { apply free_catch; [| done]. apply free_bind; [by apply free_await | done]. }
  intros _. apply free_bind; [apply fetch_thread_free |].
  intros [[threadMessages threadContent] failed].
  apply free_bind; [apply free_conv_new |]. intros _.
  destruct (truthy _ && failed).
  { apply (within_mono _ 0); [lia |].
    apply free_bind; [apply free_post |]. intros _. apply free_conv_delete. }
  destruct (truthy _ && negb failed).
  - apply free_bind; [apply free_post |]. intros _.
    destruct (parent_of threadMessages); [| done].
    apply free_bind; [apply free_post |]. intros _. apply shortcut_questions_within.
  - apply free_bind; [apply free_post |]. intros _.
    apply free_bind; [apply free_post |]. intros _.
    apply free_bind; [apply free_post |]. intros _. apply shortcut_questions_within.
Qed.

Lemma handler_within e : within weight (a + b) (handler e).
Proof using Hplanner Hcomposer Hfree.
  destruct e; cbn [handler].
  - apply (within_mono _ 0); [lia | apply command_handler_within].
  - apply shortcut_handler_within.
  - apply message_handler_within.
Qed.

End Budget.

(** X20. Whatever the event (a command, a shortcut, a direct message in
    any stage, with or without a file), whatever the state and whatever the
    replies, handling it calls the question planner at most once and a memo
    composer at most once, and makes no other call to the Draft Generator: at
    most two calls in all. A command makes none. *)
Theorem one_planner_and_one_composer_call_per_event env e w :
  spent planner_weight (calls_of env e w) ≤ 1
  ∧ spent composer_weight (calls_of env e w) ≤ 1
  ∧ spent dg_weight (calls_of env e w) ≤ 2
  ∧ (is_command e = true → spent dg_weight (calls_of env e w) = 0).
Proof.
  repeat split.
  - apply (within_run planner_weight env (handler e) 1 (start w)).
    apply (handler_within planner_weight 1 0); [done | done |].
    by intros [].
  - apply (within_run composer_weight env (handler e) 1 (start w)).
    apply (handler_within composer_weight 0 1); [done | done |].
    by intros [].
  - apply (within_run dg_weight env (handler e) 2 (start w)).
    apply (handler_within dg_weight 1 1); [done | done |].
    by intros [].
  - destruct e as [command | |]; [intros _ | done | done].
    assert (Hfree : ∀ c, is_dg_call c = false → dg_weight c = 0) by (by intros []).
    pose proof (within_run dg_weight env (command_handler command) 0 (start w)
                  (command_handler_within dg_weight Hfree command)) as H.
    change (spent dg_weight (rs_calls (start w))) with 0 in H.
    unfold calls_of, handle. cbn [handler]. lia.
Qed.

(** ** The shortcut on a thread, and the shortcut that cannot start *)

(** X21. The shortcut on a thread that the bot can read, when every post
    is delivered (the notice in the channel may fail) and the questions
    message can be written from the planned list (no planned question is an
    object with a [toString] key of its own). The messages of bots and those
    with a subtype are left out; the context stored, and given to the
    planner, is the transcript of the human messages, each with the mention
    of its author; the preview quotes the parent message. The session is in
    [AskingQuestions] with the planned questions and the catch-all. *)
Theorem thread_shortcut_asks env w shortcut ts dm first others parent text :
  let humans := List.filter is_human (first :: others) in
  msg_thread_ts (sc_message shortcut) = Some ts → ts ≠ [] →
  parent_of humans = Some parent →
  is_rejected (env 0) = false →
  env 1 = Channel dm →
  env 3 = Replies (Some (first :: others)) →
  is_rejected (env 4) = false →
  is_rejected (env 5) = false →
  questionsMessage (with_final (planned (env 6))) = Some text →
  is_rejected (env 7) = false →
  calls_of env (ShortcutInvoked shortcut) w
  = [ Ack; ConversationsOpen (sc_user shortcut);
      ChatPostMessage (sc_channel shortcut) (Some ts)
        (msg_thread_notice (sc_user shortcut) (dmLink (sc_team shortcut) dm));
      ConversationsReplies (sc_channel shortcut) ts;
      ChatPostMessage dm None (msg_thread_context (sc_channel shortcut));
      ChatPostMessage dm None
        (msg_thread_preview (blockquote (or_else (msg_text parent) [])));
      AnthropicMessages 1000 (questions_prompt (transcript humans) []);
      ChatPostMessage dm None text ]
  ∧ session_of (world_after env (ShortcutInvoked shortcut) w) dm
    = Some (mkSession (sc_user shortcut) AskingQuestions (Some (transcript humans)) []
              (Some (with_final (planned (env 6)))) None (Some humans)
              (Some (sc_channel shortcut)) (Some ts)).
Proof.
  intros humans Hts Hne Hparent H0 H1 H3 H4 H5 Hq H7.
  unfold calls_of, world_after, handle, handler, shortcut_handler, fetch_thread.
  rewrite Hts. destruct ts as [| c t]; [done |]. clear Hne.
  unfold or_opt. cbn [truthy].
  exec. rewrite (settled_resolved _ H0). exec.
  rewrite H1. exec. rewrite notice_passes. exec. rewrite H3. exec.
  rewrite (settled_resolved _ H4). exec.
  fold humans. rewrite Hparent. exec.
  rewrite (settled_resolved _ H5). exec.
  unfold shortcut_questions.
  rewrite !run_try_catch, run_bind, planner_run. unfold after_call. exec.
  rewrite lookup_insert_eq. exec.
  rewrite Hq. exec.
  rewrite (settled_resolved _ H7). exec.
  split; [reflexivity |].
  unfold session_of. cbn [conversations heap].
  rewrite lookup_insert_eq. cbn [mbind option_bind].
  rewrite list_lookup_alter_eq, lookup_app_r, Nat.sub_diag by lia.
  reflexivity.
Qed.

Lemma thread_shortcut_asks_witness :
  let ts := js "1700000000.000100" in
  let parent := mkMessage (Some (js "U2")) (Some (js "We switch vendors.")) None None
                  (Some ts) (Some ts) in
  let bot := mkMessage None (Some (js "Build passed.")) (Some (js "B1")) None
               (Some (js "1700000000.000200")) (Some ts) in
  let reply := mkMessage (Some (js "U3")) (Some (js "Agreed.")) None None
                 (Some (js "1700000000.000300")) (Some ts) in
  let shortcut := mkShortcut reply (js "U1") (js "T1") (js "C1") in
  let env := replies [Done; Channel (js "D1"); Done; Replies (Some [parent; bot; reply]);
                      Done; Done; Body (dg_body (js "[]")); Done] in
  let humans := List.filter is_human [parent; bot; reply] in
  calls_of env (ShortcutInvoked shortcut) empty_world
  = [ Ack; ConversationsOpen (sc_user shortcut);
      ChatPostMessage (sc_channel shortcut) (Some ts)
        (msg_thread_notice (sc_user shortcut) (dmLink (sc_team shortcut) (js "D1")));
      ConversationsReplies (sc_channel shortcut) ts;
      ChatPostMessage (js "D1") None (msg_thread_context (sc_channel shortcut));
      ChatPostMessage (js "D1") None
        (msg_thread_preview (blockquote (or_else (msg_text parent) [])));
      AnthropicMessages 1000 (questions_prompt (transcript humans) []);
      ChatPostMessage (js "D1") None
        (questions_header ++ (decimal 1 ++ js ") " ++ finalQuestion ++ nl ++ nl ++ [])
         ++ questions_footer) ]
  ∧ session_of (world_after env (ShortcutInvoked shortcut) empty_world) (js "D1")
    = Some (mkSession (sc_user shortcut) AskingQuestions (Some (transcript humans)) []
              (Some (with_final (planned (env 6)))) None (Some humans)
              (Some (sc_channel shortcut)) (Some ts)).
Proof.
  apply (thread_shortcut_asks
           (replies [Done; Channel (js "D1"); Done;
                     Replies (Some [ mkMessage (Some (js "U2")) (Some (js "We switch vendors."))
                                       None None (Some (js "1700000000.000100"))
                                       (Some (js "1700000000.000100"));
                                     mkMessage None (Some (js "Build passed.")) (Some (js "B1"))
                                       None (Some (js "1700000000.000200"))
                                       (Some (js "1700000000.000100"));
                                     mkMessage (Some (js "U3")) (Some (js "Agreed.")) None None
                                       (Some (js "1700000000.000300"))
                                       (Some (js "1700000000.000100")) ]);
                     Done; Done; Body (dg_body (js "[]")); Done])
           empty_world
           (mkShortcut (mkMessage (Some (js "U3")) (Some (js "Agreed.")) None None
                          (Some (js "1700000000.000300")) (Some (js "1700000000.000100")))
              (js "U1") (js "T1") (js "C1"))
           (js "1700000000.000100") (js "D1")
           (mkMessage (Some (js "U2")) (Some (js "We switch vendors.")) None None
              (Some (js "1700000000.000100")) (Some (js "1700000000.000100")))
           [ mkMessage None (Some (js "Build passed.")) (Some (js "B1")) None
               (Some (js "1700000000.000200")) (Some (js "1700000000.000100"));
             mkMessage (Some (js "U3")) (Some (js "Agreed.")) None None
               (Some (js "1700000000.000300")) (Some (js "1700000000.000100")) ]
           (mkMessage (Some (js "U2")) (Some (js "We switch vendors.")) None None
              (Some (js "1700000000.000100")) (Some (js "1700000000.000100")))
           (questions_header ++ (decimal 1 ++ js ") " ++ finalQuestion ++ nl ++ nl ++ [])
            ++ questions_footer)).
  all: try reflexivity.
  discriminate.
Defined.

(** X22. The shortcut when the DM cannot be opened: no session is created
    (the world is what it was) and nothing is posted to a DM; when the message
    has a timestamp the handler posts its error notice in the thread of the
    message, and that is its last call, whether or not the notice is
    delivered. *)
Theorem shortcut_failure_notifies_thread env w shortcut :
  is_rejected (env 0) = false →
  is_rejected (env 1) = true →
  let ts := or_opt (msg_thread_ts (sc_message shortcut)) (msg_ts (sc_message shortcut)) in
  world_after env (ShortcutInvoked shortcut) w = w
  ∧ calls_of env (ShortcutInvoked shortcut) w
    = [ Ack; ConversationsOpen (sc_user shortcut) ]
      ++ (if truthy ts
          then [ChatPostMessage (sc_channel shortcut) ts (msg_shortcut_error (sc_user shortcut))]
          else []).
Proof.
  intros H0 H1. cbv zeta.
  unfold calls_of, world_after, handle, handler, shortcut_handler.
  exec. rewrite (settled_resolved _ H0). exec.
  apply settled_rejected in H1 as [e ->]. exec.
  destruct (truthy (or_opt _ _)); exec; [| by destruct w].
  destruct (env 2); exec; split; (reflexivity || by destruct w).
Qed.

Lemma shortcut_failure_notifies_thread_witness :
  let shortcut :=
    mkShortcut (mkMessage (Some (js "U2")) (Some (js "We switch vendors.")) None None
                  (Some (js "1700000000.000100")) None)
      (js "U1") (js "T1") (js "C1") in
  let env := replies [Done; Rejected (mkError (js "user_not_found") None)] in
  let ts := or_opt (msg_thread_ts (sc_message shortcut)) (msg_ts (sc_message shortcut)) in
  world_after env (ShortcutInvoked shortcut) empty_world = empty_world
  ∧ calls_of env (ShortcutInvoked shortcut) empty_world
    = [ Ack; ConversationsOpen (sc_user shortcut) ]
      ++ (if truthy ts
          then [ChatPostMessage (sc_channel shortcut) ts (msg_shortcut_error (sc_user shortcut))]
          else []).
Proof.
  apply (shortcut_failure_notifies_thread
           (replies [Done; Rejected (mkError (js "user_not_found") None)]) empty_world
           (mkShortcut (mkMessage (Some (js "U2")) (Some (js "We switch vendors.")) None None
                          (Some (js "1700000000.000100")) None)
              (js "U1") (js "T1") (js "C1"))).
  all: reflexivity.
Defined.

(** ** When the questions cannot be posted *)

(** X23. A pasted text in [Started] whose questions message is written
    but cannot be posted (the post is rejected), the other posts being
    delivered. The [catch] says that it had trouble, composes a memo from the
    context alone with one call, posts the introduction, the memo and the
    closing message, and deletes the session. The memo is the text of the
    Draft Generator, or the fixed fallback memo when that call is rejected.
    The questions that were planned are never shown. *)
Theorem unposted_questions_end_in_direct_memo env w l s message text memo :
  reaches_started w l s message →
  has_file message = false →
  is_rejected (env 0) = false →
  questionsMessage (with_final (planned (env 1))) = Some text →
  is_rejected (env 2) = true →
  is_rejected (env 3) = false →
  env 4 = Body (dg_body memo) ∨ is_rejected (env 4) = true ∧ memo = fallback_memo →
  is_rejected (env 5) = false →
  is_rejected (env 6) = false →
  is_rejected (env 7) = false →
  calls_of env (DirectMessageReceived message) w
  = [ ChatPostMessage (dm_channel message) None msg_thanks_context;
      AnthropicMessages 1000 (questions_prompt (render (dm_text message)) []);
      ChatPostMessage (dm_channel message) None text;
      ChatPostMessage (dm_channel message) None msg_trouble;
      AnthropicMessages 4000 (memo_prompt (render (dm_text message)) []);
      ChatPostMessage (dm_channel message) None msg_memo_intro;
      ChatPostMessage (dm_channel message) None (memo_text memo);
      ChatPostMessage (dm_channel message) None msg_memo_closing ]
  ∧ session_of (world_after env (DirectMessageReceived message) w) (dm_channel message)
    = None.
Proof.
  intros (Him & Hc & Hh & Hs & Hstop) Hnofile H0 Hq H2 H3 H4 H5 H6 H7.
  apply settled_rejected in H2 as [e2 H2].
  enter_pasted_text Him Hc Hh Hs Hstop Hnofile H0.
  rewrite Hq. exec. rewrite H2. exec.
  unfold ask_failed, memo_without_questions. exec.
  rewrite (settled_resolved _ H3). exec.
  rewrite !list_lookup_alter_eq, Hh. cbn [fmap option_fmap option_map]. exec.
  unfold generateDecisionMemo. exec.
  cbn [context set_questions set_stage set_context].
  assert (Hend : ∀ h, session_of (mkWorld h (delete (dm_channel message) (conversations w)))
                        (dm_channel message) = None).
  { intros h. unfold session_of. cbn [conversations]. by rewrite lookup_delete_eq. }
  destruct H4 as [H4 | [H4 ->]].
  - rewrite H4. exec. rewrite text_of_dg_body. exec.
    unfold processMemoAndRespond. exec.
    rewrite (settled_resolved _ H5). exec.
    rewrite (settled_resolved _ H6). exec.
    rewrite (settled_resolved _ H7). exec.
    split; [reflexivity | apply Hend].
  - apply settled_rejected in H4 as [e4 ->]. exec.
    unfold processMemoAndRespond. exec.
    rewrite (settled_resolved _ H5). exec.
    rewrite (settled_resolved _ H6). exec.
    rewrite (settled_resolved _ H7). exec.
    split; [reflexivity | apply Hend].
Qed.

Lemma unposted_questions_end_in_direct_memo_witness :
  let env := replies [Done; Body (dg_body (js "[]"));
                      Rejected (mkError (js "msg_too_long") None); Done;
                      Body (dg_body (js "# Vendors"))] in
  let s := mkSession (js "U1") Started (Some []) [] None None None None None in
  let w := mkWorld [s] {[ js "D1" := 0 ]} in
  let message := mkDM (js "im") (js "D1") (Some (js "We switch vendors.")) None in
  calls_of env (DirectMessageReceived message) w
  = [ ChatPostMessage (dm_channel message) None msg_thanks_context;
      AnthropicMessages 1000 (questions_prompt (render (dm_text message)) []);
      ChatPostMessage (dm_channel message) None
        (questions_header ++ (decimal 1 ++ js ") " ++ finalQuestion ++ nl ++ nl ++ [])
         ++ questions_footer);
      ChatPostMessage (dm_channel message) None msg_trouble;
      AnthropicMessages 4000 (memo_prompt (render (dm_text message)) []);
      ChatPostMessage (dm_channel message) None msg_memo_intro;
      ChatPostMessage (dm_channel message) None (memo_text (js "# Vendors"));
      ChatPostMessage (dm_channel message) None msg_memo_closing ]
  ∧ session_of (world_after env (DirectMessageReceived message) w) (dm_channel message)
    = None.
Proof.
  apply (unposted_questions_end_in_direct_memo
           (replies [Done; Body (dg_body (js "[]"));
                     Rejected (mkError (js "msg_too_long") None); Done;
                     Body (dg_body (js "# Vendors"))])
           (mkWorld [mkSession (js "U1") Started (Some []) [] None None None None None]
              {[ js "D1" := 0 ]})
           0 (mkSession (js "U1") Started (Some []) [] None None None None None)
           (mkDM (js "im") (js "D1") (Some (js "We switch vendors.")) None)
           (questions_header ++ (decimal 1 ++ js ") " ++ finalQuestion ++ nl ++ nl ++ [])
            ++ questions_footer)
           (js "# Vendors")).
  all: try reflexivity.
  - repeat split; reflexivity.
  - left. reflexivity.
Defined.

(** X25. A pasted text in [Started] for which the planner returns a
    question that the template literal of the questions message cannot
    convert to a string (an object with a [toString] key of its own, which
    [JSON.parse] yields for such a text). The literal throws inside the
    [try], after the list was stored: no questions message is posted, and the
    [catch] runs as after a failed post. With the other posts delivered, the
    handler says that it had trouble, composes a memo from the context alone,
    posts it, and deletes the session. *)
Theorem unwritable_questions_end_in_direct_memo env w l s message memo :
  reaches_started w l s message →
  has_file message = false →
  is_rejected (env 0) = false →
  questionsMessage (with_final (planned (env 1))) = None →
  is_rejected (env 2) = false →
  env 3 = Body (dg_body memo) ∨ is_rejected (env 3) = true ∧ memo = fallback_memo →
  is_rejected (env 4) = false →
  is_rejected (env 5) = false →
  is_rejected (env 6) = false →
  calls_of env (DirectMessageReceived message) w
  = [ ChatPostMessage (dm_channel message) None msg_thanks_context;
      AnthropicMessages 1000 (questions_prompt (render (dm_text message)) []);
      ChatPostMessage (dm_channel message) None msg_trouble;
      AnthropicMessages 4000 (memo_prompt (render (dm_text message)) []);
      ChatPostMessage (dm_channel message) None msg_memo_intro;
      ChatPostMessage (dm_channel message) None (memo_text memo);
      ChatPostMessage (dm_channel message) None msg_memo_closing ]
  ∧ session_of (world_after env (DirectMessageReceived message) w) (dm_channel message)
    = None.
Proof.
  intros (Him & Hc & Hh & Hs & Hstop) Hnofile H0 Hq H2 H3 H4 H5 H6.
  enter_pasted_text Him Hc Hh Hs Hstop Hnofile H0.
  rewrite Hq. exec.
  unfold ask_failed, memo_without_questions. exec.
  rewrite (settled_resolved _ H2). exec.
  rewrite !list_lookup_alter_eq, Hh. cbn [fmap option_fmap option_map]. exec.
  unfold generateDecisionMemo. exec.
  cbn [context set_questions set_stage set_context].
  assert (Hend : ∀ h, session_of (mkWorld h (delete (dm_channel message) (conversations w)))
                        (dm_channel message) = None).
  { intros h. unfold session_of. cbn [conversations]. by rewrite lookup_delete_eq. }
  destruct H3 as [H3 | [H3 ->]].
  - rewrite H3. exec. rewrite text_of_dg_body. exec.
    unfold processMemoAndRespond. exec.
    rewrite (settled_resolved _ H4). exec.
    rewrite (settled_resolved _ H5). exec.
    rewrite (settled_resolved _ H6). exec.
    split; [reflexivity | apply Hend].
  - apply settled_rejected in H3 as [e3 ->]. exec.
    unfold processMemoAndRespond. exec.
    rewrite (settled_resolved _ H4). exec.
    rewrite (settled_resolved _ H5). exec.
    rewrite (settled_resolved _ H6). exec.
    split; [reflexivity | apply Hend].
Qed.

Lemma unwritable_questions_end_in_direct_memo_witness :
  let env := replies [Done;
                      Body (dg_body (js "[{" ++ dq ++ js "toString" ++ dq ++ js ":1}]"));
                      Done; Body (dg_body (js "# Vendors"))] in
  let s := mkSession (js "U1") Started (Some []) [] None None None None None in
  let w := mkWorld [s] {[ js "D1" := 0 ]} in
  let message := mkDM (js "im") (js "D1") (Some (js "We switch vendors.")) None in
  calls_of env (DirectMessageReceived message) w
  = [ ChatPostMessage (dm_channel message) None msg_thanks_context;
      AnthropicMessages 1000 (questions_prompt (render (dm_text message)) []);
      ChatPostMessage (dm_channel message) None msg_trouble;
      AnthropicMessages 4000 (memo_prompt (render (dm_text message)) []);
      ChatPostMessage (dm_channel message) None msg_memo_intro;
      ChatPostMessage (dm_channel message) None (memo_text (js "# Vendors"));
      ChatPostMessage (dm_channel message) None msg_memo_closing ]
  ∧ session_of (world_after env (DirectMessageReceived message) w) (dm_channel message)
    = None.
Proof.
  apply (unwritable_questions_end_in_direct_memo
           (replies [Done;
                     Body (dg_body (js "[{" ++ dq ++ js "toString" ++ dq ++ js ":1}]"));
                     Done; Body (dg_body (js "# Vendors"))])
           (mkWorld [mkSession (js "U1") Started (Some []) [] None None None None None]
              {[ js "D1" := 0 ]})
           0 (mkSession (js "U1") Started (Some []) [] None None None None None)
           (mkDM (js "im") (js "D1") (Some (js "We switch vendors.")) None)
           (js "# Vendors")).
  all: try reflexivity.
  - repeat split; reflexivity.
  - left. reflexivity.
Defined.

(** ** A whole conversation *)

Lemma command_world env w command dm :
  is_rejected (env 0) = false →
  env 1 = Channel dm →
  is_rejected (env 2) = false →
  world_after env (CommandInvoked command) w
  = mkWorld (heap w ++ [mkSession (cmd_user_id command) Started (Some []) [] None None None
                          None None])
      (<[dm := length (heap w)]> (conversations w)).
Proof.
  intros H0 H1 H2.
  unfold calls_of, world_after, handle, handler, command_handler.
  exec. rewrite (settled_resolved _ H0). exec. rewrite H1. exec.
  rewrite (settled_resolved _ H2). exec.
  destruct (env 3); exec; try reflexivity.
  destruct (env 4); exec; reflexivity.
Qed.

Lemma pasted_text_world env w l s message text :
  reaches_started w l s message →
  has_file message = false →
  is_rejected (env 0) = false →
  questionsMessage (with_final (planned (env 1))) = Some text →
  is_rejected (env 2) = false →
  world_after env (DirectMessageReceived message) w
  = mkWorld (<[l := set_questions (with_final (planned (env 1)))
                      (set_stage AskingQuestions (set_context (dm_text message) s))]> (heap w))
      (conversations w).
Proof.
  intros (Him & Hc & Hh & Hs & Hstop) Hnofile H0 Hq H2.
  enter_pasted_text Him Hc Hh Hs Hstop Hnofile H0.
  rewrite Hq. exec.
  rewrite (settled_resolved _ H2). exec. f_equal.
  apply list_eq. intros i. destruct (decide (l = i)) as [<- | Hne].
  - rewrite !list_lookup_alter_eq, Hh, list_lookup_insert_eq; [done |].
    by eapply lookup_lt_Some.
  - by rewrite !list_lookup_alter_ne, list_lookup_insert_ne.
Qed.

Lemma answer_ends_session env w l s message questions :
  dm_channel_type message = js "im" →
  conversations w !! dm_channel message = Some l →
  heap w !! l = Some s →
  stage s = AskingQuestions →
  clarifyingQuestions s = Some questions →
  is_stop (dm_text message) = false →
  is_rejected (env 0) = false →
  is_rejected (env 2) = false →
  is_rejected (env 3) = false →
  is_rejected (env 4) = false →
  session_of (world_after env (DirectMessageReceived message) w) (dm_channel message) = None.
Proof.
  intros Him Hc Hh Hs Hq Hstop H0 H2 H3 H4.
  enter_message Him Hc. rewrite Hstop. exec. rewrite Hh. exec.
  rewrite Hs. exec. rewrite (settled_resolved _ H0). exec.
  rewrite !list_lookup_alter_eq, Hh. cbn [fmap option_fmap option_map]. exec.
  unfold generateDecisionMemoWithClarification. cbn [clarifyingQuestions set_stage set_answers].
  rewrite Hq. exec.
  assert (Hend : ∀ h, session_of (mkWorld h (delete (dm_channel message) (conversations w)))
                        (dm_channel message) = None).
  { intros h. unfold session_of. cbn [conversations]. by rewrite lookup_delete_eq. }
  assert (Hposted : ∀ (v : jsval) h calls,
    session_of
      (rs_world
         (snd (run env
                 (try_catch
                    (bind
                       (try_catch
                          (bind (processMemoAndRespond (dm_channel message) v)
                             (λ _, mret true))
                          (λ _, bind (post (dm_channel message) msg_memo_error)
                                  (λ _, mret true)))
                       (λ finished : bool,
                          if finished then conv_delete (dm_channel message) else mret ()))
                    (λ _, post (dm_channel message) msg_message_error))
                 (mkRun (mkWorld h (conversations w)) calls 2))))
      (dm_channel message) = None).
  { intros v h calls. destruct v; cbn [processMemoAndRespond]; exec.
    all: rewrite (settled_resolved _ H2); exec; try apply Hend.
    rewrite (settled_resolved _ H3). exec.
    rewrite (settled_resolved _ H4). exec. apply Hend. }
  destruct (clarification questions _) as [pairs |]; exec; rewrite ?Hc; exec.
  2: { cbn [processMemoAndRespond]. exec.
       destruct (is_rejected (env 1)) eqn:H1.
       - apply settled_rejected in H1 as [e1 H1]. rewrite H1. exec.
         rewrite (settled_resolved _ H2). exec. apply Hend.
       - rewrite (settled_resolved _ H1). exec.
         rewrite (settled_resolved _ H2). exec.
         rewrite (settled_resolved _ H3). exec. apply Hend. }
  destruct (env 1) as [e | | id | msgs | url | data]; exec; rewrite ?Hc; exec;
    try apply Hposted.
  destruct (text_of_body data) as [v |]; exec; rewrite Hc; exec; apply Hposted.
Qed.

(** X24. A conversation from the command to the memo. From any state:
    after the command the DM channel is in [Started]; after a pasted text
    (anything but the word stop) it is in [AskingQuestions]; after the answer
    (anything but the word stop) the channel has no session. This holds
    whatever the Draft Generator returns to the planner and to the composer
    (questions or none, a memo, a malformed body, a failure), as long as the
    questions message can be written from the planned list (no planned
    question is an object with a [toString] key of its own) and the platform
    delivers what the handlers post. *)
Theorem conversation_completes w command dm text answer envc envt enva :
  is_rejected (envc 0) = false → envc 1 = Channel dm → is_rejected (envc 2) = false →
  is_stop (Some text) = false →
  is_rejected (envt 0) = false →
  is_Some (questionsMessage (with_final (planned (envt 1)))) →
  is_rejected (envt 2) = false →
  is_stop (Some answer) = false →
  is_rejected (enva 0) = false → is_rejected (enva 2) = false →
  is_rejected (enva 3) = false → is_rejected (enva 4) = false →
  let started := (CommandInvoked command, envc) in
  let pasted := (DirectMessageReceived (mkDM (js "im") dm (Some text) None), envt) in
  let answered := (DirectMessageReceived (mkDM (js "im") dm (Some answer) None), enva) in
  stage_of (process [started] w) dm = Some Started
  ∧ stage_of (process [started; pasted] w) dm = Some AskingQuestions
  ∧ stage_of (process [started; pasted; answered] w) dm = None.
Proof.
  intros Hc0 Hc1 Hc2 Htext Ht0 [asked Ht1] Ht2 Hanswer Ha0 Ha2 Ha3 Ha4. cbv zeta.
  cbn [process]. rewrite (command_world envc w command dm Hc0 Hc1 Hc2).
  set (s0 := mkSession (cmd_user_id command) Started (Some []) [] None None None None None).
  set (w1 := mkWorld (heap w ++ [s0]) (<[dm := length (heap w)]> (conversations w))).
  assert (Hl1 : conversations w1 !! dm = Some (length (heap w)))
    by apply lookup_insert_eq.
  assert (Hs1 : heap w1 !! length (heap w) = Some s0)
    by (cbn [w1 heap]; by rewrite lookup_app_r, Nat.sub_diag by lia).
  split.
  { unfold stage_of, session_of. rewrite Hl1. cbn [mbind option_bind]. by rewrite Hs1. }
  rewrite (pasted_text_world envt w1 (length (heap w)) s0
             (mkDM (js "im") dm (Some text) None) asked); [| done | done | done | done | done].
  cbn [dm_text].
  set (s1 := set_questions (with_final (planned (envt 1)))
               (set_stage AskingQuestions (set_context (Some text) s0))).
  set (w2 := mkWorld (<[length (heap w) := s1]> (heap w1)) (conversations w1)).
  assert (Hs2 : heap w2 !! length (heap w) = Some s1).
  { cbn [w2 heap]. apply list_lookup_insert_eq. by eapply lookup_lt_Some. }
  split.
  { unfold stage_of, session_of. change (conversations w2) with (conversations w1).
    rewrite Hl1. cbn [mbind option_bind]. by rewrite Hs2. }
  unfold stage_of.
  pose proof (answer_ends_session enva w2 (length (heap w)) s1
                (mkDM (js "im") dm (Some answer) None) (with_final (planned (envt 1)))
                eq_refl Hl1 Hs2 eq_refl eq_refl Hanswer Ha0 Ha2 Ha3 Ha4) as Hend.
  cbn [dm_channel] in Hend. by rewrite Hend.
Qed.

Lemma conversation_completes_witness :
  let command := mkCommand (js "U1") (js "T1") in
  let envc := replies [Done; Channel (js "D1")] in
  let envt := replies [Done; Body (dg_body (js "no questions"))] in
  let enva := replies [Done; Rejected (mkError (js "overloaded") None)] in
  let started := (CommandInvoked command, envc) in
  let pasted :=
    (DirectMessageReceived (mkDM (js "im") (js "D1") (Some (js "We switch vendors.")) None),
     envt) in
  let answered :=
    (DirectMessageReceived (mkDM (js "im") (js "D1") (Some (js "Nothing to add.")) None),
     enva) in
  stage_of (process [started] empty_world) (js "D1") = Some Started
  ∧ stage_of (process [started; pasted] empty_world) (js "D1") = Some AskingQuestions
  ∧ stage_of (process [started; pasted; answered] empty_world) (js "D1") = None.
Proof.
  apply (conversation_completes empty_world (mkCommand (js "U1") (js "T1")) (js "D1")
           (js "We switch vendors.") (js "Nothing to add.")
           (replies [Done; Channel (js "D1")])
           (replies [Done; Body (dg_body (js "no questions"))])
           (replies [Done; Rejected (mkError (js "overloaded") None)])).
  all: try reflexivity.
  eexists. reflexivity.
Defined.
